(** * Bluetooth relay extension: connection lifecycle and delivery layer

    A shallow embedding of [bt-relay-xcratch.js].  The module-level [let]
    variables of the script become the fields of one record [Sys]; the
    [async] functions become computations in a state-and-exception monad
    [M]; the Web Bluetooth transport is an oracle [Host] that decides, call
    by call, whether a transport promise resolves or rejects.  Every
    transport call is appended to a log so that statements about what was
    written, and in which order, can be read off the final state.

    A computation in [M] is a call run from its first statement to its
    last with nothing in between: this is what a call does when no other
    one overlaps it.  Calls that overlap are in the second half of the
    definitions: the same functions with their [await]s marked ([Prog]),
    run turn by turn, another block or event being let in at every
    [await]; the states the extension gets into are defined there, and
    run in one go a marked function is the computation in [M].

    Strings are JavaScript strings in their UTF-8 encoding. *)

From Stdlib Require Import String Ascii List ZArith Lia Bool Arith PeanoNat.
Import ListNotations.
Open Scope string_scope.
Open Scope Z_scope.

(* ================================================================== *)
(** ** JavaScript string helpers *)

Module Js.

Fixpoint chars (s : string) : list ascii :=
  match s with
  | EmptyString => []
  | String c r => c :: chars r
  end.

Fixpoint ofChars (l : list ascii) : string :=
  match l with
  | [] => EmptyString
  | c :: r => String c (ofChars r)
  end.

Definition code (c : ascii) : nat := nat_of_ascii c.

(** One-byte white space: TAB, LF, VT, FF, CR and SPACE. *)
Definition ws1 (a : ascii) : bool :=
  let n := code a in
  ((9 <=? n) && (n <=? 13) || (n =? 32))%nat.

(** Two-byte white space: U+00A0. *)
Definition ws2 (a b : ascii) : bool :=
  ((code a =? 194) && (code b =? 160))%nat.

(** Three-byte white space: U+1680, U+2000..U+200A, U+2028, U+2029,
    U+202F, U+205F, U+3000 and U+FEFF. *)
Definition ws3 (a b c : ascii) : bool :=
  let x := code a in let y := code b in let z := code c in
  ((x =? 225) && (y =? 154) && (z =? 128)
   || (x =? 226) && (y =? 128)
        && ((128 <=? z) && (z <=? 138) || (z =? 168) || (z =? 169) || (z =? 175))
   || (x =? 226) && (y =? 129) && (z =? 159)
   || (x =? 227) && (y =? 128) && (z =? 128)
   || (x =? 239) && (y =? 187) && (z =? 191))%nat.

(** Strips leading white space.  With [back] set the list is a reversed
    string and multi-byte characters are recognised last byte first. *)
Fixpoint strip (back : bool) (l : list ascii) : list ascii :=
  match l with
  | [] => []
  | a :: r =>
    if ws1 a then strip back r else
    match r with
    | [] => l
    | b :: r2 =>
      if (if back then ws2 b a else ws2 a b) then strip back r2 else
      match r2 with
      | [] => l
      | c :: r3 =>
        if (if back then ws3 c b a else ws3 a b c) then strip back r3 else l
      end
    end
  end.

(** [String.prototype.trim]. *)
Definition trim (s : string) : string :=
  ofChars (rev (strip true (rev (strip false (chars s))))).

(** [s.split(',')]: the pieces between commas, at least one piece. *)
Fixpoint splitComma (s : string) : list string :=
  match s with
  | EmptyString => [EmptyString]
  | String c r =>
    if Ascii.eqb c ","%char then EmptyString :: splitComma r
    else match splitComma r with
         | [] => [String c EmptyString]
         | p :: ps => String c p :: ps
         end
  end.

(** Truthiness of a string: non-empty. *)
Definition truthy (s : string) : bool :=
  match s with EmptyString => false | _ => true end.

(** [a || b] on strings. *)
Definition orElse (a b : string) : string := if truthy a then a else b.

(** [String.prototype.toUpperCase] restricted to the ASCII letters; the
    full function is a parameter of the host. *)
Definition upperChar (c : ascii) : ascii :=
  let n := code c in
  if ((97 <=? n) && (n <=? 122))%nat then ascii_of_nat (n - 32) else c.

Definition asciiUpper (s : string) : string := ofChars (map upperChar (chars s)).

(** [String(n)] for an integer. *)
Definition digit (n : nat) : string := String (ascii_of_nat (48 + n)) EmptyString.

Fixpoint digits (fuel n : nat) (acc : string) : string :=
  match fuel with
  | O => acc
  | S f =>
    let acc' := digit (n mod 10) ++ acc in
    if (n / 10 =? 0)%nat then acc' else digits f (n / 10) acc'
  end.

Definition ofZ (z : Z) : string :=
  let n := Z.to_nat (Z.abs z) in
  (if z <? 0 then "-" else EmptyString) ++ digits (S n) n EmptyString.

(** Substring test, for statements about what a message mentions. *)
Fixpoint isPrefix (p s : string) : bool :=
  match p, s with
  | EmptyString, _ => true
  | String a p', String b s' => Ascii.eqb a b && isPrefix p' s'
  | _, _ => false
  end.

Fixpoint includes (s p : string) : bool :=
  isPrefix p s ||
  match s with
  | EmptyString => false
  | String _ r => includes r p
  end.

(** The integers that are JavaScript numbers: at most 53 significant
    bits, and below [2^1024] in magnitude. *)
Definition isNumber (z : Z) : bool :=
  let a := Z.abs z in
  (a <? 2 ^ 1024) && (a mod 2 ^ Z.max 0 (Z.log2 a - 52) =? 0).

End Js.

(* ================================================================== *)
(** ** Data model *)

(** A [BluetoothDevice] as far as the script looks at it; an absent name is
    the empty string ([dev.name || '']). *)
Record Device := { dev_id : string; dev_name : string }.

(** A GATT characteristic, identified by the device that serves it. *)
Record Characteristic := { ch_device : string; ch_uuid : string }.

(** A value of the [known] map. *)
Record Entry := { ent_id : string; ent_name : string; ent_device : Device }.

(** Values that are thrown or that reject a promise: [Error]-like objects
    with a name and a message, or plain strings. *)
Inductive Thrown :=
| ErrObj (name message : string)
| StrVal (text : string).

(** [new Error(msg)]. *)
Definition newError (msg : string) : Thrown := ErrObj "Error" msg.

(** Calls made on the transport, in the order they are issued. *)
Inductive Call :=
| TRequest (acceptAll : bool)
| TConnect (id : string)
| TDisconnect (id : string)
| TGetService (id uuid : string)
| TGetChar (id uuid : string)
| TStartNotify (id : string)
| TWrite (ch : Characteristic) (data : string).

Definition NUS_SERVICE := "6e400001-b5a3-f393-e0a9-e50e24dcca9e".
Definition NUS_RX_CHAR := "6e400002-b5a3-f393-e0a9-e50e24dcca9e".
Definition NUS_TX_CHAR := "6e400003-b5a3-f393-e0a9-e50e24dcca9e".

Definition backoffMax : Z := 15000.
Definition QUEUE_MAX : nat := 20.

(** The module-level variables, followed by the state of the transport:
    [live] lists the devices whose [gatt.connected] is true, [log] the
    calls made so far, [tick] counts the promises awaited. *)
Record Sys := {
  device : option Device;
  server : option string;
  rxChar : option Characteristic;
  txChar : option Characteristic;
  connected : bool;
  connecting : bool;
  wantReconnect : bool;
  deviceName : string;
  deviceId : string;
  known : list (string * Entry);
  lastStateText : string;
  lastStateNum : Z;
  prevStateNum : Z;
  lastError : string;
  edgeOn : bool;
  edgeOff : bool;
  edgeConnected : bool;
  edgeDisconnected : bool;
  prevConnected : bool;
  backoffMs : Z;
  reconnectTimer : option Z;
  pollIntervalMs : Z;
  pollTimer : option Z;
  sendQueue : list string;
  live : list string;
  log : list Call;
  tick : nat
}.

(** The values the script gives its variables when it is loaded. *)
Definition initial : Sys :=
  {| device := None; server := None; rxChar := None; txChar := None;
     connected := false; connecting := false; wantReconnect := false;
     deviceName := EmptyString; deviceId := EmptyString; known := [];
     lastStateText := EmptyString; lastStateNum := 0; prevStateNum := 0; lastError := EmptyString;
     edgeOn := false; edgeOff := false; edgeConnected := false;
     edgeDisconnected := false; prevConnected := false;
     backoffMs := 1000; reconnectTimer := None; pollIntervalMs := 0; pollTimer := None;
     sendQueue := []; live := []; log := []; tick := 0%nat |}.

(** Assignment to one variable. *)

Definition set_device (v : option Device) (s : Sys) : Sys :=
  {| device := v; server := server s; rxChar := rxChar s; txChar := txChar s; connected := connected
     s; connecting := connecting s; wantReconnect := wantReconnect s; deviceName := deviceName s;
     deviceId := deviceId s; known := known s; lastStateText := lastStateText s; lastStateNum :=
     lastStateNum s; prevStateNum := prevStateNum s; lastError := lastError s; edgeOn := edgeOn s;
     edgeOff := edgeOff s; edgeConnected := edgeConnected s; edgeDisconnected := edgeDisconnected s;
     prevConnected := prevConnected s; backoffMs := backoffMs s; reconnectTimer := reconnectTimer s;
     pollIntervalMs := pollIntervalMs s; pollTimer := pollTimer s; sendQueue := sendQueue s; live :=
     live s; log := log s; tick := tick s |}.

Definition set_server (v : option string) (s : Sys) : Sys :=
  {| device := device s; server := v; rxChar := rxChar s; txChar := txChar s; connected := connected
     s; connecting := connecting s; wantReconnect := wantReconnect s; deviceName := deviceName s;
     deviceId := deviceId s; known := known s; lastStateText := lastStateText s; lastStateNum :=
     lastStateNum s; prevStateNum := prevStateNum s; lastError := lastError s; edgeOn := edgeOn s;
     edgeOff := edgeOff s; edgeConnected := edgeConnected s; edgeDisconnected := edgeDisconnected s;
     prevConnected := prevConnected s; backoffMs := backoffMs s; reconnectTimer := reconnectTimer s;
     pollIntervalMs := pollIntervalMs s; pollTimer := pollTimer s; sendQueue := sendQueue s; live :=
     live s; log := log s; tick := tick s |}.

Definition set_rxChar (v : option Characteristic) (s : Sys) : Sys :=
  {| device := device s; server := server s; rxChar := v; txChar := txChar s; connected := connected
     s; connecting := connecting s; wantReconnect := wantReconnect s; deviceName := deviceName s;
     deviceId := deviceId s; known := known s; lastStateText := lastStateText s; lastStateNum :=
     lastStateNum s; prevStateNum := prevStateNum s; lastError := lastError s; edgeOn := edgeOn s;
     edgeOff := edgeOff s; edgeConnected := edgeConnected s; edgeDisconnected := edgeDisconnected s;
     prevConnected := prevConnected s; backoffMs := backoffMs s; reconnectTimer := reconnectTimer s;
     pollIntervalMs := pollIntervalMs s; pollTimer := pollTimer s; sendQueue := sendQueue s; live :=
     live s; log := log s; tick := tick s |}.

Definition set_txChar (v : option Characteristic) (s : Sys) : Sys :=
  {| device := device s; server := server s; rxChar := rxChar s; txChar := v; connected := connected
     s; connecting := connecting s; wantReconnect := wantReconnect s; deviceName := deviceName s;
     deviceId := deviceId s; known := known s; lastStateText := lastStateText s; lastStateNum :=
     lastStateNum s; prevStateNum := prevStateNum s; lastError := lastError s; edgeOn := edgeOn s;
     edgeOff := edgeOff s; edgeConnected := edgeConnected s; edgeDisconnected := edgeDisconnected s;
     prevConnected := prevConnected s; backoffMs := backoffMs s; reconnectTimer := reconnectTimer s;
     pollIntervalMs := pollIntervalMs s; pollTimer := pollTimer s; sendQueue := sendQueue s; live :=
     live s; log := log s; tick := tick s |}.

Definition set_connected (v : bool) (s : Sys) : Sys :=
  {| device := device s; server := server s; rxChar := rxChar s; txChar := txChar s; connected := v;
     connecting := connecting s; wantReconnect := wantReconnect s; deviceName := deviceName s;
     deviceId := deviceId s; known := known s; lastStateText := lastStateText s; lastStateNum :=
     lastStateNum s; prevStateNum := prevStateNum s; lastError := lastError s; edgeOn := edgeOn s;
     edgeOff := edgeOff s; edgeConnected := edgeConnected s; edgeDisconnected := edgeDisconnected s;
     prevConnected := prevConnected s; backoffMs := backoffMs s; reconnectTimer := reconnectTimer s;
     pollIntervalMs := pollIntervalMs s; pollTimer := pollTimer s; sendQueue := sendQueue s; live :=
     live s; log := log s; tick := tick s |}.

Definition set_connecting (v : bool) (s : Sys) : Sys :=
  {| device := device s; server := server s; rxChar := rxChar s; txChar := txChar s; connected :=
     connected s; connecting := v; wantReconnect := wantReconnect s; deviceName := deviceName s;
     deviceId := deviceId s; known := known s; lastStateText := lastStateText s; lastStateNum :=
     lastStateNum s; prevStateNum := prevStateNum s; lastError := lastError s; edgeOn := edgeOn s;
     edgeOff := edgeOff s; edgeConnected := edgeConnected s; edgeDisconnected := edgeDisconnected s;
     prevConnected := prevConnected s; backoffMs := backoffMs s; reconnectTimer := reconnectTimer s;
     pollIntervalMs := pollIntervalMs s; pollTimer := pollTimer s; sendQueue := sendQueue s; live :=
     live s; log := log s; tick := tick s |}.

Definition set_wantReconnect (v : bool) (s : Sys) : Sys :=
  {| device := device s; server := server s; rxChar := rxChar s; txChar := txChar s; connected :=
     connected s; connecting := connecting s; wantReconnect := v; deviceName := deviceName s;
     deviceId := deviceId s; known := known s; lastStateText := lastStateText s; lastStateNum :=
     lastStateNum s; prevStateNum := prevStateNum s; lastError := lastError s; edgeOn := edgeOn s;
     edgeOff := edgeOff s; edgeConnected := edgeConnected s; edgeDisconnected := edgeDisconnected s;
     prevConnected := prevConnected s; backoffMs := backoffMs s; reconnectTimer := reconnectTimer s;
     pollIntervalMs := pollIntervalMs s; pollTimer := pollTimer s; sendQueue := sendQueue s; live :=
     live s; log := log s; tick := tick s |}.

Definition set_deviceName (v : string) (s : Sys) : Sys :=
  {| device := device s; server := server s; rxChar := rxChar s; txChar := txChar s; connected :=
     connected s; connecting := connecting s; wantReconnect := wantReconnect s; deviceName := v;
     deviceId := deviceId s; known := known s; lastStateText := lastStateText s; lastStateNum :=
     lastStateNum s; prevStateNum := prevStateNum s; lastError := lastError s; edgeOn := edgeOn s;
     edgeOff := edgeOff s; edgeConnected := edgeConnected s; edgeDisconnected := edgeDisconnected s;
     prevConnected := prevConnected s; backoffMs := backoffMs s; reconnectTimer := reconnectTimer s;
     pollIntervalMs := pollIntervalMs s; pollTimer := pollTimer s; sendQueue := sendQueue s; live :=
     live s; log := log s; tick := tick s |}.

Definition set_deviceId (v : string) (s : Sys) : Sys :=
  {| device := device s; server := server s; rxChar := rxChar s; txChar := txChar s; connected :=
     connected s; connecting := connecting s; wantReconnect := wantReconnect s; deviceName :=
     deviceName s; deviceId := v; known := known s; lastStateText := lastStateText s; lastStateNum
     := lastStateNum s; prevStateNum := prevStateNum s; lastError := lastError s; edgeOn := edgeOn
     s; edgeOff := edgeOff s; edgeConnected := edgeConnected s; edgeDisconnected := edgeDisconnected
     s; prevConnected := prevConnected s; backoffMs := backoffMs s; reconnectTimer := reconnectTimer
     s; pollIntervalMs := pollIntervalMs s; pollTimer := pollTimer s; sendQueue := sendQueue s; live
     := live s; log := log s; tick := tick s |}.

Definition set_known (v : list (string * Entry)) (s : Sys) : Sys :=
  {| device := device s; server := server s; rxChar := rxChar s; txChar := txChar s; connected :=
     connected s; connecting := connecting s; wantReconnect := wantReconnect s; deviceName :=
     deviceName s; deviceId := deviceId s; known := v; lastStateText := lastStateText s;
     lastStateNum := lastStateNum s; prevStateNum := prevStateNum s; lastError := lastError s;
     edgeOn := edgeOn s; edgeOff := edgeOff s; edgeConnected := edgeConnected s; edgeDisconnected :=
     edgeDisconnected s; prevConnected := prevConnected s; backoffMs := backoffMs s; reconnectTimer
     := reconnectTimer s; pollIntervalMs := pollIntervalMs s; pollTimer := pollTimer s; sendQueue :=
     sendQueue s; live := live s; log := log s; tick := tick s |}.

Definition set_lastStateText (v : string) (s : Sys) : Sys :=
  {| device := device s; server := server s; rxChar := rxChar s; txChar := txChar s; connected :=
     connected s; connecting := connecting s; wantReconnect := wantReconnect s; deviceName :=
     deviceName s; deviceId := deviceId s; known := known s; lastStateText := v; lastStateNum :=
     lastStateNum s; prevStateNum := prevStateNum s; lastError := lastError s; edgeOn := edgeOn s;
     edgeOff := edgeOff s; edgeConnected := edgeConnected s; edgeDisconnected := edgeDisconnected s;
     prevConnected := prevConnected s; backoffMs := backoffMs s; reconnectTimer := reconnectTimer s;
     pollIntervalMs := pollIntervalMs s; pollTimer := pollTimer s; sendQueue := sendQueue s; live :=
     live s; log := log s; tick := tick s |}.

Definition set_lastStateNum (v : Z) (s : Sys) : Sys :=
  {| device := device s; server := server s; rxChar := rxChar s; txChar := txChar s; connected :=
     connected s; connecting := connecting s; wantReconnect := wantReconnect s; deviceName :=
     deviceName s; deviceId := deviceId s; known := known s; lastStateText := lastStateText s;
     lastStateNum := v; prevStateNum := prevStateNum s; lastError := lastError s; edgeOn := edgeOn
     s; edgeOff := edgeOff s; edgeConnected := edgeConnected s; edgeDisconnected := edgeDisconnected
     s; prevConnected := prevConnected s; backoffMs := backoffMs s; reconnectTimer := reconnectTimer
     s; pollIntervalMs := pollIntervalMs s; pollTimer := pollTimer s; sendQueue := sendQueue s; live
     := live s; log := log s; tick := tick s |}.

Definition set_prevStateNum (v : Z) (s : Sys) : Sys :=
  {| device := device s; server := server s; rxChar := rxChar s; txChar := txChar s; connected :=
     connected s; connecting := connecting s; wantReconnect := wantReconnect s; deviceName :=
     deviceName s; deviceId := deviceId s; known := known s; lastStateText := lastStateText s;
     lastStateNum := lastStateNum s; prevStateNum := v; lastError := lastError s; edgeOn := edgeOn
     s; edgeOff := edgeOff s; edgeConnected := edgeConnected s; edgeDisconnected := edgeDisconnected
     s; prevConnected := prevConnected s; backoffMs := backoffMs s; reconnectTimer := reconnectTimer
     s; pollIntervalMs := pollIntervalMs s; pollTimer := pollTimer s; sendQueue := sendQueue s; live
     := live s; log := log s; tick := tick s |}.

Definition set_lastError (v : string) (s : Sys) : Sys :=
  {| device := device s; server := server s; rxChar := rxChar s; txChar := txChar s; connected :=
     connected s; connecting := connecting s; wantReconnect := wantReconnect s; deviceName :=
     deviceName s; deviceId := deviceId s; known := known s; lastStateText := lastStateText s;
     lastStateNum := lastStateNum s; prevStateNum := prevStateNum s; lastError := v; edgeOn :=
     edgeOn s; edgeOff := edgeOff s; edgeConnected := edgeConnected s; edgeDisconnected :=
     edgeDisconnected s; prevConnected := prevConnected s; backoffMs := backoffMs s; reconnectTimer
     := reconnectTimer s; pollIntervalMs := pollIntervalMs s; pollTimer := pollTimer s; sendQueue :=
     sendQueue s; live := live s; log := log s; tick := tick s |}.

Definition set_edgeOn (v : bool) (s : Sys) : Sys :=
  {| device := device s; server := server s; rxChar := rxChar s; txChar := txChar s; connected :=
     connected s; connecting := connecting s; wantReconnect := wantReconnect s; deviceName :=
     deviceName s; deviceId := deviceId s; known := known s; lastStateText := lastStateText s;
     lastStateNum := lastStateNum s; prevStateNum := prevStateNum s; lastError := lastError s;
     edgeOn := v; edgeOff := edgeOff s; edgeConnected := edgeConnected s; edgeDisconnected :=
     edgeDisconnected s; prevConnected := prevConnected s; backoffMs := backoffMs s; reconnectTimer
     := reconnectTimer s; pollIntervalMs := pollIntervalMs s; pollTimer := pollTimer s; sendQueue :=
     sendQueue s; live := live s; log := log s; tick := tick s |}.

Definition set_edgeOff (v : bool) (s : Sys) : Sys :=
  {| device := device s; server := server s; rxChar := rxChar s; txChar := txChar s; connected :=
     connected s; connecting := connecting s; wantReconnect := wantReconnect s; deviceName :=
     deviceName s; deviceId := deviceId s; known := known s; lastStateText := lastStateText s;
     lastStateNum := lastStateNum s; prevStateNum := prevStateNum s; lastError := lastError s;
     edgeOn := edgeOn s; edgeOff := v; edgeConnected := edgeConnected s; edgeDisconnected :=
     edgeDisconnected s; prevConnected := prevConnected s; backoffMs := backoffMs s; reconnectTimer
     := reconnectTimer s; pollIntervalMs := pollIntervalMs s; pollTimer := pollTimer s; sendQueue :=
     sendQueue s; live := live s; log := log s; tick := tick s |}.

Definition set_edgeConnected (v : bool) (s : Sys) : Sys :=
  {| device := device s; server := server s; rxChar := rxChar s; txChar := txChar s; connected :=
     connected s; connecting := connecting s; wantReconnect := wantReconnect s; deviceName :=
     deviceName s; deviceId := deviceId s; known := known s; lastStateText := lastStateText s;
     lastStateNum := lastStateNum s; prevStateNum := prevStateNum s; lastError := lastError s;
     edgeOn := edgeOn s; edgeOff := edgeOff s; edgeConnected := v; edgeDisconnected :=
     edgeDisconnected s; prevConnected := prevConnected s; backoffMs := backoffMs s; reconnectTimer
     := reconnectTimer s; pollIntervalMs := pollIntervalMs s; pollTimer := pollTimer s; sendQueue :=
     sendQueue s; live := live s; log := log s; tick := tick s |}.

Definition set_edgeDisconnected (v : bool) (s : Sys) : Sys :=
  {| device := device s; server := server s; rxChar := rxChar s; txChar := txChar s; connected :=
     connected s; connecting := connecting s; wantReconnect := wantReconnect s; deviceName :=
     deviceName s; deviceId := deviceId s; known := known s; lastStateText := lastStateText s;
     lastStateNum := lastStateNum s; prevStateNum := prevStateNum s; lastError := lastError s;
     edgeOn := edgeOn s; edgeOff := edgeOff s; edgeConnected := edgeConnected s; edgeDisconnected :=
     v; prevConnected := prevConnected s; backoffMs := backoffMs s; reconnectTimer := reconnectTimer
     s; pollIntervalMs := pollIntervalMs s; pollTimer := pollTimer s; sendQueue := sendQueue s; live
     := live s; log := log s; tick := tick s |}.

Definition set_prevConnected (v : bool) (s : Sys) : Sys :=
  {| device := device s; server := server s; rxChar := rxChar s; txChar := txChar s; connected :=
     connected s; connecting := connecting s; wantReconnect := wantReconnect s; deviceName :=
     deviceName s; deviceId := deviceId s; known := known s; lastStateText := lastStateText s;
     lastStateNum := lastStateNum s; prevStateNum := prevStateNum s; lastError := lastError s;
     edgeOn := edgeOn s; edgeOff := edgeOff s; edgeConnected := edgeConnected s; edgeDisconnected :=
     edgeDisconnected s; prevConnected := v; backoffMs := backoffMs s; reconnectTimer :=
     reconnectTimer s; pollIntervalMs := pollIntervalMs s; pollTimer := pollTimer s; sendQueue :=
     sendQueue s; live := live s; log := log s; tick := tick s |}.

Definition set_backoffMs (v : Z) (s : Sys) : Sys :=
  {| device := device s; server := server s; rxChar := rxChar s; txChar := txChar s; connected :=
     connected s; connecting := connecting s; wantReconnect := wantReconnect s; deviceName :=
     deviceName s; deviceId := deviceId s; known := known s; lastStateText := lastStateText s;
     lastStateNum := lastStateNum s; prevStateNum := prevStateNum s; lastError := lastError s;
     edgeOn := edgeOn s; edgeOff := edgeOff s; edgeConnected := edgeConnected s; edgeDisconnected :=
     edgeDisconnected s; prevConnected := prevConnected s; backoffMs := v; reconnectTimer :=
     reconnectTimer s; pollIntervalMs := pollIntervalMs s; pollTimer := pollTimer s; sendQueue :=
     sendQueue s; live := live s; log := log s; tick := tick s |}.

Definition set_reconnectTimer (v : option Z) (s : Sys) : Sys :=
  {| device := device s; server := server s; rxChar := rxChar s; txChar := txChar s; connected :=
     connected s; connecting := connecting s; wantReconnect := wantReconnect s; deviceName :=
     deviceName s; deviceId := deviceId s; known := known s; lastStateText := lastStateText s;
     lastStateNum := lastStateNum s; prevStateNum := prevStateNum s; lastError := lastError s;
     edgeOn := edgeOn s; edgeOff := edgeOff s; edgeConnected := edgeConnected s; edgeDisconnected :=
     edgeDisconnected s; prevConnected := prevConnected s; backoffMs := backoffMs s; reconnectTimer
     := v; pollIntervalMs := pollIntervalMs s; pollTimer := pollTimer s; sendQueue := sendQueue s;
     live := live s; log := log s; tick := tick s |}.

Definition set_pollIntervalMs (v : Z) (s : Sys) : Sys :=
  {| device := device s; server := server s; rxChar := rxChar s; txChar := txChar s; connected :=
     connected s; connecting := connecting s; wantReconnect := wantReconnect s; deviceName :=
     deviceName s; deviceId := deviceId s; known := known s; lastStateText := lastStateText s;
     lastStateNum := lastStateNum s; prevStateNum := prevStateNum s; lastError := lastError s;
     edgeOn := edgeOn s; edgeOff := edgeOff s; edgeConnected := edgeConnected s; edgeDisconnected :=
     edgeDisconnected s; prevConnected := prevConnected s; backoffMs := backoffMs s; reconnectTimer
     := reconnectTimer s; pollIntervalMs := v; pollTimer := pollTimer s; sendQueue := sendQueue s;
     live := live s; log := log s; tick := tick s |}.

Definition set_pollTimer (v : option Z) (s : Sys) : Sys :=
  {| device := device s; server := server s; rxChar := rxChar s; txChar := txChar s; connected :=
     connected s; connecting := connecting s; wantReconnect := wantReconnect s; deviceName :=
     deviceName s; deviceId := deviceId s; known := known s; lastStateText := lastStateText s;
     lastStateNum := lastStateNum s; prevStateNum := prevStateNum s; lastError := lastError s;
     edgeOn := edgeOn s; edgeOff := edgeOff s; edgeConnected := edgeConnected s; edgeDisconnected :=
     edgeDisconnected s; prevConnected := prevConnected s; backoffMs := backoffMs s; reconnectTimer
     := reconnectTimer s; pollIntervalMs := pollIntervalMs s; pollTimer := v; sendQueue := sendQueue
     s; live := live s; log := log s; tick := tick s |}.

Definition set_sendQueue (v : list string) (s : Sys) : Sys :=
  {| device := device s; server := server s; rxChar := rxChar s; txChar := txChar s; connected :=
     connected s; connecting := connecting s; wantReconnect := wantReconnect s; deviceName :=
     deviceName s; deviceId := deviceId s; known := known s; lastStateText := lastStateText s;
     lastStateNum := lastStateNum s; prevStateNum := prevStateNum s; lastError := lastError s;
     edgeOn := edgeOn s; edgeOff := edgeOff s; edgeConnected := edgeConnected s; edgeDisconnected :=
     edgeDisconnected s; prevConnected := prevConnected s; backoffMs := backoffMs s; reconnectTimer
     := reconnectTimer s; pollIntervalMs := pollIntervalMs s; pollTimer := pollTimer s; sendQueue :=
     v; live := live s; log := log s; tick := tick s |}.

Definition set_live (v : list string) (s : Sys) : Sys :=
  {| device := device s; server := server s; rxChar := rxChar s; txChar := txChar s; connected :=
     connected s; connecting := connecting s; wantReconnect := wantReconnect s; deviceName :=
     deviceName s; deviceId := deviceId s; known := known s; lastStateText := lastStateText s;
     lastStateNum := lastStateNum s; prevStateNum := prevStateNum s; lastError := lastError s;
     edgeOn := edgeOn s; edgeOff := edgeOff s; edgeConnected := edgeConnected s; edgeDisconnected :=
     edgeDisconnected s; prevConnected := prevConnected s; backoffMs := backoffMs s; reconnectTimer
     := reconnectTimer s; pollIntervalMs := pollIntervalMs s; pollTimer := pollTimer s; sendQueue :=
     sendQueue s; live := v; log := log s; tick := tick s |}.

Definition set_log (v : list Call) (s : Sys) : Sys :=
  {| device := device s; server := server s; rxChar := rxChar s; txChar := txChar s; connected :=
     connected s; connecting := connecting s; wantReconnect := wantReconnect s; deviceName :=
     deviceName s; deviceId := deviceId s; known := known s; lastStateText := lastStateText s;
     lastStateNum := lastStateNum s; prevStateNum := prevStateNum s; lastError := lastError s;
     edgeOn := edgeOn s; edgeOff := edgeOff s; edgeConnected := edgeConnected s; edgeDisconnected :=
     edgeDisconnected s; prevConnected := prevConnected s; backoffMs := backoffMs s; reconnectTimer
     := reconnectTimer s; pollIntervalMs := pollIntervalMs s; pollTimer := pollTimer s; sendQueue :=
     sendQueue s; live := live s; log := v; tick := tick s |}.

Definition set_tick (v : nat) (s : Sys) : Sys :=
  {| device := device s; server := server s; rxChar := rxChar s; txChar := txChar s; connected :=
     connected s; connecting := connecting s; wantReconnect := wantReconnect s; deviceName :=
     deviceName s; deviceId := deviceId s; known := known s; lastStateText := lastStateText s;
     lastStateNum := lastStateNum s; prevStateNum := prevStateNum s; lastError := lastError s;
     edgeOn := edgeOn s; edgeOff := edgeOff s; edgeConnected := edgeConnected s; edgeDisconnected :=
     edgeDisconnected s; prevConnected := prevConnected s; backoffMs := backoffMs s; reconnectTimer
     := reconnectTimer s; pollIntervalMs := pollIntervalMs s; pollTimer := pollTimer s; sendQueue :=
     sendQueue s; live := live s; log := log s; tick := v |}.

(* ================================================================== *)
(** ** The [known] map

    A JavaScript [Map] keeps its keys in insertion order; [set] on a key
    that is present replaces the value where it stands. *)

Module KnownMap.

Definition t := list (string * Entry).

Fixpoint get (id : string) (m : t) : option Entry :=
  match m with
  | [] => None
  | (k, v) :: r => if String.eqb k id then Some v else get id r
  end.

Fixpoint set (id : string) (v : Entry) (m : t) : t :=
  match m with
  | [] => [(id, v)]
  | (k, w) :: r => if String.eqb k id then (k, v) :: r else (k, w) :: set id v r
  end.

Definition delete (id : string) (m : t) : t :=
  filter (fun kv => negb (String.eqb (fst kv) id)) m.

Definition keys (m : t) : list string := map fst m.
Definition values (m : t) : list Entry := map snd m.

End KnownMap.

(* ================================================================== *)
(** ** Computations *)

(** How a call ends: it returns, it throws, or it never comes back. *)
Inductive Res (A : Type) :=
| Ret (a : A)
| Throw (e : Thrown)
| Hang.

Arguments Ret {A} a.
Arguments Throw {A} e.
Arguments Hang {A}.

Definition M (A : Type) : Type := Sys -> Res A * Sys.

Definition ret {A} (a : A) : M A := fun s => (Ret a, s).

Definition throw {A} (e : Thrown) : M A := fun s => (Throw e, s).

Definition bind {A B} (m : M A) (f : A -> M B) : M B :=
  fun s =>
    match m s with
    | (Ret a, s') => f a s'
    | (Throw e, s') => (Throw e, s')
    | (Hang, s') => (Hang, s')
    end.

(** [try { m } catch (e) { h e }]. *)
Definition tryCatch {A} (m : M A) (h : Thrown -> M A) : M A :=
  fun s =>
    match m s with
    | (Throw e, s') => h e s'
    | r => r
    end.

(** [try { m } finally { fin }] for a [finally] block that only assigns. *)
Definition tryFinally {A} (m : M A) (fin : Sys -> Sys) : M A :=
  fun s =>
    match m s with
    | (Hang, s') => (Hang, s')
    | (r, s') => (r, fin s')
    end.

(** [try { m } catch (e) { ... }] seen from the statement that follows it:
    the value returned, or the value caught. *)
Definition attempt {A} (m : M A) : M (Thrown + A) :=
  fun s =>
    match m s with
    | (Ret a, s') => (Ret (inr a), s')
    | (Throw e, s') => (Ret (inl e), s')
    | (Hang, s') => (Hang, s')
    end.

(** A loop that has used up its bound. *)
Definition hang {A} : M A := fun s => (Hang, s).

Definition gets {A} (f : Sys -> A) : M A := fun s => (Ret (f s), s).

Definition modify (f : Sys -> Sys) : M unit := fun s => (Ret tt, f s).

Declare Scope js_scope.
Delimit Scope js_scope with js.
Notation "x <- m ;; k" := (bind m (fun x => k))
  (at level 61, m at next level, right associativity) : js_scope.
Notation "m ;; k" := (bind m (fun _ => k))
  (at level 61, right associativity) : js_scope.
Open Scope js_scope.

Definition when (b : bool) (m : M unit) : M unit := if b then m else ret tt.

(** [for (const x of l) { body x }]. *)
Fixpoint forEach {A} (l : list A) (body : A -> M unit) : M unit :=
  match l with
  | [] => ret tt
  | x :: r => body x ;; forEach r body
  end.

(** What the script reads off a caught value. *)
Definition message (e : Thrown) : string :=
  match e with
  | ErrObj _ m => m
  | StrVal _ => EmptyString
  end.

(** [String(e)]: [Error.prototype.toString] for objects. *)
Definition toStr (e : Thrown) : string :=
  match e with
  | ErrObj n m =>
    if negb (Js.truthy n) then m
    else if negb (Js.truthy m) then n
    else n ++ ": " ++ m
  | StrVal t => t
  end.

(** [e.message || e] turned into a string, which is also what
    [(e && e.message) ? e.message : String(e || '')] gives. *)
Definition errorText (e : Thrown) : string :=
  if Js.truthy (message e) then message e else toStr e.

(** The host: what each awaited transport promise does, which device the
    chooser hands back, and the platform's [toUpperCase]. *)
Record Host := {
  ioReply : nat -> option Thrown;
  pickReply : nat -> Thrown + Device;
  toUpperCase : string -> string
}.

Section Program.

Variable host : Host.

(** *** Transport *)

Definition record (c : Call) : M unit :=
  modify (fun s => set_log (log s ++ [c]) s).

(** Awaiting a transport promise: it resolves or rejects as the host says. *)
Definition awaitIo : M unit :=
  fun s =>
    let s' := set_tick (S (tick s)) s in
    match ioReply host (tick s) with
    | Some e => (Throw e, s')
    | None => (Ret tt, s')
    end.

(** [navigator.bluetooth.requestDevice(...)]. *)
Definition requestDevice (acceptAll : bool) : M Device :=
  record (TRequest acceptAll) ;;
  fun s =>
    let s' := set_tick (S (tick s)) s in
    match pickReply host (tick s) with
    | inl e => (Throw e, s')
    | inr d => (Ret d, s')
    end.

(** [dev.gatt.connected]. *)
Definition isLive (d : Device) (s : Sys) : bool :=
  existsb (String.eqb (dev_id d)) (live s).

Definition gattConnected (d : Device) : M bool := gets (isLive d).

(** [dev.gatt.connect()]: the call, then the settlement of its promise. *)
Definition gattConnectCall (d : Device) : M unit := record (TConnect (dev_id d)).

Definition gattConnectSettle (d : Device) : M string :=
  awaitIo ;;
  modify (fun s => set_live (dev_id d :: live s) s) ;;
  ret (dev_id d).

(** [dev.gatt.disconnect()]. *)
Definition gattDisconnect (d : Device) : M unit :=
  record (TDisconnect (dev_id d)) ;;
  modify (fun s =>
    set_live (filter (fun i => negb (String.eqb i (dev_id d))) (live s)) s).

(** [ch.writeValue(data)]. *)
Definition writeValue (ch : Characteristic) (data : string) : M unit :=
  record (TWrite ch data) ;; awaitIo.

(** *** Errors, polling, reconnect timer *)

Definition setError (e : Thrown) : M unit :=
  modify (set_lastError (errorText e)).

Definition clearError : M unit := modify (set_lastError EmptyString).

Definition stopPolling : M unit :=
  t <- gets pollTimer ;;
  match t with
  | Some _ => modify (set_pollTimer None)
  | None => ret tt
  end.

Definition startPolling : M unit :=
  stopPolling ;;
  ms <- gets pollIntervalMs ;;
  c <- gets connected ;;
  when ((0 <? ms) && c) (modify (set_pollTimer (Some ms))).

Definition stopReconnectTimer : M unit :=
  t <- gets reconnectTimer ;;
  match t with
  | Some _ => modify (set_reconnectTimer None)
  | None => ret tt
  end.

(** The timer remembers the delay it was set with. *)
Definition scheduleReconnect : M unit :=
  w <- gets wantReconnect ;;
  if negb w then ret tt
  else
    t <- gets reconnectTimer ;;
    match t with
    | Some _ => ret tt
    | None => ms <- gets backoffMs ;; modify (set_reconnectTimer (Some ms))
    end.

(** *** Sending *)

Definition notConnected : Thrown := newError "未接続です".

(** The branch of [sendAscii] that queues the token. *)
Definition enqueue (str : string) : M unit :=
  q <- gets sendQueue ;;
  when (QUEUE_MAX <=? length q)%nat
       (modify (fun s => set_sendQueue (tl (sendQueue s)) s)) ;;
  modify (fun s => set_sendQueue (sendQueue s ++ [str]) s) ;;
  scheduleReconnect ;;
  ret tt.

Definition sendAscii (str : string) : M unit :=
  c <- gets connected ;;
  rx <- gets rxChar ;;
  match c, rx with
  | true, Some ch => writeValue ch str
  | _, _ =>
    w <- gets wantReconnect ;;
    if w then enqueue str else throw notConnected
  end.

Definition readState : M unit := sendAscii "s".

(** *** Connection set-up *)

(** The [while (sendQueue.length && connected)] loop of [onConnected];
    [fuel] bounds the number of iterations. *)
Fixpoint drain (fuel : nat) : M unit :=
  match fuel with
  | O => hang
  | S fuel' =>
    q <- gets sendQueue ;;
    c <- gets connected ;;
    match q with
    | [] => ret tt
    | tok :: rest =>
      if c then
        modify (set_sendQueue rest) ;;
        r <- attempt (sendAscii tok) ;;
        match r with
        | inr _ => drain fuel'
        | inl e => setError e
        end
      else ret tt
    end
  end.

(** The statements of [onConnected] that come before its loop. *)
Definition markConnected : M unit :=
  modify (set_connected true) ;;
  modify (set_connecting false) ;;
  modify (set_backoffMs 1000) ;;
  clearError ;;
  pc <- gets prevConnected ;;
  when (negb pc) (modify (fun s => set_prevConnected true (set_edgeConnected true s))) ;;
  startPolling.

(** The loop makes one turn per queued token unless a token is queued
    again on the way, so one turn more than the queue is long is as good
    as no bound; see [Drain.drain_bound_exact]. *)
Definition onConnected : M unit :=
  markConnected ;;
  q <- gets sendQueue ;;
  drain (S (length q)).

Definition setupGatt : M unit :=
  srv <- gets server ;;
  match srv with
  | None =>
    throw (ErrObj "TypeError" "Cannot read properties of null (reading 'getPrimaryService')")
  | Some id =>
    record (TGetService id NUS_SERVICE) ;; awaitIo ;;
    record (TGetChar id NUS_RX_CHAR) ;; awaitIo ;;
    modify (set_rxChar (Some {| ch_device := id; ch_uuid := NUS_RX_CHAR |})) ;;
    record (TGetChar id NUS_TX_CHAR) ;; awaitIo ;;
    modify (set_txChar (Some {| ch_device := id; ch_uuid := NUS_TX_CHAR |})) ;;
    record (TStartNotify id) ;; awaitIo
  end.

Definition updateStateFromText (v : string) (s : Sys) : Sys :=
  let s := set_lastStateText v s in
  let before := lastStateNum s in
  let s :=
    if ((v =? "on") || (v =? "1"))%string then set_lastStateNum 1 s
    else if ((v =? "off") || (v =? "0"))%string then set_lastStateNum 0 s
    else s in
  let s := if (before =? 0) && (lastStateNum s =? 1) then set_edgeOn true s else s in
  let s := if (before =? 1) && (lastStateNum s =? 0) then set_edgeOff true s else s in
  set_prevStateNum (lastStateNum s) s.

(** The [characteristicvaluechanged] listener installed by [setupGatt]. *)
Definition onNotification (decoded : string) : M unit :=
  modify (updateStateFromText (Js.trim decoded)).

Definition rememberDevice (d : Device) : M unit :=
  modify (fun s =>
    set_known
      (KnownMap.set (dev_id d)
         {| ent_id := dev_id d; ent_name := dev_name d; ent_device := d |} (known s)) s).

Definition findById (id : string) (s : Sys) : option Device :=
  option_map ent_device (KnownMap.get id (known s)).

Definition listIds (s : Sys) : list string := KnownMap.keys (known s).

Definition listNames (s : Sys) : list string := map ent_name (KnownMap.values (known s)).

(** [device = d; deviceName = d.name || ''; deviceId = d.id || '']. *)
Definition setActive (d : Device) : M unit :=
  modify (fun s => set_deviceId (dev_id d) (set_deviceName (dev_name d) (set_device (Some d) s))).

Definition attachDevice (d : Device) : M unit :=
  setActive d ;; rememberDevice d.

(** [server = await device.gatt.connect(); await setupGatt(); await onConnected()]. *)
Definition openLink (d : Device) : M unit :=
  srv <- gattConnectSettle d ;;
  modify (set_server (Some srv)) ;;
  setupGatt ;;
  onConnected.

Definition requestAndConnect : M unit :=
  d <- tryCatch (requestDevice false) (fun _ => requestDevice true) ;;
  attachDevice d ;;
  gattConnectCall d ;;
  openLink d.

Definition noRememberedDevice : Thrown :=
  newError "以前に接続したデバイスがありません".

Definition reconnect : M unit :=
  dev <- gets device ;;
  match dev with
  | None => throw noRememberedDevice
  | Some d =>
    c <- gets connecting ;;
    l <- gattConnected d ;;
    if c || l then ret tt
    else
      modify (set_connecting true) ;;
      tryFinally (gattConnectCall d ;; openLink d) (set_connecting false)
  end.

Definition handleDisconnected : M unit :=
  c <- gets connected ;;
  when c (modify (fun s =>
            set_prevConnected false (set_edgeDisconnected true (set_connected false s)))) ;;
  stopPolling ;;
  w <- gets wantReconnect ;;
  when w scheduleReconnect.

(** The callback given to [setTimeout] in [scheduleReconnect]. *)
Definition reconnectTimerFired : M unit :=
  modify (set_reconnectTimer None) ;;
  tryCatch reconnect
    (fun e =>
       setError e ;;
       modify (fun s => set_backoffMs (Z.min (backoffMs s * 2) backoffMax) s) ;;
       scheduleReconnect).

(** The callback given to [setInterval] in [startPolling]. *)
Definition pollTick : M unit := tryCatch readState setError.

Definition disconnectInternal (forget : bool) : M unit :=
  tryCatch
    (dev <- gets device ;;
     match dev with
     | Some d => l <- gattConnected d ;; when l (gattDisconnect d)
     | None => ret tt
     end)
    (fun _ => ret tt) ;;
  modify (fun s => set_server None (set_rxChar None (set_txChar None s))) ;;
  c <- gets connected ;;
  when c (modify (fun s =>
            set_prevConnected false (set_edgeDisconnected true (set_connected false s)))) ;;
  modify (set_connecting false) ;;
  stopPolling ;;
  dev <- gets device ;;
  match dev with
  | Some d =>
    when forget
      (modify (fun s => set_known (KnownMap.delete (dev_id d) (known s)) s) ;;
       modify (fun s => set_deviceName EmptyString (set_deviceId EmptyString (set_device None s))) ;;
       modify (fun s => set_lastStateText EmptyString (set_lastStateNum 0 (set_prevStateNum 0 s))))
  | None => ret tt
  end.

(** Page lifecycle listeners. *)
Definition onVisibilityChange (hidden : bool) : M unit :=
  if hidden then stopPolling else startPolling.

Definition onBeforeUnload : M unit :=
  modify (set_wantReconnect false) ;;
  stopReconnectTimer ;;
  stopPolling ;;
  tryCatch
    (dev <- gets device ;;
     match dev with
     | Some d => l <- gattConnected d ;; when l (gattDisconnect d)
     | None => ret tt
     end)
    (fun _ => ret tt).

Definition unknownId (id : string) : Thrown := newError ("未知のID: " ++ id).

(** The first half of [connectSendById]: find the device, make it the
    active one unless it already is, connect it unless its session is
    live. *)
Definition resolveAndOpen (id : string) : M unit :=
  found <- gets (findById id) ;;
  match found with
  | None => throw (unknownId id)
  | Some dev =>
    cur <- gets device ;;
    d <- match cur with
         | Some d =>
           if negb (String.eqb (dev_id d) (dev_id dev)) then setActive dev ;; ret dev
           else ret d
         | None => setActive dev ;; ret dev
         end ;;
    l <- gattConnected d ;;
    when (negb l) (gattConnectCall d ;; openLink d)
  end.

(** The [switch] of [connectSendById]. *)
Definition applyAction (action : string) : M unit :=
  if (action =? "ON")%string then sendAscii "1"
  else if (action =? "OFF")%string then sendAscii "0"
  else if (action =? "TOGGLE")%string then sendAscii "t"
  else readState.

Definition connectSendById (id action : string) : M unit :=
  resolveAndOpen id ;; applyAction action.

(** *** The extension's blocks *)

Definition whenOn : M bool :=
  e <- gets edgeOn ;;
  if e then modify (set_edgeOn false) ;; ret true else ret false.

Definition whenOff : M bool :=
  e <- gets edgeOff ;;
  if e then modify (set_edgeOff false) ;; ret true else ret false.

Definition whenConnected : M bool :=
  e <- gets edgeConnected ;;
  if e then modify (set_edgeConnected false) ;; ret true else ret false.

Definition whenDisconnected : M bool :=
  e <- gets edgeDisconnected ;;
  if e then modify (set_edgeDisconnected false) ;; ret true else ret false.

(** What [btnConnect] and [connectById] do first. *)
Definition declareIntent : M unit :=
  clearError ;;
  modify (set_wantReconnect true) ;;
  stopReconnectTimer.

Definition btnConnect : M unit :=
  declareIntent ;;
  tryCatch requestAndConnect (fun e => setError e ;; scheduleReconnect ;; throw e).

(** The [catch] block of [connectById]: one more scan-and-connect. *)
Definition retryByScan (e : Thrown) : M unit :=
  setError e ;;
  tryCatch requestAndConnect (fun ee => setError ee ;; throw ee).

Definition connectById (argId : string) : M unit :=
  declareIntent ;;
  let id := Js.trim argId in
  tryCatch
    (found <- gets (findById id) ;;
     match found with
     | None => requestAndConnect
     | Some dev => setActive dev ;; reconnect
     end)
    retryByScan.

Definition disconnect : M unit :=
  modify (set_wantReconnect false) ;; stopReconnectTimer ;; disconnectInternal false.

Definition forgetCurrent : M unit :=
  modify (set_wantReconnect false) ;; stopReconnectTimer ;; disconnectInternal true.

Definition forgetById (argId : string) : M unit :=
  let id := Js.trim argId in
  cur <- gets device ;;
  match cur with
  | Some d =>
    if String.eqb (dev_id d) id then forgetCurrent
    else modify (fun s => set_known (KnownMap.delete id (known s)) s)
  | None => modify (fun s => set_known (KnownMap.delete id (known s)) s)
  end.

Definition forgetAll : M unit :=
  modify (set_wantReconnect false) ;; stopReconnectTimer ;; disconnectInternal true ;;
  modify (set_known []).

Definition setReconnect (state : string) : M unit :=
  let on := (state =? "オン")%string in
  modify (set_wantReconnect on) ;;
  c <- gets connected ;;
  when (on && negb c) scheduleReconnect ;;
  when (negb on) stopReconnectTimer.

(** [ms] is the value of [Math.floor(Number(args.ms) || 0)], an integer
    that a JavaScript number holds exactly ([Js.isNumber]); on such a
    value [Math.max(0, ms)] is the larger of the two integers.  An
    argument that [Number] turns into an infinity is not modelled. *)
Definition setPoll (ms : Z) : M unit :=
  modify (set_pollIntervalMs (Z.max 0 ms)) ;;
  c <- gets connected ;;
  when c startPolling.

Definition rethrowing (m : M unit) : M unit :=
  tryCatch m (fun e => setError e ;; throw e).

Definition relayOn : M unit := rethrowing (sendAscii "1").
Definition relayOff : M unit := rethrowing (sendAscii "0").
Definition relayToggle : M unit := rethrowing (sendAscii "t").
Definition readStateCmd : M unit := rethrowing readState.
Definition sendText (txt : string) : M unit := rethrowing (sendAscii txt).
Definition clearQueue : M unit := modify (set_sendQueue []).

(** [csv.split(',').map(s => s.trim()).filter(Boolean)]. *)
Definition csvIds (csv : string) : list string :=
  filter Js.truthy (map Js.trim (Js.splitComma csv)).

(** One turn of the loop of [bulkCsv]. *)
Definition bulkStep (act id : string) : M unit :=
  tryCatch (connectSendById id act)
    (fun e =>
       setError (StrVal ("ID " ++ id ++ ": " ++ errorText e))).

(** [bulkCsv] once its two arguments have been read. *)
Definition bulkApply (csv act : string) : M unit :=
  if negb (Js.truthy csv) then ret tt
  else forEach (csvIds csv) (bulkStep act).

Definition bulkCsv (argCsv argAct : string) : M unit :=
  clearError ;;
  let csv := Js.trim argCsv in
  let act := toUpperCase host (Js.orElse argAct "ON") in
  bulkApply csv act.

Definition stateNum (s : Sys) : string := Js.ofZ (lastStateNum s).
Definition stateText (s : Sys) : string := lastStateText s.
Definition getName (s : Sys) : string := deviceName s.
Definition getId (s : Sys) : string := deviceId s.
Definition getKnownIds (s : Sys) : string := String.concat "," (listIds s).
Definition getKnownNames (s : Sys) : string := String.concat "," (listNames s).
Definition getError (s : Sys) : string := lastError s.

End Program.

(* ================================================================== *)
(** ** What can happen to the extension

    Blocks run by the project, and events delivered by the page and by the
    transport.  [LinkLost id] is the [gattserverdisconnected] event of a
    device whose link has gone; the two timers only fire while they are
    pending. *)

Inductive Action :=
| BtnConnect
| ConnectById (id : string)
| Disconnect
| ForgetCurrent
| ForgetById (id : string)
| ForgetAll
| SetReconnect (state : string)
| SetPoll (ms : Z)
| RelayOn
| RelayOff
| RelayToggle
| ReadStateCmd
| SendText (txt : string)
| ClearQueue
| BulkCsv (csv act : string)
| WhenOn
| WhenOff
| WhenConnected
| WhenDisconnected
| Notified (text : string)
| LinkLost (id : string)
| ReconnectTimer
| PollTimer
| Visibility (hidden : bool)
| BeforeUnload.

Definition run (host : Host) (a : Action) : M unit :=
  match a with
  | BtnConnect => btnConnect host
  | ConnectById id => connectById host id
  | Disconnect => disconnect
  | ForgetCurrent => forgetCurrent
  | ForgetById id => forgetById id
  | ForgetAll => forgetAll
  | SetReconnect state => setReconnect state
  | SetPoll ms => setPoll ms
  | RelayOn => relayOn host
  | RelayOff => relayOff host
  | RelayToggle => relayToggle host
  | ReadStateCmd => readStateCmd host
  | SendText txt => sendText host txt
  | ClearQueue => clearQueue
  | BulkCsv csv act => bulkCsv host csv act
  | WhenOn => whenOn ;; ret tt
  | WhenOff => whenOff ;; ret tt
  | WhenConnected => whenConnected ;; ret tt
  | WhenDisconnected => whenDisconnected ;; ret tt
  | Notified text => onNotification text
  | LinkLost id =>
    modify (fun s => set_live (filter (fun i => negb (String.eqb i id)) (live s)) s) ;;
    handleDisconnected
  | ReconnectTimer =>
    t <- gets reconnectTimer ;;
    match t with
    | Some _ => reconnectTimerFired host
    | None => ret tt
    end
  | PollTimer =>
    t <- gets pollTimer ;;
    match t with
    | Some _ => pollTick host
    | None => ret tt
    end
  | Visibility hidden => onVisibilityChange hidden
  | BeforeUnload => onBeforeUnload
  end.

(* ================================================================== *)
(** ** Calls that overlap

    A call of an [async] function runs until its first [await] and is
    suspended there; what is left of it runs later, when the promise it
    waits for has settled, and until then other blocks and events may
    run.  [Prog] is a computation with its [await]s marked: the
    settlement of a transport promise ([PAwaitIo], [PAwaitPick]) and the
    [await] of a promise of the script's own ([PYield]).  The functions
    below are the [async] functions of the script written with these
    marks; a stretch without [await] is taken over from its computation
    in [M] with [liftP]. *)

Inductive Prog (A : Type) : Type :=
| PRet (a : A)
| PThrow (e : Thrown)
| PHang
| PRead (k : Sys -> Prog A)
| PWrite (g : Sys -> Sys) (k : Prog A)
| PAwaitIo (k : option Thrown -> Prog A)
| PAwaitPick (k : Thrown + Device -> Prog A)
| PYield (k : Prog A).

Arguments PRet {A} a.
Arguments PThrow {A} e.
Arguments PHang {A}.
Arguments PRead {A} k.
Arguments PWrite {A} g k.
Arguments PAwaitIo {A} k.
Arguments PAwaitPick {A} k.
Arguments PYield {A} k.

Fixpoint bindP {A B} (p : Prog A) (f : A -> Prog B) : Prog B :=
  match p with
  | PRet a => f a
  | PThrow e => PThrow e
  | PHang => PHang
  | PRead k => PRead (fun s => bindP (k s) f)
  | PWrite g k => PWrite g (bindP k f)
  | PAwaitIo k => PAwaitIo (fun r => bindP (k r) f)
  | PAwaitPick k => PAwaitPick (fun r => bindP (k r) f)
  | PYield k => PYield (bindP k f)
  end.

(** [try { p } catch (e) { h e }]. *)
Fixpoint tryCatchP {A} (p : Prog A) (h : Thrown -> Prog A) : Prog A :=
  match p with
  | PThrow e => h e
  | PRet a => PRet a
  | PHang => PHang
  | PRead k => PRead (fun s => tryCatchP (k s) h)
  | PWrite g k => PWrite g (tryCatchP k h)
  | PAwaitIo k => PAwaitIo (fun r => tryCatchP (k r) h)
  | PAwaitPick k => PAwaitPick (fun r => tryCatchP (k r) h)
  | PYield k => PYield (tryCatchP k h)
  end.

(** [try { p } finally { fin }] for a [finally] block that only assigns. *)
Fixpoint tryFinallyP {A} (p : Prog A) (fin : Sys -> Sys) : Prog A :=
  match p with
  | PRet a => PWrite fin (PRet a)
  | PThrow e => PWrite fin (PThrow e)
  | PHang => PHang
  | PRead k => PRead (fun s => tryFinallyP (k s) fin)
  | PWrite g k => PWrite g (tryFinallyP k fin)
  | PAwaitIo k => PAwaitIo (fun r => tryFinallyP (k r) fin)
  | PAwaitPick k => PAwaitPick (fun r => tryFinallyP (k r) fin)
  | PYield k => PYield (tryFinallyP k fin)
  end.

(** The value returned, or the value caught. *)
Fixpoint attemptP {A} (p : Prog A) : Prog (Thrown + A) :=
  match p with
  | PRet a => PRet (inr a)
  | PThrow e => PRet (inl e)
  | PHang => PHang
  | PRead k => PRead (fun s => attemptP (k s))
  | PWrite g k => PWrite g (attemptP k)
  | PAwaitIo k => PAwaitIo (fun r => attemptP (k r))
  | PAwaitPick k => PAwaitPick (fun r => attemptP (k r))
  | PYield k => PYield (attemptP k)
  end.

(** [await p] for a call [p] of one of the script's [async] functions:
    the caller goes on, or catches what was thrown, one turn later. *)
Fixpoint awaitP {A} (p : Prog A) : Prog A :=
  match p with
  | PRet a => PYield (PRet a)
  | PThrow e => PYield (PThrow e)
  | PHang => PHang
  | PRead k => PRead (fun s => awaitP (k s))
  | PWrite g k => PWrite g (awaitP k)
  | PAwaitIo k => PAwaitIo (fun r => awaitP (k r))
  | PAwaitPick k => PAwaitPick (fun r => awaitP (k r))
  | PYield k => PYield (awaitP k)
  end.

(** A stretch of code without [await], run in one go. *)
Definition liftP {A} (m : M A) : Prog A :=
  PRead (fun s =>
    match m s with
    | (Ret a, s') => PWrite (fun _ => s') (PRet a)
    | (Throw e, s') => PWrite (fun _ => s') (PThrow e)
    | (Hang, s') => PWrite (fun _ => s') PHang
    end).

Definition getsP {A} (f : Sys -> A) : Prog A := PRead (fun s => PRet (f s)).

Definition modifyP (g : Sys -> Sys) : Prog unit := PWrite g (PRet tt).

Declare Scope prog_scope.
Delimit Scope prog_scope with prog.
Notation "x <- p ;; k" := (bindP p (fun x => k))
  (at level 61, p at next level, right associativity) : prog_scope.
Notation "p ;; k" := (bindP p (fun _ => k))
  (at level 61, right associativity) : prog_scope.

Definition whenP (b : bool) (p : Prog unit) : Prog unit := if b then p else PRet tt.

Fixpoint forEachP {A} (l : list A) (body : A -> Prog unit) : Prog unit :=
  match l with
  | [] => PRet tt
  | x :: r => (body x ;; forEachP r body)%prog
  end.

Section Overlapping.

Variable host : Host.

(** Turns of the drain loop granted beyond the length the queue has when
    [onConnected] reaches its loop: while the loop waits, other calls may
    add to the queue. *)
Variable extra : nat.

Local Open Scope prog_scope.

(** *** Transport *)

Definition recordP (c : Call) : Prog unit :=
  modifyP (fun s => set_log (log s ++ [c]) s).

Definition awaitIoP : Prog unit :=
  PAwaitIo (fun r => match r with Some e => PThrow e | None => PRet tt end).

Definition requestDeviceP (acceptAll : bool) : Prog Device :=
  recordP (TRequest acceptAll) ;;
  PAwaitPick (fun r => match r with inl e => PThrow e | inr d => PRet d end).

Definition gattConnectSettleP (d : Device) : Prog string :=
  awaitIoP ;;
  modifyP (fun s => set_live (dev_id d :: live s) s) ;;
  PRet (dev_id d).

Definition writeValueP (ch : Characteristic) (data : string) : Prog unit :=
  recordP (TWrite ch data) ;; awaitIoP.

(** *** Sending *)

Definition sendAsciiP (str : string) : Prog unit :=
  c <- getsP connected ;;
  rx <- getsP rxChar ;;
  match c, rx with
  | true, Some ch => writeValueP ch str
  | _, _ =>
    w <- getsP wantReconnect ;;
    if w then liftP (enqueue str) else PThrow notConnected
  end.

Definition readStateP : Prog unit := awaitP (sendAsciiP "s").

(** *** Connection set-up *)

Fixpoint drainP (fuel : nat) : Prog unit :=
  match fuel with
  | O => PHang
  | S fuel' =>
    q <- getsP sendQueue ;;
    c <- getsP connected ;;
    match q with
    | [] => PRet tt
    | tok :: rest =>
      if c then
        modifyP (set_sendQueue rest) ;;
        r <- attemptP (awaitP (sendAsciiP tok)) ;;
        match r with
        | inr _ => drainP fuel'
        | inl e => liftP (setError e)
        end
      else PRet tt
    end
  end.

Definition onConnectedP : Prog unit :=
  liftP markConnected ;;
  q <- getsP sendQueue ;;
  drainP (extra + S (length q)).

Definition setupGattP : Prog unit :=
  srv <- getsP server ;;
  match srv with
  | None =>
    PThrow (ErrObj "TypeError" "Cannot read properties of null (reading 'getPrimaryService')")
  | Some id =>
    recordP (TGetService id NUS_SERVICE) ;; awaitIoP ;;
    recordP (TGetChar id NUS_RX_CHAR) ;; awaitIoP ;;
    modifyP (set_rxChar (Some {| ch_device := id; ch_uuid := NUS_RX_CHAR |})) ;;
    recordP (TGetChar id NUS_TX_CHAR) ;; awaitIoP ;;
    modifyP (set_txChar (Some {| ch_device := id; ch_uuid := NUS_TX_CHAR |})) ;;
    recordP (TStartNotify id) ;; awaitIoP
  end.

(** [server = await device.gatt.connect(); await setupGatt(); await onConnected()]. *)
Definition openLinkP (d : Device) : Prog unit :=
  srv <- gattConnectSettleP d ;;
  modifyP (set_server (Some srv)) ;;
  awaitP setupGattP ;;
  awaitP onConnectedP.

Definition requestAndConnectP : Prog unit :=
  d <- tryCatchP (requestDeviceP false) (fun _ => requestDeviceP true) ;;
  liftP (attachDevice d) ;;
  liftP (gattConnectCall d) ;;
  openLinkP d.

Definition reconnectP : Prog unit :=
  dev <- getsP device ;;
  match dev with
  | None => PThrow noRememberedDevice
  | Some d =>
    c <- getsP connecting ;;
    l <- getsP (isLive d) ;;
    if c || l then PRet tt
    else
      modifyP (set_connecting true) ;;
      tryFinallyP (liftP (gattConnectCall d) ;; openLinkP d) (set_connecting false)
  end.

Definition reconnectTimerFiredP : Prog unit :=
  modifyP (set_reconnectTimer None) ;;
  tryCatchP (awaitP reconnectP)
    (fun e =>
       liftP (setError e ;;
              modify (fun s => set_backoffMs (Z.min (backoffMs s * 2) backoffMax) s) ;;
              scheduleReconnect)%js).

Definition pollTickP : Prog unit := tryCatchP readStateP (fun e => liftP (setError e)).

Definition resolveAndOpenP (id : string) : Prog unit :=
  found <- getsP (findById id) ;;
  match found with
  | None => PThrow (unknownId id)
  | Some dev =>
    cur <- getsP device ;;
    d <- match cur with
         | Some d =>
           if negb (String.eqb (dev_id d) (dev_id dev)) then liftP (setActive dev) ;; PRet dev
           else PRet d
         | None => liftP (setActive dev) ;; PRet dev
         end ;;
    l <- getsP (isLive d) ;;
    whenP (negb l) (liftP (gattConnectCall d) ;; openLinkP d)
  end.

Definition applyActionP (action : string) : Prog unit :=
  if (action =? "ON")%string then awaitP (sendAsciiP "1")
  else if (action =? "OFF")%string then awaitP (sendAsciiP "0")
  else if (action =? "TOGGLE")%string then awaitP (sendAsciiP "t")
  else awaitP readStateP.

Definition connectSendByIdP (id action : string) : Prog unit :=
  resolveAndOpenP id ;; applyActionP action.

(** *** The extension's blocks *)

Definition btnConnectP : Prog unit :=
  liftP declareIntent ;;
  tryCatchP (awaitP requestAndConnectP)
    (fun e => liftP (setError e ;; scheduleReconnect ;; throw e)%js).

Definition retryByScanP (e : Thrown) : Prog unit :=
  liftP (setError e) ;;
  tryCatchP (awaitP requestAndConnectP) (fun ee => liftP (setError ee ;; throw ee)%js).

Definition connectByIdP (argId : string) : Prog unit :=
  liftP declareIntent ;;
  let id := Js.trim argId in
  tryCatchP
    (found <- getsP (findById id) ;;
     match found with
     | None => awaitP requestAndConnectP
     | Some dev => liftP (setActive dev) ;; awaitP reconnectP
     end)
    retryByScanP.

Definition disconnectP : Prog unit := awaitP (liftP disconnect).

Definition forgetCurrentP : Prog unit := awaitP (liftP forgetCurrent).

Definition forgetByIdP (argId : string) : Prog unit :=
  let id := Js.trim argId in
  cur <- getsP device ;;
  match cur with
  | Some d =>
    if String.eqb (dev_id d) id then awaitP forgetCurrentP
    else modifyP (fun s => set_known (KnownMap.delete id (known s)) s)
  | None => modifyP (fun s => set_known (KnownMap.delete id (known s)) s)
  end.

(** [known.clear()] comes after the [await] of the tear-down. *)
Definition forgetAllP : Prog unit :=
  awaitP (liftP (modify (set_wantReconnect false) ;; stopReconnectTimer ;;
                 disconnectInternal true)%js) ;;
  modifyP (set_known []).

Definition rethrowingP (p : Prog unit) : Prog unit :=
  tryCatchP (awaitP p) (fun e => liftP (setError e ;; throw e)%js).

Definition bulkStepP (act id : string) : Prog unit :=
  tryCatchP (awaitP (connectSendByIdP id act))
    (fun e => liftP (setError (StrVal ("ID " ++ id ++ ": " ++ errorText e)))).

Definition bulkCsvP (argCsv argAct : string) : Prog unit :=
  liftP clearError ;;
  let csv := Js.trim argCsv in
  let act := toUpperCase host (Js.orElse argAct "ON") in
  if negb (Js.truthy csv) then PRet tt
  else forEachP (csvIds csv) (bulkStepP act).

(** A block or an event as a call that may be suspended. *)
Definition progOf (a : Action) : Prog unit :=
  match a with
  | BtnConnect => btnConnectP
  | ConnectById id => connectByIdP id
  | Disconnect => disconnectP
  | ForgetCurrent => forgetCurrentP
  | ForgetById id => forgetByIdP id
  | ForgetAll => forgetAllP
  | SetReconnect state => liftP (setReconnect state)
  | SetPoll ms => liftP (setPoll ms)
  | RelayOn => rethrowingP (sendAsciiP "1")
  | RelayOff => rethrowingP (sendAsciiP "0")
  | RelayToggle => rethrowingP (sendAsciiP "t")
  | ReadStateCmd => rethrowingP readStateP
  | SendText txt => rethrowingP (sendAsciiP txt)
  | ClearQueue => liftP clearQueue
  | BulkCsv csv act => bulkCsvP csv act
  | WhenOn => liftP (whenOn ;; ret tt)%js
  | WhenOff => liftP (whenOff ;; ret tt)%js
  | WhenConnected => liftP (whenConnected ;; ret tt)%js
  | WhenDisconnected => liftP (whenDisconnected ;; ret tt)%js
  | Notified text => liftP (onNotification text)
  | LinkLost id =>
    liftP (modify (fun s => set_live (filter (fun i => negb (String.eqb i id)) (live s)) s) ;;
           handleDisconnected)%js
  | ReconnectTimer =>
    t <- getsP reconnectTimer ;;
    match t with
    | Some _ => reconnectTimerFiredP
    | None => PRet tt
    end
  | PollTimer =>
    t <- getsP pollTimer ;;
    match t with
    | Some _ => pollTickP
    | None => PRet tt
    end
  | Visibility hidden => liftP (onVisibilityChange hidden)
  | BeforeUnload => liftP onBeforeUnload
  end.

End Overlapping.

(** *** Running calls turn by turn *)

(** How a turn of a call ends: the call is over, it is suspended at an
    [await], or it never comes back. *)
Inductive Stop (A : Type) : Type :=
| Over (r : Thrown + A)
| Suspended (p : Prog A)
| Stuck.

Arguments Over {A} r.
Arguments Suspended {A} p.
Arguments Stuck {A}.

(** A call runs up to its next [await]. *)
Fixpoint advance {A} (p : Prog A) (s : Sys) : Stop A * Sys :=
  match p with
  | PRet a => (Over (inr a), s)
  | PThrow e => (Over (inl e), s)
  | PHang => (Stuck, s)
  | PRead k => advance (k s) s
  | PWrite g k => advance k (g s)
  | PAwaitIo _ | PAwaitPick _ | PYield _ => (Suspended p, s)
  end.

(** The promise a suspended call waits for settles as the host says, and
    the call runs on. *)
Definition resume {A} (host : Host) (p : Prog A) (s : Sys) : Stop A * Sys :=
  match p with
  | PAwaitIo k => advance (k (ioReply host (tick s))) (set_tick (S (tick s)) s)
  | PAwaitPick k => advance (k (pickReply host (tick s))) (set_tick (S (tick s)) s)
  | PYield k => advance k s
  | _ => advance p s
  end.

(** A call run from end to end with nothing in between: every promise it
    waits for settles at once. *)
Fixpoint atomic {A} (host : Host) (p : Prog A) : M A :=
  fun s =>
    match p with
    | PRet a => (Ret a, s)
    | PThrow e => (Throw e, s)
    | PHang => (Hang, s)
    | PRead k => atomic host (k s) s
    | PWrite g k => atomic host k (g s)
    | PAwaitIo k => atomic host (k (ioReply host (tick s))) (set_tick (S (tick s)) s)
    | PAwaitPick k => atomic host (k (pickReply host (tick s))) (set_tick (S (tick s)) s)
    | PYield k => atomic host k s
    end.

(** [p] run with nothing in between is [m]. *)
Definition refines {A} (host : Host) (p : Prog A) (m : M A) : Prop :=
  forall s, atomic host p s = m s.

(** The extension at a moment between two turns: its variables and the
    calls that are suspended. *)
Definition Config : Type := Sys * list (Prog unit).

Definition suspended {A} (st : Stop A) : list (Prog A) :=
  match st with
  | Suspended p => [p]
  | _ => []
  end.

Definition stuck {A} (st : Stop A) : bool :=
  match st with
  | Stuck => true
  | _ => false
  end.

(** What the extension gets into, starting from a freshly loaded script:
    a block or an event starts and runs up to its first [await], or one
    of the suspended calls runs on up to its next [await].  A turn that
    never comes back leads nowhere.  Any suspended call may be the next
    to run on, and a new one may start at any [await]: this lets in every
    order the browser allows, and some it does not (at a [PYield] the
    browser runs the suspended calls that are ready before it starts a
    new block or event). *)
Inductive reach (host : Host) : Config -> Prop :=
| reach_fresh : reach host (initial, [])
| reach_start s pool extra a :
    reach host (s, pool) ->
    stuck (fst (advance (progOf host extra a) s)) = false ->
    reach host (snd (advance (progOf host extra a) s),
                (pool ++ suspended (fst (advance (progOf host extra a) s)))%list)
| reach_resume s before p later :
    reach host (s, (before ++ p :: later)%list) ->
    stuck (fst (resume host p s)) = false ->
    reach host (snd (resume host p s),
                (before ++ suspended (fst (resume host p s)) ++ later)%list).

(** The states the extension gets into. *)
Definition reachable (host : Host) (s : Sys) : Prop :=
  exists pool, reach host (s, pool).

(** *** Schedules *)




(** The state in which a call of [reconnect] is suspended at its first
    [await], that of the transport connect: where the call, started in
    [s], has got to when its first turn ends. *)
Definition reconnectPending (s : Sys) : Sys := snd (advance (reconnectP 0) s).

(** *** What every turn keeps *)

(** [holds I p N E s]: the call [p], started in [s], leaves a state that
    satisfies [N] when it returns and one that satisfies [E] when it
    throws; each time it is suspended it leaves [I] standing, and it runs
    on in whatever state the other calls have made in the meantime, of
    which [I] is all that is known. *)
Fixpoint holds {A} (I : Sys -> Prop) (p : Prog A)
  (N : A -> Sys -> Prop) (E : Thrown -> Sys -> Prop) (s : Sys) : Prop :=
  match p with
  | PRet a => N a s
  | PThrow e => E e s
  | PHang => True
  | PRead k => holds I (k s) N E s
  | PWrite g k => holds I k N E (g s)
  | PAwaitIo k => I s /\ forall r s', I s' -> holds I (k r) N E s'
  | PAwaitPick k => I s /\ forall r s', I s' -> holds I (k r) N E s'
  | PYield k => I s /\ forall s', I s' -> holds I k N E s'
  end.

(** [p] leaves [I] standing at every [await] and at its end. *)
Definition keepsP {A} (I : Sys -> Prop) (p : Prog A) : Prop :=
  forall s, I s -> holds I p (fun _ => I) (fun _ => I) s.

(** A suspended call that leaves [I] standing when it runs on. *)
Definition parked (I : Sys -> Prop) (p : Prog unit) : Prop :=
  match p with
  | PAwaitIo k => forall r s, I s -> holds I (k r) (fun _ => I) (fun _ => I) s
  | PAwaitPick k => forall r s, I s -> holds I (k r) (fun _ => I) (fun _ => I) s
  | PYield k => forall s, I s -> holds I k (fun _ => I) (fun _ => I) s
  | _ => keepsP I p
  end.

(** [I] does not look at the clock of the transport. *)
Definition tickFree (I : Sys -> Prop) : Prop :=
  forall n s, I s -> I (set_tick n s).

(* ================================================================== *)
(** ** Notions used in the statements *)

(** [wp m N E s]: run from [s], [m] returns a value and a state that
    satisfy [N], or throws a value and leaves a state that satisfy [E];
    it does not hang. *)
Definition wp {A} (m : M A) (N : A -> Sys -> Prop) (E : Thrown -> Sys -> Prop)
  (s : Sys) : Prop :=
  match m s with
  | (Ret a, s') => N a s'
  | (Throw e, s') => E e s'
  | (Hang, _) => False
  end.

(** [keeps I m]: [m] does not hang and leaves [I] standing however it ends. *)
Definition keeps {A} (I : Sys -> Prop) (m : M A) : Prop :=
  forall s, I s -> wp m (fun _ => I) (fun _ => I) s.

Definition queueBounded (s : Sys) : Prop := (length (sendQueue s) <= QUEUE_MAX)%nat.

(** Whenever [connected] is set a write characteristic is at hand, and
    the queue is within its bound.  A call that no other call overlaps
    keeps both; calls that overlap keep the second ([Sound]) and can
    break the first. *)
Definition Inv (s : Sys) : Prop :=
  (connected s = true -> rxChar s <> None) /\ queueBounded s.

(** The state [setupGatt] leaves when it succeeds. *)
Definition Ready (s : Sys) : Prop := rxChar s <> None /\ queueBounded s.

(** A property that is decided by [connected], [rxChar] and [sendQueue]. *)
Definition coreOnly (I : Sys -> Prop) : Prop :=
  forall s s',
    connected s' = connected s -> rxChar s' = rxChar s -> sendQueue s' = sendQueue s ->
    I s -> I s'.

(** *** State tracker *)

(** The numeric value a notification text decodes to; a text that is not
    recognised decodes to the value already stored. *)
Definition decoded (v : string) (stored : Z) : Z :=
  if ((v =? "on") || (v =? "1"))%string then 1
  else if ((v =? "off") || (v =? "0"))%string then 0
  else stored.

Definition rose (before after : Z) : bool := (before =? 0) && (after =? 1).
Definition fell (before after : Z) : bool := (before =? 1) && (after =? 0).

(** Both HAT blocks have read their flags. *)
Definition consumed (s : Sys) : Sys := snd (whenOff (snd (whenOn s))).

(** The flags seen after each notification of a sequence, the project
    reading both flags between two notifications. *)
Fixpoint observed (vs : list string) (s : Sys) : list (bool * bool) :=
  match vs with
  | [] => []
  | v :: r =>
    let s' := updateStateFromText v (consumed s) in
    (edgeOn s', edgeOff s') :: observed r s'
  end.

(** The flags as the specification words them: an edge fires iff the
    value stored just before and the value decoded make the transition. *)
Fixpoint expected (vs : list string) (stored : Z) : list (bool * bool) :=
  match vs with
  | [] => []
  | v :: r =>
    let d := decoded v stored in
    (rose stored d, fell stored d) :: expected r d
  end.

(** *** Send queue *)

(** The queue after one more token: at capacity the oldest entry goes. *)
Definition pushed (q : list string) (tok : string) : list string :=
  (if (QUEUE_MAX <=? length q)%nat then tl q else q) ++ [tok].

(** The last [n] entries of a list. *)
Definition lastn {A} (n : nat) (l : list A) : list A := skipn (length l - n) l.

(** Sending a list of tokens one after the other. *)
Definition sendAll (host : Host) (toks : list string) (s : Sys) : Sys :=
  fold_left (fun st tok => snd (sendAscii host tok st)) toks s.

(** The state after the write of [tok] has been issued and awaited. *)
Definition written (ch : Characteristic) (tok : string) (rest : list string) (s : Sys) : Sys :=
  set_tick (S (tick s)) (set_log (log s ++ [TWrite ch tok]) (set_sendQueue rest s)).

(** *** Transport log *)

Definition isConnect (c : Call) : bool :=
  match c with
  | TConnect _ => true
  | _ => false
  end.

(** How many times the transport has been asked to connect. *)
Definition connectCalls (l : list Call) : nat := length (filter isConnect l).

Arguments connectCalls : simpl never.

(** The tokens written, each with the device it went to. *)
Definition writesOf (l : list Call) : list (string * string) :=
  flat_map (fun c => match c with
                     | TWrite ch data => [(ch_device ch, data)]
                     | _ => []
                     end) l.

(** A value comes from the transport: some promise rejected with it. *)
Definition fromTransport (host : Host) (e : Thrown) : Prop :=
  (exists n, ioReply host n = Some e) \/ (exists n, pickReply host n = inl e).

(** *** Reconnecting *)

(** [n] attempts of the reconnect timer in a row, each of which fails. *)
Inductive failedAttempts (host : Host) : nat -> Sys -> Sys -> Prop :=
| failed_none s : failedAttempts host 0 s s
| failed_more n s e s1 s' :
    reconnect host (set_reconnectTimer None s) = (Throw e, s1) ->
    failedAttempts host n (snd (reconnectTimerFired host s)) s' ->
    failedAttempts host (S n) s s'.

(** The state after the callback of the reconnect timer. *)
Definition fired (host : Host) (s : Sys) : Sys := snd (reconnectTimerFired host s).

(** A scan-and-connect, tried once more if it fails. *)
Definition scanWithRetry (host : Host) : M unit :=
  tryCatch (requestAndConnect host) (retryByScan host).

(** *** Bulk dispatch and the earlier content of [lastError]

    [carriesAt m s]: run from [s], [m] neither reads nor writes
    [lastError].  [settlesAt m s]: run from [s], [m] ends the same
    whatever [lastError] held, or throws without having touched it. *)

Definition carriesAt {A} (m : M A) (s : Sys) : Prop :=
  forall x, m (set_lastError x s) = (fst (m s), set_lastError x (snd (m s))).

Definition settlesAt {A} (m : M A) (s : Sys) : Prop :=
  forall x,
    m (set_lastError x s) = m s
    \/ (exists e, fst (m s) = Throw e
                 /\ m (set_lastError x s) = (Throw e, set_lastError x (snd (m s))))
    \/ fst (m s) = Hang.

(* ================================================================== *)
(** ** Hosts and states for running examples *)

(** Running a list of blocks and events one after the other. *)
Definition after (host : Host) (acts : list Action) (s : Sys) : Sys :=
  fold_left (fun st a => snd (run host a st)) acts s.

Definition relayA : Device := {| dev_id := "a"; dev_name := "BT Relay A" |}.
Definition relayC : Device := {| dev_id := "c"; dev_name := "BT Relay C" |}.

Definition rxA : Characteristic := {| ch_device := "a"; ch_uuid := NUS_RX_CHAR |}.
Definition rxC : Characteristic := {| ch_device := "c"; ch_uuid := NUS_RX_CHAR |}.

Definition gattFailure : Thrown := ErrObj "NetworkError" "GATT operation failed.".

(** A transport on which every promise resolves; the chooser hands back
    [relayA]. *)
Definition steadyHost : Host :=
  {| ioReply := fun _ => None;
     pickReply := fun _ => inr relayA;
     toUpperCase := Js.asciiUpper |}.

(** A transport on which the promise awaited at tick [n] rejects and every
    other one resolves. *)
Definition failingAt (n : nat) : Host :=
  {| ioReply := fun i => if (i =? n)%nat then Some gattFailure else None;
     pickReply := fun _ => inr relayA;
     toUpperCase := Js.asciiUpper |}.

(** A transport on which every promise awaited from tick [n] on rejects. *)
Definition failingFrom (n : nat) : Host :=
  {| ioReply := fun i => if (n <=? i)%nat then Some gattFailure else None;
     pickReply := fun _ => inr relayA;
     toUpperCase := Js.asciiUpper |}.

(** Two relays: the chooser hands back [relayA] the first time it is asked
    and [relayC] afterwards; every transport promise resolves. *)
Definition twoRelays : Host :=
  {| ioReply := fun _ => None;
     pickReply := fun n => if (n <? 6)%nat then inr relayA else inr relayC;
     toUpperCase := Js.asciiUpper |}.

(** Auto-reconnect switched on, nothing connected yet. *)
Definition wanting : Sys := after steadyHost [SetReconnect "オン"] initial.

(** Connected to [relayA]. *)
Definition linked : Sys := after steadyHost [BtnConnect] initial.

(** Connected to [relayA], then the link lost: a reconnect is wanted. *)
Definition lost : Sys := after steadyHost [BtnConnect; LinkLost "a"] initial.

(** The link lost, then three commands queued. *)
Definition backlog : Sys :=
  after steadyHost [BtnConnect; LinkLost "a"; RelayOn; RelayOff; RelayToggle] initial.

(** Both relays have been connected once and disconnected again. *)
Definition remembered : Sys :=
  after twoRelays [BtnConnect; Disconnect; BtnConnect; Disconnect] initial.



Definition tokens21 : list string :=
  ["a1"; "a2"; "a3"; "a4"; "a5"; "a6"; "a7"; "a8"; "a9"; "a10"; "a11"; "a12"; "a13"; "a14";
   "a15"; "a16"; "a17"; "a18"; "a19"; "a20"; "a21"].

(* ================================================================== *)
(** ** What holds in every state the extension gets into *)

(** The registry: no key twice, and every entry is the one
    [rememberDevice] makes for the device it holds. *)
Definition knownOk (m : KnownMap.t) : Prop :=
  NoDup (KnownMap.keys m)
  /\ forall k e,
      In (k, e) m ->
      ent_id e = k /\ dev_id (ent_device e) = k /\ ent_name e = dev_name (ent_device e).

(** The two timers: the backoff stays between its floor and its ceiling;
    a reconnect timer is pending only while a reconnect is wanted, with a
    delay in that range; a poll timer is pending only while connected, at
    the configured interval. *)
Definition timersOk (s : Sys) : Prop :=
  1000 <= backoffMs s <= backoffMax
  /\ (forall ms, reconnectTimer s = Some ms ->
                 wantReconnect s = true /\ 1000 <= ms <= backoffMax)
  /\ 0 <= pollIntervalMs s
  /\ (forall ms, pollTimer s = Some ms ->
                 connected s = true /\ pollIntervalMs s = ms /\ 0 < ms).

(** The state record: the previous value follows the current one, which
    is 0 or 1. *)
Definition trackerOk (s : Sys) : Prop :=
  prevStateNum s = lastStateNum s /\ (lastStateNum s = 0 \/ lastStateNum s = 1).

(** The connection flag and its previous value agree, and the id and the
    name shown are those of the active device, or empty while there is
    none. *)
Definition activeOk (s : Sys) : Prop :=
  prevConnected s = connected s
  /\ match device s with
     | Some d => deviceId s = dev_id d /\ deviceName s = dev_name d
     | None => deviceId s = EmptyString /\ deviceName s = EmptyString
     end.

(** What every stretch of the script without [await] keeps, whatever
    state it starts in: calls that overlap cannot break it. *)
Definition Sound (s : Sys) : Prop :=
  queueBounded s /\ knownOk (known s) /\ timersOk s /\ trackerOk s /\ activeOk s.

(** A property that is decided by the variables [Sound] looks at. *)
Definition shapeOnly (I : Sys -> Prop) : Prop :=
  forall s s',
    connected s' = connected s -> rxChar s' = rxChar s -> sendQueue s' = sendQueue s ->
    known s' = known s -> device s' = device s ->
    deviceId s' = deviceId s -> deviceName s' = deviceName s ->
    wantReconnect s' = wantReconnect s -> backoffMs s' = backoffMs s ->
    reconnectTimer s' = reconnectTimer s ->
    pollIntervalMs s' = pollIntervalMs s -> pollTimer s' = pollTimer s ->
    prevConnected s' = prevConnected s ->
    lastStateNum s' = lastStateNum s -> prevStateNum s' = prevStateNum s ->
    I s -> I s'.

(* ================================================================== *)
(** ** Variables a computation does not touch *)

(** [leaves f m]: however [m] ends, [f] holds what it held before. *)
Definition leaves {A X} (f : Sys -> X) (m : M A) : Prop :=
  forall s, f (snd (m s)) = f s.

(** [f] does not look at the transport: the clock, the log and the set of
    live sessions. *)
Definition offTransport {X} (f : Sys -> X) : Prop :=
  (forall n s, f (set_tick n s) = f s)
  /\ (forall l s, f (set_log l s) = f s)
  /\ (forall l s, f (set_live l s) = f s).

(** *** Polling a HAT block *)

(** What [n] evaluations of a HAT block in a row return. *)
Fixpoint polled (hat : M bool) (n : nat) (s : Sys) : list (Res bool) :=
  match n with
  | O => []
  | S k => fst (hat s) :: polled hat k (snd (hat s))
  end.

(** *** Runs *)

(** No block or event of the list hangs. *)
Fixpoint allReturn (host : Host) (acts : list Action) (s : Sys) : bool :=
  match acts with
  | [] => true
  | a :: r =>
    match fst (run host a s) with
    | Hang => false
    | _ => allReturn host r (snd (run host a s))
    end
  end.

(** *** More states for running examples *)

(** Connected to [relayA] and polling every half second. *)
Definition polling : Sys := after steadyHost [BtnConnect; SetPoll 500] initial.

(** *** Blocks that can fail *)

(** The blocks that hand a failure to the project: the two connect
    blocks and the command blocks. *)
Definition mayThrow (a : Action) : bool :=
  match a with
  | BtnConnect | ConnectById _ => true
  | RelayOn | RelayOff | RelayToggle | ReadStateCmd | SendText _ => true
  | _ => false
  end.

(** *** Ids that survive the comma-separated form *)

(** A printable ASCII character other than the space and the comma. *)
Definition plainChar (c : ascii) : bool :=
  let n := Js.code c in
  ((33 <=? n) && (n <=? 126) && negb (n =? 44))%nat.

(** A non-empty id made of such characters, as the ids handed out by the
    browser are. *)
Definition plainId (id : string) : bool :=
  Js.truthy id && forallb plainChar (Js.chars id).

(* ================================================================== *)
(** ** Reasoning about computations *)

Lemma bind_run {A B} (m : M A) (f : A -> M B) s a s' :
  m s = (Ret a, s') -> bind m f s = f a s'.
Proof. intros E. unfold bind. rewrite E. reflexivity. Qed.

Section WpRules.

Context {A B : Type}.
Implicit Types (s : Sys) (E : Thrown -> Sys -> Prop).

Lemma wp_ret (a : A) N E s : N a s -> wp (ret a) N E s.
Proof. exact (fun H => H). Qed.

Lemma wp_throw (e : Thrown) (N : A -> Sys -> Prop) E s : E e s -> wp (throw e) N E s.
Proof. exact (fun H => H). Qed.

Lemma wp_gets (f : Sys -> A) N E s : N (f s) s -> wp (gets f) N E s.
Proof. exact (fun H => H). Qed.

Lemma wp_modify (f : Sys -> Sys) N E s : N tt (f s) -> wp (modify f) N E s.
Proof. exact (fun H => H). Qed.

Lemma wp_bind (m : M A) (f : A -> M B) N E s :
  wp m (fun a => wp (f a) N E) E s -> wp (bind m f) N E s.
Proof.
  unfold wp, bind. destruct (m s) as [[a | e |] s']; auto.
Qed.

Lemma wp_catch (m : M A) (h : Thrown -> M A) N E s :
  wp m N (fun e => wp (h e) N E) s -> wp (tryCatch m h) N E s.
Proof.
  unfold wp, tryCatch. destruct (m s) as [[a | e |] s']; auto.
Qed.

Lemma wp_finally (m : M A) (fin : Sys -> Sys) N E s :
  wp m (fun a s' => N a (fin s')) (fun e s' => E e (fin s')) s ->
  wp (tryFinally m fin) N E s.
Proof.
  unfold wp, tryFinally. destruct (m s) as [[a | e |] s']; auto.
Qed.

Lemma wp_attempt (m : M A) (N : Thrown + A -> Sys -> Prop) E s :
  wp m (fun a => N (inr a)) (fun e => N (inl e)) s -> wp (attempt m) N E s.
Proof.
  unfold wp, attempt. destruct (m s) as [[a | e |] s']; auto.
Qed.

Lemma wp_mono (m : M A) (N N' : A -> Sys -> Prop) E E' s :
  wp m N E s ->
  (forall a s', N a s' -> N' a s') ->
  (forall e s', E e s' -> E' e s') ->
  wp m N' E' s.
Proof.
  unfold wp. destruct (m s) as [[a | e |] s']; auto.
Qed.

(** What [wp] says about the value of [m s]. *)
Lemma wp_run (m : M A) N E s :
  wp m N E s ->
  match fst (m s) with
  | Ret a => N a (snd (m s))
  | Throw e => E e (snd (m s))
  | Hang => False
  end.
Proof.
  unfold wp. destruct (m s) as [[a | e |] s']; auto.
Qed.

End WpRules.

Lemma wp_forEach {A} (I : Sys -> Prop) (E : Thrown -> Sys -> Prop)
  (l : list A) (body : A -> M unit) :
  (forall x s, I s -> wp (body x) (fun _ => I) E s) ->
  forall s, I s -> wp (forEach l body) (fun _ => I) E s.
Proof.
  intros Hb. induction l as [| x r IH]; intros s Hs.
  - exact Hs.
  - cbn [forEach]. apply wp_bind.
    eapply wp_mono; [ apply Hb; exact Hs | | auto ].
    intros u s' Hs'. apply IH. exact Hs'.
Qed.

(** Using a proved [keeps] in the middle of a computation. *)
Lemma wp_keeps {A} (I : Sys -> Prop) (m : M A) N E s :
  keeps I m -> I s ->
  (forall a s', I s' -> N a s') ->
  (forall e s', I s' -> E e s') ->
  wp m N E s.
Proof.
  intros Hk Hs HN HE. eapply wp_mono; [ apply Hk; exact Hs | | ]; cbn; auto.
Qed.

(** One step of symbolic execution through the combinators. *)
Ltac wp_step :=
  lazymatch goal with
  | |- wp (bind _ _) _ _ _ => apply wp_bind
  | |- wp (ret _) _ _ _ => apply wp_ret
  | |- wp (throw _) _ _ _ => apply wp_throw
  | |- wp (gets _) _ _ _ => apply wp_gets
  | |- wp (modify _) _ _ _ => apply wp_modify
  | |- wp (tryCatch _ _) _ _ _ => apply wp_catch
  | |- wp (tryFinally _ _) _ _ _ => apply wp_finally
  | |- wp (attempt _) _ _ _ => apply wp_attempt
  | |- wp (when ?b _) _ _ _ => unfold when
  | |- wp (if ?b then _ else _) _ _ _ => destruct b eqn:?
  | |- wp (match ?x with _ => _ end) _ _ _ => destruct x eqn:?
  end.

Ltac wp_steps := repeat (wp_step; cbv beta).

(* ================================================================== *)
(** ** Calls run in one go: the link and the send queue *)

Lemma Ready_Inv s : Ready s -> Inv s.
Proof. unfold Ready, Inv. tauto. Qed.

Lemma Inv_coreOnly : coreOnly Inv.
Proof. unfold coreOnly, Inv, queueBounded. intros s s' -> -> ->. auto. Qed.

Lemma Ready_coreOnly : coreOnly Ready.
Proof. unfold coreOnly, Ready, queueBounded. intros s s' _ -> ->. auto. Qed.

Lemma queueBounded_coreOnly : coreOnly queueBounded.
Proof. unfold coreOnly, queueBounded. intros s s' _ _ ->. auto. Qed.

Lemma push_bounded {A} (q : list A) (x : A) :
  (length q <= QUEUE_MAX)%nat ->
  (length ((if (QUEUE_MAX <=? length q)%nat then tl q else q) ++ [x]) <= QUEUE_MAX)%nat.
Proof.
  intros H. rewrite length_app. cbn [length].
  destruct (QUEUE_MAX <=? length q)%nat eqn:E.
  - apply Nat.leb_le in E. destruct q; cbn in *; [ unfold QUEUE_MAX in E; lia | lia ].
  - apply Nat.leb_gt in E. lia.
Qed.

Ltac frame :=
  unfold Inv, Ready, queueBounded in *; cbn in *;
  intuition (try congruence; try lia).

(** Runs a computation whose [keeps] lemma is [L]. *)
Ltac wp_use L :=
  eapply (wp_keeps _ _ _ _ _ L); [ try solve [frame] | intros ? ? ? | intros ? ? ? ].

Ltac wp_go := repeat (wp_step; cbv beta).

Create HintDb keepdb.

Section Invariants.

Variable host : Host.

Lemma awaitIo_wp N E s :
  (ioReply host (tick s) = None -> N tt (set_tick (S (tick s)) s)) ->
  (forall e, ioReply host (tick s) = Some e -> E e (set_tick (S (tick s)) s)) ->
  wp (awaitIo host) N E s.
Proof.
  intros HN HE. unfold wp, awaitIo.
  destruct (ioReply host (tick s)) as [e |]; auto.
Qed.

Lemma requestDevice_wp acceptAll N E s :
  (forall d, pickReply host (tick s) = inr d ->
             N d (set_tick (S (tick s)) (set_log (log s ++ [TRequest acceptAll]) s))) ->
  (forall e, pickReply host (tick s) = inl e ->
             E e (set_tick (S (tick s)) (set_log (log s ++ [TRequest acceptAll]) s))) ->
  wp (requestDevice host acceptAll) N E s.
Proof.
  intros HN HE. unfold wp, requestDevice, bind, record, modify. cbn.
  destruct (pickReply host (tick s)) as [e | d]; auto.
Qed.

(** *** Computations that leave the link and the queue alone *)

Section CoreOnly.

Variable I : Sys -> Prop.
Hypothesis I_core : coreOnly I.

Ltac core :=
  match goal with
  | H : I ?s0 |- I _ => apply (I_core s0); [ reflexivity | reflexivity | reflexivity | exact H ]
  end.

Ltac neutral := intros s H; wp_go; core.

Lemma awaitIo_keeps : keeps I (awaitIo host).
Proof. intros s H. apply awaitIo_wp; intros; core. Qed.

Lemma requestDevice_keeps acceptAll : keeps I (requestDevice host acceptAll).
Proof. intros s H. apply requestDevice_wp; intros; core. Qed.

Lemma record_keeps c : keeps I (record c).
Proof. unfold record. neutral. Qed.

Lemma gattConnectCall_keeps d : keeps I (gattConnectCall d).
Proof. apply record_keeps. Qed.

Lemma gattConnectSettle_keeps d : keeps I (gattConnectSettle host d).
Proof.
  intros s H. unfold gattConnectSettle. wp_go.
  wp_use awaitIo_keeps; auto. wp_go. core.
Qed.

Lemma gattDisconnect_keeps d : keeps I (gattDisconnect d).
Proof. unfold gattDisconnect, record. neutral. Qed.

Lemma gattConnected_keeps d : keeps I (gattConnected d).
Proof. unfold gattConnected. neutral. Qed.

Lemma writeValue_keeps ch data : keeps I (writeValue host ch data).
Proof.
  intros s H. unfold writeValue, record. wp_go.
  wp_use awaitIo_keeps; auto. core.
Qed.

Lemma setError_keeps e : keeps I (setError e).
Proof. unfold setError. neutral. Qed.

Lemma clearError_keeps : keeps I clearError.
Proof. unfold clearError. neutral. Qed.

Lemma stopPolling_keeps : keeps I stopPolling.
Proof. unfold stopPolling. neutral. Qed.

Lemma startPolling_keeps : keeps I startPolling.
Proof. unfold startPolling, stopPolling. neutral. Qed.

Lemma stopReconnectTimer_keeps : keeps I stopReconnectTimer.
Proof. unfold stopReconnectTimer. neutral. Qed.

Lemma scheduleReconnect_keeps : keeps I scheduleReconnect.
Proof. unfold scheduleReconnect. neutral. Qed.

Lemma rememberDevice_keeps d : keeps I (rememberDevice d).
Proof. unfold rememberDevice. neutral. Qed.

Lemma setActive_keeps d : keeps I (setActive d).
Proof. unfold setActive. neutral. Qed.

Lemma attachDevice_keeps d : keeps I (attachDevice d).
Proof. unfold attachDevice, setActive, rememberDevice. neutral. Qed.

Lemma onNotification_keeps v : keeps I (onNotification v).
Proof.
  unfold onNotification, updateStateFromText. intros s H. wp_go.
  apply (I_core s); [ | | | exact H ].
  all: cbn; repeat match goal with |- context [if ?b then _ else _] => destruct b end;
    reflexivity.
Qed.

Lemma whenOn_keeps : keeps I whenOn.
Proof. unfold whenOn. neutral. Qed.

Lemma whenOff_keeps : keeps I whenOff.
Proof. unfold whenOff. neutral. Qed.

Lemma whenConnected_keeps : keeps I whenConnected.
Proof. unfold whenConnected. neutral. Qed.

Lemma whenDisconnected_keeps : keeps I whenDisconnected.
Proof. unfold whenDisconnected. neutral. Qed.

End CoreOnly.

Hint Resolve Inv_coreOnly Ready_coreOnly queueBounded_coreOnly : keepdb.
Hint Resolve awaitIo_keeps requestDevice_keeps record_keeps gattConnectCall_keeps
  gattConnectSettle_keeps gattDisconnect_keeps gattConnected_keeps writeValue_keeps
  setError_keeps clearError_keeps stopPolling_keeps startPolling_keeps
  stopReconnectTimer_keeps scheduleReconnect_keeps rememberDevice_keeps setActive_keeps
  attachDevice_keeps onNotification_keeps whenOn_keeps whenOff_keeps whenConnected_keeps
  whenDisconnected_keeps : keepdb.

(** Runs the computation at the head of the goal by a lemma that says it
    keeps [I]. *)
Ltac wp_call I :=
  eapply (wp_keeps I);
  [ solve [ eauto 3 with keepdb ]
  | try solve [ frame ]
  | intros ? ? ?; cbv beta
  | intros ? ? ?; cbv beta; try assumption; try (apply Ready_Inv; assumption) ].

(** *** The three cases of [sendAscii] *)

Lemma sendAscii_write str s ch :
  connected s = true -> rxChar s = Some ch ->
  sendAscii host str s = writeValue host ch str s.
Proof. intros Hc Hr. unfold sendAscii, bind, gets. rewrite Hc, Hr. reflexivity. Qed.

Lemma sendAscii_queue str s :
  connected s = false \/ rxChar s = None -> wantReconnect s = true ->
  sendAscii host str s = enqueue str s.
Proof.
  intros Hc Hw. unfold sendAscii, bind, gets. cbv beta iota.
  destruct (connected s); destruct (rxChar s); rewrite ?Hw; try reflexivity.
  destruct Hc; discriminate.
Qed.

Lemma sendAscii_throw str s :
  connected s = false \/ rxChar s = None -> wantReconnect s = false ->
  sendAscii host str s = (Throw notConnected, s).
Proof.
  intros Hc Hw. unfold sendAscii, bind, gets. cbv beta iota.
  destruct (connected s); destruct (rxChar s); rewrite ?Hw; try reflexivity.
  destruct Hc; discriminate.
Qed.

Lemma bind_ret_unit (m : M unit) s : (m ;; ret tt) s = m s.
Proof. unfold bind, ret. destruct (m s) as [[[] | e |] s']; reflexivity. Qed.

Lemma enqueue_run str s :
  enqueue str s =
  scheduleReconnect
    (set_sendQueue
       ((if (QUEUE_MAX <=? length (sendQueue s))%nat then tl (sendQueue s) else sendQueue s)
          ++ [str]) s).
Proof.
  rewrite <- (bind_ret_unit scheduleReconnect).
  unfold enqueue. unfold bind at 1. unfold gets. cbv beta iota.
  destruct (QUEUE_MAX <=? length (sendQueue s))%nat; reflexivity.
Qed.

Lemma enqueue_Inv str : keeps Inv (enqueue str).
Proof.
  intros s H. unfold wp. rewrite enqueue_run.
  apply (scheduleReconnect_keeps Inv Inv_coreOnly).
  destruct H as [H1 H2]. split; [ exact H1 | ].
  unfold queueBounded. cbn. apply push_bounded. exact H2.
Qed.

Lemma enqueue_Ready str : keeps Ready (enqueue str).
Proof.
  intros s H. unfold wp. rewrite enqueue_run.
  apply (scheduleReconnect_keeps Ready Ready_coreOnly).
  destruct H as [H1 H2]. split; [ exact H1 | ].
  unfold queueBounded. cbn. apply push_bounded. exact H2.
Qed.

Hint Resolve enqueue_Inv enqueue_Ready : keepdb.

Lemma sendAscii_Inv str : keeps Inv (sendAscii host str).
Proof.
  intros s H. unfold sendAscii. wp_go; try exact H; wp_call Inv; auto.
Qed.

Lemma sendAscii_Ready str : keeps Ready (sendAscii host str).
Proof.
  intros s H. unfold sendAscii. wp_go; try exact H; wp_call Ready; auto.
Qed.

Hint Resolve sendAscii_Inv sendAscii_Ready : keepdb.

(** *** The drain loop and [onConnected] *)

(** With a write characteristic at hand every turn of the loop takes one
    token off the queue, so a bound above the queue's length is never
    used up; and the loop does not throw. *)
Lemma drain_Ready fuel :
  forall s, Ready s -> (length (sendQueue s) < fuel)%nat ->
            wp (drain host fuel) (fun _ => Ready) (fun _ _ => False) s.
Proof.
  induction fuel as [| fuel IH]; intros s H Hlen; [ lia | ].
  cbn [drain]. apply wp_bind, wp_gets, wp_bind, wp_gets.
  destruct (sendQueue s) as [| tok rest] eqn:Eq; [ exact H | ].
  destruct (connected s) eqn:Ec; [ | exact H ].
  apply wp_bind, wp_modify, wp_bind, wp_attempt.
  set (I := fun s' => Ready s' /\ (length (sendQueue s') < fuel)%nat).
  assert (Ic : coreOnly I).
  { intros s1 s2 E1 E2 E3 [R L]. split.
    - exact (Ready_coreOnly s1 s2 E1 E2 E3 R).
    - rewrite E3. exact L. }
  assert (Hi : I (set_sendQueue rest s)).
  { destruct H as [H1 H2]. unfold I, Ready, queueBounded in *. cbn.
    rewrite Eq in H2. cbn in Hlen, H2. repeat split; auto; lia. }
  destruct (rxChar s) as [ch |] eqn:Er; [ | destruct H as [H _]; contradiction ].
  unfold wp at 1. rewrite (sendAscii_write tok _ ch) by (cbn; assumption).
  eapply (wp_keeps I); [ apply writeValue_keeps; exact Ic | exact Hi | | ].
  - intros _ s' [R L]. apply IH; assumption.
  - intros e s' [R L]. cbv beta.
    unfold setError. apply wp_modify.
    apply (Ready_coreOnly s'); [ reflexivity | reflexivity | reflexivity | exact R ].
Qed.

Lemma onConnected_Ready s :
  Ready s -> wp (onConnected host) (fun _ => Ready) (fun _ _ => False) s.
Proof.
  intros H. unfold onConnected, markConnected, clearError, startPolling, stopPolling. wp_go.
  all: apply drain_Ready; [ | cbn; lia ].
  all: destruct H as [H1 H2]; split; [ exact H1 | exact H2 ].
Qed.

(** [setupGatt] leaves a write characteristic when it succeeds and does
    not take one away when it fails. *)
Lemma setupGatt_Inv s :
  Inv s -> wp (setupGatt host) (fun _ => Ready) (fun _ => Inv) s.
Proof.
  intros H. unfold setupGatt. wp_go; [ | exact H ].
  wp_call Inv. wp_go. wp_call Inv. wp_go. wp_call Inv. wp_go. wp_call Inv. wp_go.
  wp_call Ready. wp_go. wp_call Ready. wp_go. wp_call Ready. wp_go.
  wp_call Ready. assumption.
Qed.

Lemma openLink_Inv d : keeps Inv (openLink host d).
Proof.
  intros s H. unfold openLink. wp_go. wp_call Inv. wp_go.
  eapply wp_mono; [ apply setupGatt_Inv; frame | | auto ].
  intros u1 s1 H1. cbv beta in H1 |- *.
  eapply wp_mono; [ apply onConnected_Ready; exact H1 | | contradiction ].
  intros u2 s2 H2. apply Ready_Inv. exact H2.
Qed.

Hint Resolve openLink_Inv : keepdb.

Lemma requestAndConnect_Inv : keeps Inv (requestAndConnect host).
Proof.
  intros s H. unfold requestAndConnect. wp_go.
  wp_call Inv.
  - wp_go. wp_call Inv. wp_go. wp_call Inv. wp_go. wp_call Inv; assumption.
  - wp_call Inv. wp_go. wp_call Inv. wp_go. wp_call Inv. wp_go. wp_call Inv; assumption.
Qed.

Lemma reconnect_Inv : keeps Inv (reconnect host).
Proof.
  intros s H. unfold reconnect, gattConnected. wp_go; try exact H.
  wp_call Inv. wp_go. wp_call Inv; frame.
Qed.

Hint Resolve requestAndConnect_Inv reconnect_Inv : keepdb.

(** Symbolic execution in which every call is run by its [keeps] lemma. *)
Ltac wp_all I :=
  repeat (first [ wp_step; cbv beta | wp_call I ]);
  try assumption; try solve [ frame ].

Lemma readState_Inv : keeps Inv (readState host).
Proof. apply sendAscii_Inv. Qed.

Hint Resolve readState_Inv : keepdb.

Lemma handleDisconnected_Inv : keeps Inv handleDisconnected.
Proof. intros s H. unfold handleDisconnected. wp_all Inv. Qed.

Lemma reconnectTimerFired_Inv : keeps Inv (reconnectTimerFired host).
Proof. intros s H. unfold reconnectTimerFired. wp_all Inv. Qed.

Lemma pollTick_Inv : keeps Inv (pollTick host).
Proof. intros s H. unfold pollTick. wp_all Inv. Qed.

Lemma disconnectInternal_Inv forget : keeps Inv (disconnectInternal forget).
Proof.
  intros s H. unfold disconnectInternal, gattConnected, stopPolling. wp_all Inv.
Qed.

Hint Resolve handleDisconnected_Inv reconnectTimerFired_Inv pollTick_Inv
  disconnectInternal_Inv : keepdb.

Lemma onVisibilityChange_Inv hidden : keeps Inv (onVisibilityChange hidden).
Proof. intros s H. unfold onVisibilityChange. wp_all Inv. Qed.

Lemma onBeforeUnload_Inv : keeps Inv onBeforeUnload.
Proof. intros s H. unfold onBeforeUnload, gattConnected. wp_all Inv. Qed.

Lemma connectSendById_Inv id action : keeps Inv (connectSendById host id action).
Proof.
  intros s H. unfold connectSendById, resolveAndOpen, applyAction, gattConnected.
  wp_all Inv.
Qed.

Lemma btnConnect_Inv : keeps Inv (btnConnect host).
Proof. intros s H. unfold btnConnect, declareIntent. wp_all Inv. Qed.

Lemma connectById_Inv argId : keeps Inv (connectById host argId).
Proof. intros s H. unfold connectById, declareIntent, retryByScan. wp_all Inv. Qed.

Lemma disconnect_Inv : keeps Inv disconnect.
Proof. intros s H. unfold disconnect. wp_all Inv. Qed.

Lemma forgetCurrent_Inv : keeps Inv forgetCurrent.
Proof. intros s H. unfold forgetCurrent. wp_all Inv. Qed.

Hint Resolve forgetCurrent_Inv : keepdb.

Lemma forgetById_Inv argId : keeps Inv (forgetById argId).
Proof. intros s H. unfold forgetById. wp_all Inv. Qed.

Lemma forgetAll_Inv : keeps Inv forgetAll.
Proof. intros s H. unfold forgetAll. wp_all Inv. Qed.

Lemma setReconnect_Inv state : keeps Inv (setReconnect state).
Proof. intros s H. unfold setReconnect. wp_all Inv. Qed.

Lemma setPoll_Inv ms : keeps Inv (setPoll ms).
Proof. intros s H. unfold setPoll. wp_all Inv. Qed.

Lemma rethrowing_Inv m : keeps Inv m -> keeps Inv (rethrowing m).
Proof.
  intros Hm s H. unfold rethrowing. apply wp_catch.
  eapply (wp_keeps Inv); [ exact Hm | exact H | auto | ].
  intros e s' H'. cbv beta. wp_all Inv.
Qed.

Lemma clearQueue_Inv : keeps Inv clearQueue.
Proof. intros s H. unfold clearQueue. wp_all Inv. Qed.

(** A turn of the bulk loop catches whatever its body throws. *)
Lemma bulkStep_Inv act id s :
  Inv s -> wp (bulkStep host act id) (fun _ => Inv) (fun _ _ => False) s.
Proof.
  intros H. unfold bulkStep. apply wp_catch.
  eapply (wp_keeps Inv); [ apply connectSendById_Inv | exact H | auto | ].
  intros e s' H'. unfold setError. wp_go. exact H'.
Qed.

Lemma bulkCsv_Inv argCsv argAct s :
  Inv s -> wp (bulkCsv host argCsv argAct) (fun _ => Inv) (fun _ _ => False) s.
Proof.
  intros H. unfold bulkCsv, bulkApply, clearError. wp_go; [ exact H | ].
  apply wp_forEach; [ | exact H ].
  intros id s' H'. apply bulkStep_Inv. exact H'.
Qed.

Lemma run_Inv a : keeps Inv (run host a).
Proof.
  destruct a; cbn [run].
  - apply btnConnect_Inv.
  - apply connectById_Inv.
  - apply disconnect_Inv.
  - apply forgetCurrent_Inv.
  - apply forgetById_Inv.
  - apply forgetAll_Inv.
  - apply setReconnect_Inv.
  - apply setPoll_Inv.
  - apply rethrowing_Inv, sendAscii_Inv.
  - apply rethrowing_Inv, sendAscii_Inv.
  - apply rethrowing_Inv, sendAscii_Inv.
  - apply rethrowing_Inv, readState_Inv.
  - apply rethrowing_Inv, sendAscii_Inv.
  - apply clearQueue_Inv.
  - intros s H. eapply wp_mono; [ apply bulkCsv_Inv; exact H | auto | contradiction ].
  - intros s H. wp_all Inv.
  - intros s H. wp_all Inv.
  - intros s H. wp_all Inv.
  - intros s H. wp_all Inv.
  - apply onNotification_keeps, Inv_coreOnly.
  - intros s H. wp_all Inv.
  - intros s H. wp_all Inv.
  - intros s H. wp_all Inv.
  - apply onVisibilityChange_Inv.
  - apply onBeforeUnload_Inv.
Qed.



End Invariants.

(* ================================================================== *)
(** ** The registry as a map: lookup after update and after removal *)

Module Registry.

Lemma get_In id m e : KnownMap.get id m = Some e -> In (id, e) m.
Proof.
  induction m as [| [k v] r IH]; cbn; [ discriminate | ].
  destruct (String.eqb k id) eqn:E.
  - intros H. injection H as <-. apply String.eqb_eq in E. subst. left. reflexivity.
  - intros H. right. apply IH. exact H.
Qed.

Lemma get_set_same id v m : KnownMap.get id (KnownMap.set id v m) = Some v.
Proof.
  induction m as [| [k w] r IH]; cbn.
  - rewrite String.eqb_refl. reflexivity.
  - destruct (String.eqb k id) eqn:E; cbn; rewrite E; [ reflexivity | exact IH ].
Qed.

Lemma get_set_other id id' v m :
  id' <> id -> KnownMap.get id' (KnownMap.set id v m) = KnownMap.get id' m.
Proof.
  intros Hn. induction m as [| [k w] r IH]; cbn.
  - destruct (String.eqb id id') eqn:E; [ | reflexivity ].
    apply String.eqb_eq in E. congruence.
  - destruct (String.eqb k id) eqn:E; cbn.
    + apply String.eqb_eq in E. subst k.
      destruct (String.eqb id id') eqn:E'; [ | reflexivity ].
      apply String.eqb_eq in E'. congruence.
    + destruct (String.eqb k id'); [ reflexivity | exact IH ].
Qed.

Lemma get_delete_same id m : KnownMap.get id (KnownMap.delete id m) = None.
Proof.
  induction m as [| [k w] r IH]; cbn; [ reflexivity | ].
  destruct (String.eqb k id) eqn:E; cbn; [ exact IH | rewrite E; exact IH ].
Qed.

Lemma get_delete_other id id' m :
  id' <> id -> KnownMap.get id' (KnownMap.delete id m) = KnownMap.get id' m.
Proof.
  intros Hn. induction m as [| [k w] r IH]; cbn; [ reflexivity | ].
  destruct (String.eqb k id) eqn:E; cbn.
  - apply String.eqb_eq in E. subst k.
    destruct (String.eqb id id') eqn:E'; [ | exact IH ].
    apply String.eqb_eq in E'. congruence.
  - destruct (String.eqb k id'); [ reflexivity | exact IH ].
Qed.

Lemma keys_set id v m :
  KnownMap.keys (KnownMap.set id v m)
  = if existsb (String.eqb id) (KnownMap.keys m) then KnownMap.keys m
    else (KnownMap.keys m ++ [id])%list.
Proof.
  induction m as [| [k w] r IH]; cbn; [ reflexivity | ].
  destruct (String.eqb k id) eqn:E; cbn.
  - rewrite String.eqb_sym, E. reflexivity.
  - rewrite String.eqb_sym, E. cbn. unfold KnownMap.keys in *. rewrite IH.
    destruct (existsb (String.eqb id) (map fst r)); reflexivity.
Qed.

Lemma In_set k e id v m :
  In (k, e) (KnownMap.set id v m) -> (k = id /\ e = v) \/ In (k, e) m.
Proof.
  induction m as [| [k' w] r IH]; cbn.
  - intros [H | []]. injection H as <- <-. left. auto.
  - destruct (String.eqb k' id) eqn:E; cbn.
    + apply String.eqb_eq in E. subst k'.
      intros [H | H]; [ injection H as <- <-; left; auto | right; right; exact H ].
    + intros [H | H]; [ right; left; exact H | ].
      destruct (IH H) as [L | R]; [ left; exact L | right; right; exact R ].
Qed.

Lemma existsb_eqb_In id l : existsb (String.eqb id) l = true <-> In id l.
Proof.
  rewrite existsb_exists. split.
  - intros (x & Hx & E). apply String.eqb_eq in E. subst. exact Hx.
  - intros H. exists id. split; [ exact H | apply String.eqb_refl ].
Qed.

Lemma knownOk_set d m :
  knownOk m ->
  knownOk (KnownMap.set (dev_id d)
             {| ent_id := dev_id d; ent_name := dev_name d; ent_device := d |} m).
Proof.
  intros [Hn Hw]. split.
  - rewrite keys_set.
    destruct (existsb (String.eqb (dev_id d)) (KnownMap.keys m)) eqn:E; [ exact Hn | ].
    apply NoDup_app; [ exact Hn | constructor; [ intros [] | constructor ] | ].
    intros x Hx [<- | []].
    apply existsb_eqb_In in Hx. congruence.
  - intros k e H. destruct (In_set _ _ _ _ _ H) as [[-> ->] | H'].
    + cbn. auto.
    + apply Hw. exact H'.
Qed.

Lemma knownOk_delete id m : knownOk m -> knownOk (KnownMap.delete id m).
Proof.
  intros [Hn Hw]. split.
  - unfold KnownMap.delete, KnownMap.keys in *.
    induction m as [| [k w] r IH]; cbn; [ constructor | ].
    inversion Hn as [| x l Hx Hl]; subst.
    assert (Hr : forall k0 e, In (k0, e) r -> ent_id e = k0 /\ dev_id (ent_device e) = k0
                                              /\ ent_name e = dev_name (ent_device e)).
    { intros k0 e H. apply Hw. right. exact H. }
    destruct (String.eqb k id); cbn; [ apply IH; assumption | ].
    constructor; [ | apply IH; assumption ].
    intros Hin. apply Hx. apply in_map_iff in Hin. destruct Hin as ([k1 e1] & E1 & Hin).
    apply filter_In in Hin. destruct Hin as [Hin _]. cbn in E1. subst k1.
    apply in_map_iff. exists (k, e1). auto.
  - intros k e H. apply filter_In in H. destruct H as [H _]. apply Hw. exact H.
Qed.

Lemma knownOk_nil : knownOk [].
Proof. split; [ constructor | intros k e [] ]. Qed.

(** What is found under an id is the entry of a device with that id. *)
Lemma knownOk_get id m e :
  knownOk m -> KnownMap.get id m = Some e ->
  e = {| ent_id := dev_id (ent_device e); ent_name := dev_name (ent_device e);
         ent_device := ent_device e |}
  /\ dev_id (ent_device e) = id.
Proof.
  intros [_ Hw] Hg. destruct (Hw id e (get_In id m e Hg)) as (H1 & H2 & H3).
  split; [ | exact H2 ].
  destruct e as [i n d]. cbn in *. subst. reflexivity.
Qed.

End Registry.

(* ================================================================== *)
(** ** Soundness of the bookkeeping: stretches without [await] *)

Lemma Sound_shapeOnly : shapeOnly Sound.
Proof.
  unfold shapeOnly, Sound, queueBounded, timersOk, trackerOk, activeOk.
  intros s s' E1 E2 E3 E4 E5 E6 E7 E8 E9 E10 E11 E12 E13 E14 E15.
  rewrite E1, E3, E4, E5, E6, E7, E8, E9, E10, E11, E12, E13, E14, E15. auto.
Qed.

Lemma Sound_tickFree : tickFree Sound.
Proof. intros n s H. apply (Sound_shapeOnly s); [ reflexivity .. | exact H ]. Qed.

(** Opens [Sound] in the goal and in the hypotheses and settles what is
    left by cases on the active device and on the timers. *)
Ltac sound_open :=
  unfold Sound, queueBounded, timersOk, trackerOk, activeOk, backoffMax in *;
  cbn in *;
  repeat match goal with
         | H : _ /\ _ |- _ => destruct H
         end.

Ltac sound_fin :=
  repeat match goal with
         | |- knownOk _ =>
           first [ assumption
                 | apply Registry.knownOk_set; assumption
                 | apply Registry.knownOk_delete; assumption
                 | apply Registry.knownOk_nil ]
         | |- _ /\ _ => split
         | |- forall _, _ => intro
         | H : Some _ = Some _ |- _ => injection H as H; try subst
         | H : forall ms, ?t = Some ms -> _, E : ?t = Some ?x |- _ => specialize (H x E)
         | H : _ /\ _ |- _ => destruct H
         | H : context [match device ?s with _ => _ end] |- _ => destruct (device s) eqn:?
         | |- context [match device ?s with _ => _ end] => destruct (device s) eqn:?
         | H : (_ && _)%bool = true |- _ => apply andb_prop in H
         | H : negb ?b = _ |- _ => destruct b eqn:?; cbn in H; try discriminate H; clear H
         | H : (_ <? _) = true |- _ => apply Z.ltb_lt in H
         | H : (_ =? _) = true |- _ => apply Z.eqb_eq in H
         end;
  try congruence; try lia; auto.

Ltac sound := sound_open; sound_fin.

Create HintDb sounddb.

(** Drops what is known of the states before [s']. *)
Ltac only_at s' :=
  repeat match goal with
         | H : Sound ?t |- _ => lazymatch t with s' => fail | _ => clear H end
         end.

(** Runs the computation at the head of the goal by a lemma that says it
    keeps [I]. *)
Ltac wp_sound I :=
  eapply (wp_keeps I);
  [ solve [ eauto 3 with sounddb ]
  | try assumption; try solve [ sound ]
  | let s' := fresh "s" in intros ? s' ?; cbv beta; only_at s'
  | let s' := fresh "s" in intros ? s' ?; cbv beta; only_at s'; try assumption ].

Ltac wp_every I :=
  repeat (first [ wp_step; cbv beta | wp_sound I ]);
  try assumption; try solve [ sound ].

Section Soundness.

(** *** Computations that leave the bookkeeping alone *)

Section ShapeOnly.

Variable I : Sys -> Prop.
Hypothesis I_shape : shapeOnly I.

Ltac shape :=
  match goal with
  | H : I ?s0 |- I _ => apply (I_shape s0); [ reflexivity .. | exact H ]
  end.

Ltac still := intros s H; wp_go; shape.

Lemma record_still c : keeps I (record c).
Proof. unfold record. still. Qed.

Lemma gattConnectCall_still d : keeps I (gattConnectCall d).
Proof. apply record_still. Qed.

Lemma gattDisconnect_still d : keeps I (gattDisconnect d).
Proof. unfold gattDisconnect, record. still. Qed.

Lemma gattConnected_still d : keeps I (gattConnected d).
Proof. unfold gattConnected. still. Qed.

Lemma setError_still e : keeps I (setError e).
Proof. unfold setError. still. Qed.

Lemma clearError_still : keeps I clearError.
Proof. unfold clearError. still. Qed.

Lemma whenOn_still : keeps I whenOn.
Proof. unfold whenOn. still. Qed.

Lemma whenOff_still : keeps I whenOff.
Proof. unfold whenOff. still. Qed.

Lemma whenConnected_still : keeps I whenConnected.
Proof. unfold whenConnected. still. Qed.

Lemma whenDisconnected_still : keeps I whenDisconnected.
Proof. unfold whenDisconnected. still. Qed.

End ShapeOnly.

Hint Resolve Sound_shapeOnly : sounddb.
Hint Resolve record_still gattConnectCall_still gattDisconnect_still gattConnected_still
  setError_still clearError_still whenOn_still whenOff_still whenConnected_still
  whenDisconnected_still : sounddb.

(** *** Timers *)

Lemma stopPolling_Sound : keeps Sound stopPolling.
Proof. intros s H. unfold stopPolling. wp_go; sound. Qed.

Lemma startPolling_Sound : keeps Sound startPolling.
Proof. intros s H. unfold startPolling, stopPolling. wp_go; sound. Qed.

Lemma stopReconnectTimer_Sound : keeps Sound stopReconnectTimer.
Proof. intros s H. unfold stopReconnectTimer. wp_go; sound. Qed.

Lemma scheduleReconnect_Sound : keeps Sound scheduleReconnect.
Proof. intros s H. unfold scheduleReconnect. wp_go; sound. Qed.

Hint Resolve stopPolling_Sound startPolling_Sound stopReconnectTimer_Sound
  scheduleReconnect_Sound : sounddb.

(** *** The registry and the active device *)

Lemma onNotification_Sound v : keeps Sound (onNotification v).
Proof.
  intros s H. unfold onNotification, updateStateFromText. wp_go.
  sound_open.
  repeat match goal with |- context [if ?b then _ else _] => destruct b end;
    cbn; sound_fin.
Qed.

Lemma setActive_Sound d : keeps Sound (setActive d).
Proof. intros s H. unfold setActive. wp_go. sound. Qed.

Lemma attachDevice_Sound d : keeps Sound (attachDevice d).
Proof. intros s H. unfold attachDevice, setActive, rememberDevice. wp_go. sound. Qed.

Hint Resolve onNotification_Sound setActive_Sound attachDevice_Sound : sounddb.

(** *** Sending and connecting *)

Lemma enqueue_Sound str : keeps Sound (enqueue str).
Proof.
  intros s H. unfold wp. rewrite enqueue_run.
  apply scheduleReconnect_Sound.
  pose proof (push_bounded (sendQueue s) str) as P.
  sound_open. sound_fin.
Qed.

Lemma markConnected_Sound : keeps Sound markConnected.
Proof.
  intros s H. unfold markConnected, clearError, startPolling, stopPolling. wp_go; sound.
Qed.

Lemma declareIntent_Sound : keeps Sound declareIntent.
Proof. intros s H. unfold declareIntent, clearError, stopReconnectTimer. wp_go; sound. Qed.

Hint Resolve enqueue_Sound markConnected_Sound declareIntent_Sound : sounddb.

(** *** Events *)

Lemma handleDisconnected_Sound : keeps Sound handleDisconnected.
Proof.
  intros s H. unfold handleDisconnected, stopPolling, scheduleReconnect. wp_go; sound.
Qed.

Lemma onVisibilityChange_Sound hidden : keeps Sound (onVisibilityChange hidden).
Proof. intros s H. unfold onVisibilityChange. wp_every Sound. Qed.

Lemma onBeforeUnload_Sound : keeps Sound onBeforeUnload.
Proof.
  intros s H. unfold onBeforeUnload, stopReconnectTimer, stopPolling, gattConnected.
  wp_every Sound.
Qed.

Hint Resolve handleDisconnected_Sound onVisibilityChange_Sound onBeforeUnload_Sound : sounddb.

(** *** Blocks *)

Lemma disconnectInternal_Sound forget : keeps Sound (disconnectInternal forget).
Proof.
  intros s H. unfold disconnectInternal, gattConnected, gattDisconnect, record, stopPolling.
  wp_go.
  all: sound.
Qed.

Hint Resolve disconnectInternal_Sound : sounddb.

Lemma disconnect_Sound : keeps Sound disconnect.
Proof. intros s H. unfold disconnect, stopReconnectTimer. wp_every Sound. Qed.

Lemma forgetCurrent_Sound : keeps Sound forgetCurrent.
Proof. intros s H. unfold forgetCurrent, stopReconnectTimer. wp_every Sound. Qed.

Lemma setReconnect_Sound state : keeps Sound (setReconnect state).
Proof.
  intros s H. unfold setReconnect, scheduleReconnect, stopReconnectTimer.
  destruct (state =? "オン")%string; wp_go; sound.
Qed.

Lemma setPoll_Sound ms : keeps Sound (setPoll ms).
Proof.
  intros s H. unfold setPoll, startPolling, stopPolling. wp_go; sound.
Qed.

Lemma clearQueue_Sound : keeps Sound clearQueue.
Proof. intros s H. unfold clearQueue. wp_go. sound. Qed.

Hint Resolve disconnect_Sound forgetCurrent_Sound setReconnect_Sound setPoll_Sound
  clearQueue_Sound : sounddb.

Lemma initial_Sound : Sound initial.
Proof.
  unfold Sound. split; [ unfold queueBounded, QUEUE_MAX; cbn; lia | ].
  split; [ apply Registry.knownOk_nil | ].
  unfold timersOk, trackerOk, activeOk, backoffMax. cbn.
  repeat split; try lia; try discriminate; auto.
Qed.

End Soundness.

#[export] Hint Resolve Sound_shapeOnly : sounddb.
#[export] Hint Resolve record_still gattConnectCall_still gattDisconnect_still
  gattConnected_still setError_still clearError_still whenOn_still whenOff_still
  whenConnected_still whenDisconnected_still : sounddb.
#[export] Hint Resolve stopPolling_Sound startPolling_Sound stopReconnectTimer_Sound
  scheduleReconnect_Sound onNotification_Sound setActive_Sound attachDevice_Sound
  enqueue_Sound markConnected_Sound declareIntent_Sound handleDisconnected_Sound
  onVisibilityChange_Sound onBeforeUnload_Sound disconnectInternal_Sound disconnect_Sound
  forgetCurrent_Sound setReconnect_Sound setPoll_Sound clearQueue_Sound : sounddb.

(* ================================================================== *)
(** ** A call run in one go is its computation in [M] *)

Section Refinement.

Variable host : Host.

Lemma atomic_bind {A B} (p : Prog A) (f : A -> Prog B) s :
  atomic host (bindP p f) s = bind (atomic host p) (fun a => atomic host (f a)) s.
Proof.
  revert s. induction p as [a | e | | k IH | g k IH | k IH | k IH | k IH]; intros s;
    cbn [bindP atomic]; unfold bind in *; cbn [atomic]; auto.
Qed.

Lemma atomic_catch {A} (p : Prog A) h s :
  atomic host (tryCatchP p h) s = tryCatch (atomic host p) (fun e => atomic host (h e)) s.
Proof.
  revert s. induction p as [a | e | | k IH | g k IH | k IH | k IH | k IH]; intros s;
    cbn [tryCatchP atomic]; unfold tryCatch in *; cbn [atomic]; auto.
Qed.

Lemma atomic_finally {A} (p : Prog A) fin s :
  atomic host (tryFinallyP p fin) s = tryFinally (atomic host p) fin s.
Proof.
  revert s. induction p as [a | e | | k IH | g k IH | k IH | k IH | k IH]; intros s;
    cbn [tryFinallyP atomic]; unfold tryFinally in *; cbn [atomic]; auto.
Qed.

Lemma atomic_attempt {A} (p : Prog A) s :
  atomic host (attemptP p) s = attempt (atomic host p) s.
Proof.
  revert s. induction p as [a | e | | k IH | g k IH | k IH | k IH | k IH]; intros s;
    cbn [attemptP atomic]; unfold attempt in *; cbn [atomic]; auto.
Qed.

Lemma atomic_await {A} (p : Prog A) s : atomic host (awaitP p) s = atomic host p s.
Proof.
  revert s. induction p as [a | e | | k IH | g k IH | k IH | k IH | k IH]; intros s;
    cbn [awaitP atomic]; auto.
Qed.

Lemma atomic_lift {A} (m : M A) s : atomic host (liftP m) s = m s.
Proof. unfold liftP. cbn [atomic]. destruct (m s) as [[a | e |] s']; reflexivity. Qed.

Lemma refines_ret {A} (a : A) : refines host (PRet a) (ret a).
Proof. intros s. reflexivity. Qed.

Lemma refines_throw {A} e : refines host (@PThrow A e) (throw e).
Proof. intros s. reflexivity. Qed.

Lemma refines_gets {A} (f : Sys -> A) : refines host (getsP f) (gets f).
Proof. intros s. reflexivity. Qed.

Lemma refines_modify g : refines host (modifyP g) (modify g).
Proof. intros s. reflexivity. Qed.

Lemma refines_lift {A} (m : M A) : refines host (liftP m) m.
Proof. intros s. apply atomic_lift. Qed.

Lemma refines_bind {A B} (p : Prog A) (f : A -> Prog B) m k :
  refines host p m -> (forall a, refines host (f a) (k a)) ->
  refines host (bindP p f) (bind m k).
Proof.
  intros Hp Hf s. rewrite atomic_bind. unfold bind. rewrite Hp.
  destruct (m s) as [[a | e |] s']; [ apply Hf | reflexivity | reflexivity ].
Qed.

Lemma refines_catch {A} (p : Prog A) h m k :
  refines host p m -> (forall e, refines host (h e) (k e)) ->
  refines host (tryCatchP p h) (tryCatch m k).
Proof.
  intros Hp Hh s. rewrite atomic_catch. unfold tryCatch. rewrite Hp.
  destruct (m s) as [[a | e |] s']; [ reflexivity | apply Hh | reflexivity ].
Qed.

Lemma refines_finally {A} (p : Prog A) fin m :
  refines host p m -> refines host (tryFinallyP p fin) (tryFinally m fin).
Proof. intros Hp s. rewrite atomic_finally. unfold tryFinally. rewrite Hp. reflexivity. Qed.

Lemma refines_attempt {A} (p : Prog A) m :
  refines host p m -> refines host (attemptP p) (attempt m).
Proof. intros Hp s. rewrite atomic_attempt. unfold attempt. rewrite Hp. reflexivity. Qed.

Lemma refines_await {A} (p : Prog A) m : refines host p m -> refines host (awaitP p) m.
Proof. intros Hp s. rewrite atomic_await. apply Hp. Qed.

Lemma refines_forEach {A} (l : list A) body mbody :
  (forall x, refines host (body x) (mbody x)) ->
  refines host (forEachP l body) (forEach l mbody).
Proof.
  intros Hb. induction l as [| x r IH]; cbn [forEachP forEach].
  - apply refines_ret.
  - apply refines_bind; [ apply Hb | intros _; exact IH ].
Qed.

Lemma refines_awaitIo : refines host awaitIoP (awaitIo host).
Proof.
  intros s. unfold awaitIoP, awaitIo. cbn [atomic].
  destruct (ioReply host (tick s)); reflexivity.
Qed.

Lemma refines_requestDevice acceptAll :
  refines host (requestDeviceP acceptAll) (requestDevice host acceptAll).
Proof.
  unfold requestDeviceP, requestDevice, recordP, record.
  apply refines_bind; [ apply refines_modify | intros _ ].
  intros s. cbn [atomic]. destruct (pickReply host (tick s)); reflexivity.
Qed.

End Refinement.

Create HintDb refinedb.

(** Settles [refines host p m] for two computations of the same shape. *)
Ltac refine_step :=
  lazymatch goal with
  | |- forall _, _ => intro
  | |- refines _ (bindP _ _) (bind _ _) => apply refines_bind
  | |- refines _ (tryCatchP _ _) (tryCatch _ _) => apply refines_catch
  | |- refines _ (tryFinallyP _ _) (tryFinally _ _) => apply refines_finally
  | |- refines _ (attemptP _) (attempt _) => apply refines_attempt
  | |- refines _ (awaitP _) _ => apply refines_await
  | |- refines _ (liftP _) _ => apply refines_lift
  | |- refines _ (getsP _) (gets _) => apply refines_gets
  | |- refines _ (modifyP _) (modify _) => apply refines_modify
  | |- refines _ (PRet _) (ret _) => apply refines_ret
  | |- refines _ (PThrow _) (throw _) => apply refines_throw
  | |- refines _ (forEachP _ _) (forEach _ _) => apply refines_forEach
  | |- refines _ (whenP _ _) (when _ _) => unfold whenP, when
  | |- refines _ awaitIoP (awaitIo _) => apply refines_awaitIo
  | |- refines _ (requestDeviceP _) (requestDevice _ _) => apply refines_requestDevice
  | |- refines _ (if ?b then _ else _) (if ?b then _ else _) => destruct b
  | |- refines _ (match ?x with _ => _ end) (match ?x with _ => _ end) => destruct x
  | |- refines _ _ _ => solve [ auto with refinedb ]
  end.

Ltac refine_go := repeat refine_step.

Section Refined.

Variable host : Host.

Lemma refines_gattConnectSettle d :
  refines host (gattConnectSettleP d) (gattConnectSettle host d).
Proof. unfold gattConnectSettleP, gattConnectSettle. refine_go. Qed.

Lemma refines_writeValue ch data :
  refines host (writeValueP ch data) (writeValue host ch data).
Proof. unfold writeValueP, writeValue, recordP, record. refine_go. Qed.

Hint Resolve refines_gattConnectSettle refines_writeValue : refinedb.

Lemma refines_sendAscii str : refines host (sendAsciiP str) (sendAscii host str).
Proof. unfold sendAsciiP, sendAscii. refine_go. Qed.

Hint Resolve refines_sendAscii : refinedb.

Lemma refines_readState : refines host readStateP (readState host).
Proof. unfold readStateP, readState. refine_go. Qed.

Hint Resolve refines_readState : refinedb.

Lemma refines_drain fuel : refines host (drainP fuel) (drain host fuel).
Proof.
  induction fuel as [| fuel IH]; cbn [drainP drain]; [ intros s; reflexivity | ].
  refine_go.
Qed.

Hint Resolve refines_drain : refinedb.

Lemma refines_onConnected : refines host (onConnectedP 0) (onConnected host).
Proof. unfold onConnectedP, onConnected. cbn [Nat.add]. refine_go. Qed.

Lemma refines_setupGatt : refines host setupGattP (setupGatt host).
Proof. unfold setupGattP, setupGatt, recordP, record. refine_go. Qed.

Hint Resolve refines_onConnected refines_setupGatt : refinedb.

Lemma refines_openLink d : refines host (openLinkP 0 d) (openLink host d).
Proof. unfold openLinkP, openLink. refine_go. Qed.

Hint Resolve refines_openLink : refinedb.

Lemma refines_requestAndConnect :
  refines host (requestAndConnectP 0) (requestAndConnect host).
Proof. unfold requestAndConnectP, requestAndConnect. refine_go. Qed.

Lemma refines_reconnect : refines host (reconnectP 0) (reconnect host).
Proof. unfold reconnectP, reconnect, gattConnected. refine_go. Qed.

Hint Resolve refines_requestAndConnect refines_reconnect : refinedb.

Lemma refines_reconnectTimerFired :
  refines host (reconnectTimerFiredP 0) (reconnectTimerFired host).
Proof. unfold reconnectTimerFiredP, reconnectTimerFired. refine_go. Qed.

Lemma refines_pollTick : refines host pollTickP (pollTick host).
Proof. unfold pollTickP, pollTick, setError. refine_go. Qed.

Lemma refines_connectSendById id action :
  refines host (connectSendByIdP 0 id action) (connectSendById host id action).
Proof.
  unfold connectSendByIdP, connectSendById, resolveAndOpenP, resolveAndOpen, applyActionP,
    applyAction, gattConnected.
  refine_go.
Qed.

Hint Resolve refines_reconnectTimerFired refines_pollTick refines_connectSendById : refinedb.

Lemma refines_btnConnect : refines host (btnConnectP 0) (btnConnect host).
Proof. unfold btnConnectP, btnConnect. refine_go. Qed.

Lemma refines_connectById argId : refines host (connectByIdP 0 argId) (connectById host argId).
Proof. unfold connectByIdP, connectById, retryByScanP, retryByScan. cbv zeta. refine_go. Qed.

Lemma refines_forgetById argId : refines host (forgetByIdP argId) (forgetById argId).
Proof. unfold forgetByIdP, forgetById, forgetCurrentP. cbv zeta. refine_go. Qed.

Lemma bind_assoc {A B C} (m : M A) (f : A -> M B) (g : B -> M C) s :
  bind (bind m f) g s = bind m (fun a => bind (f a) g) s.
Proof. unfold bind. destruct (m s) as [[a | e |] s']; reflexivity. Qed.

Lemma bind_ext {A B} (m : M A) (f f' : A -> M B) s :
  (forall a s', f a s' = f' a s') -> bind m f s = bind m f' s.
Proof. intros H. unfold bind. destruct (m s) as [[a | e |] s']; auto. Qed.

Lemma refines_forgetAll : refines host forgetAllP forgetAll.
Proof.
  intros s. unfold forgetAllP, forgetAll.
  rewrite atomic_bind.
  rewrite (bind_ext _ _ (fun _ => modify (set_known [])) s (fun _ _ => eq_refl)).
  unfold bind at 1. rewrite atomic_await, atomic_lift.
  change (bind (modify (set_wantReconnect false) ;;
                stopReconnectTimer ;; disconnectInternal true)
               (fun _ => modify (set_known [])) s
          = (modify (set_wantReconnect false) ;; stopReconnectTimer ;;
             disconnectInternal true ;; modify (set_known [])) s).
  rewrite bind_assoc. apply bind_ext. intros _ s1. apply bind_assoc.
Qed.

Lemma refines_rethrowing p m :
  refines host p m -> refines host (rethrowingP p) (rethrowing m).
Proof. intros H. unfold rethrowingP, rethrowing. refine_go. Qed.

Lemma refines_bulkCsv argCsv argAct :
  refines host (bulkCsvP host 0 argCsv argAct) (bulkCsv host argCsv argAct).
Proof.
  unfold bulkCsvP, bulkCsv, bulkApply, bulkStepP, bulkStep. cbv zeta. refine_go.
Qed.

(** A block or an event run with nothing in between is its computation
    in [M]. *)
Lemma refines_run a : refines host (progOf host 0 a) (run host a).
Proof.
  destruct a; cbn [progOf run];
    try apply refines_lift;
    try (apply refines_rethrowing; auto with refinedb).
  - apply refines_btnConnect.
  - apply refines_connectById.
  - unfold disconnectP. refine_go.
  - unfold forgetCurrentP. refine_go.
  - apply refines_forgetById.
  - apply refines_forgetAll.
  - apply refines_bulkCsv.
  - refine_go.
  - refine_go.
Qed.

End Refined.

(* ================================================================== *)
(** ** Calls that overlap *)

(** *** A call run in one go is a run of turns *)

Section Turns.

Variable host : Host.

Lemma atomic_stuck {A} (p : Prog A) :
  forall s, stuck (fst (advance p s)) = true -> fst (atomic host p s) = Hang.
Proof.
  induction p as [a | e | | k IH | g k IH | k IH | k IH | k IH]; intros s;
    cbn [advance atomic stuck fst]; try discriminate; auto.
Qed.

Lemma returns_not_stuck {A} (p : Prog A) s :
  fst (atomic host p s) <> Hang -> stuck (fst (advance p s)) = false.
Proof.
  intros H. destruct (stuck (fst (advance p s))) eqn:E; [ | reflexivity ].
  exfalso. apply H, atomic_stuck, E.
Qed.

Lemma reach_atomic (p : Prog unit) :
  forall s pool,
    fst (atomic host p s) <> Hang ->
    reach host (snd (advance p s), (pool ++ suspended (fst (advance p s)))%list) ->
    reach host (snd (atomic host p s), pool).
Proof.
  induction p as [a | e | | k IH | g k IH | k IH | k IH | k IH]; intros s pool Hn Hr;
    cbn [advance atomic suspended fst snd] in *.
  - rewrite app_nil_r in Hr. exact Hr.
  - rewrite app_nil_r in Hr. exact Hr.
  - contradiction.
  - apply IH; assumption.
  - apply IH; assumption.
  - apply IH; [ exact Hn | ].
    pose proof (reach_resume host s pool (PAwaitIo k) [] Hr) as R.
    cbn [resume] in R. rewrite app_nil_r in R.
    apply R, returns_not_stuck, Hn.
  - apply IH; [ exact Hn | ].
    pose proof (reach_resume host s pool (PAwaitPick k) [] Hr) as R.
    cbn [resume] in R. rewrite app_nil_r in R.
    apply R, returns_not_stuck, Hn.
  - apply IH; [ exact Hn | ].
    pose proof (reach_resume host s pool (PYield k) [] Hr) as R.
    cbn [resume] in R. rewrite app_nil_r in R.
    apply R, returns_not_stuck, Hn.
Qed.

(** A block or an event that no other call overlaps. *)
Lemma reach_run s pool a :
  reach host (s, pool) -> fst (run host a s) <> Hang ->
  reach host (snd (run host a s), pool).
Proof.
  intros Hr Hn. rewrite <- (refines_run host a s) in *.
  apply reach_atomic; [ exact Hn | ].
  exact (reach_start host s pool 0 a Hr (returns_not_stuck _ _ Hn)).
Qed.

Lemma reach_initial : reachable host initial.
Proof. exists []. apply reach_fresh. Qed.

Lemma reach_step s a :
  reachable host s -> fst (run host a s) <> Hang -> reachable host (snd (run host a s)).
Proof. intros [pool Hr] Hn. exists pool. apply reach_run; assumption. Qed.





End Turns.

(** *** What every turn keeps *)

Section Holds.

Context {A : Type}.
Variable I : Sys -> Prop.

Lemma holds_mono (p : Prog A) (N N' : A -> Sys -> Prop) (E E' : Thrown -> Sys -> Prop) :
  (forall a s, N a s -> N' a s) -> (forall e s, E e s -> E' e s) ->
  forall s, holds I p N E s -> holds I p N' E' s.
Proof.
  intros HN HE.
  induction p as [a | e | | k IH | g k IH | k IH | k IH | k IH]; intros s; cbn [holds];
    auto.
  - intros [Hi Hk]. split; [ exact Hi | ]. intros r s' Hs. apply IH, Hk, Hs.
  - intros [Hi Hk]. split; [ exact Hi | ]. intros r s' Hs. apply IH, Hk, Hs.
  - intros [Hi Hk]. split; [ exact Hi | ]. intros s' Hs. apply IH, Hk, Hs.
Qed.

Lemma holds_bind {B} (p : Prog A) (f : A -> Prog B) N E :
  forall s, holds I p (fun a s' => holds I (f a) N E s') E s -> holds I (bindP p f) N E s.
Proof.
  induction p as [a | e | | k IH | g k IH | k IH | k IH | k IH]; intros s; cbn [holds bindP];
    auto.
  - intros [Hi Hk]. split; [ exact Hi | ]. intros r s' Hs. apply IH, Hk, Hs.
  - intros [Hi Hk]. split; [ exact Hi | ]. intros r s' Hs. apply IH, Hk, Hs.
  - intros [Hi Hk]. split; [ exact Hi | ]. intros s' Hs. apply IH, Hk, Hs.
Qed.

Lemma holds_catch (p : Prog A) h N E :
  forall s, holds I p N (fun e s' => holds I (h e) N E s') s ->
            holds I (tryCatchP p h) N E s.
Proof.
  induction p as [a | e | | k IH | g k IH | k IH | k IH | k IH]; intros s;
    cbn [holds tryCatchP]; auto.
  - intros [Hi Hk]. split; [ exact Hi | ]. intros r s' Hs. apply IH, Hk, Hs.
  - intros [Hi Hk]. split; [ exact Hi | ]. intros r s' Hs. apply IH, Hk, Hs.
  - intros [Hi Hk]. split; [ exact Hi | ]. intros s' Hs. apply IH, Hk, Hs.
Qed.

Lemma holds_finally (p : Prog A) fin (N : A -> Sys -> Prop) (E : Thrown -> Sys -> Prop) :
  forall s, holds I p (fun a s' => N a (fin s')) (fun e s' => E e (fin s')) s ->
            holds I (tryFinallyP p fin) N E s.
Proof.
  induction p as [a | e | | k IH | g k IH | k IH | k IH | k IH]; intros s;
    cbn [holds tryFinallyP]; auto.
  - intros [Hi Hk]. split; [ exact Hi | ]. intros r s' Hs. apply IH, Hk, Hs.
  - intros [Hi Hk]. split; [ exact Hi | ]. intros r s' Hs. apply IH, Hk, Hs.
  - intros [Hi Hk]. split; [ exact Hi | ]. intros s' Hs. apply IH, Hk, Hs.
Qed.

Lemma holds_attempt (p : Prog A) (N : Thrown + A -> Sys -> Prop) E :
  forall s, holds I p (fun a => N (inr a)) (fun e => N (inl e)) s ->
            holds I (attemptP p) N E s.
Proof.
  induction p as [a | e | | k IH | g k IH | k IH | k IH | k IH]; intros s;
    cbn [holds attemptP]; auto.
  - intros [Hi Hk]. split; [ exact Hi | ]. intros r s' Hs. apply IH, Hk, Hs.
  - intros [Hi Hk]. split; [ exact Hi | ]. intros r s' Hs. apply IH, Hk, Hs.
  - intros [Hi Hk]. split; [ exact Hi | ]. intros s' Hs. apply IH, Hk, Hs.
Qed.

(** The caller of [await p] runs on in a state of which [I] is all that
    is known. *)
Lemma holds_await (p : Prog A) (N : A -> Sys -> Prop) (E : Thrown -> Sys -> Prop) :
  forall s,
    holds I p (fun a s' => I s' /\ forall s'', I s'' -> N a s'')
              (fun e s' => I s' /\ forall s'', I s'' -> E e s'') s ->
    holds I (awaitP p) N E s.
Proof.
  induction p as [a | e | | k IH | g k IH | k IH | k IH | k IH]; intros s;
    cbn [holds awaitP]; auto.
  - intros [Hi Hk]. split; [ exact Hi | ]. intros r s' Hs. apply IH, Hk, Hs.
  - intros [Hi Hk]. split; [ exact Hi | ]. intros r s' Hs. apply IH, Hk, Hs.
  - intros [Hi Hk]. split; [ exact Hi | ]. intros s' Hs. apply IH, Hk, Hs.
Qed.

Lemma holds_lift (m : M A) N E s : wp m N E s -> holds I (liftP m) N E s.
Proof.
  unfold wp, liftP. cbn [holds]. destruct (m s) as [[a | e |] s']; cbn [holds]; auto.
Qed.

End Holds.

Section Keeps.

Variable I : Sys -> Prop.

Lemma keepsP_ret {A} (a : A) : keepsP I (PRet a).
Proof. intros s H. exact H. Qed.

Lemma keepsP_throw {A} e : keepsP I (@PThrow A e).
Proof. intros s H. exact H. Qed.

Lemma keepsP_gets {A} (f : Sys -> A) : keepsP I (getsP f).
Proof. intros s H. exact H. Qed.

Lemma keepsP_modify g : (forall s, I s -> I (g s)) -> keepsP I (modifyP g).
Proof. intros Hg s H. apply Hg, H. Qed.

Lemma keepsP_lift {A} (m : M A) : keeps I m -> keepsP I (liftP m).
Proof. intros Hm s H. apply holds_lift, Hm, H. Qed.

Lemma keepsP_bind {A B} (p : Prog A) (f : A -> Prog B) :
  keepsP I p -> (forall a, keepsP I (f a)) -> keepsP I (bindP p f).
Proof.
  intros Hp Hf s H. apply holds_bind.
  eapply holds_mono; [ | | apply Hp, H ]; cbv beta; auto.
Qed.

Lemma keepsP_catch {A} (p : Prog A) h :
  keepsP I p -> (forall e, keepsP I (h e)) -> keepsP I (tryCatchP p h).
Proof.
  intros Hp Hh s H. apply holds_catch.
  eapply holds_mono; [ | | apply Hp, H ]; cbv beta; auto.
Qed.

Lemma keepsP_finally {A} (p : Prog A) fin :
  keepsP I p -> (forall s, I s -> I (fin s)) -> keepsP I (tryFinallyP p fin).
Proof.
  intros Hp Hf s H. apply holds_finally.
  eapply holds_mono; [ | | apply Hp, H ]; cbv beta; auto.
Qed.

Lemma keepsP_attempt {A} (p : Prog A) : keepsP I p -> keepsP I (attemptP p).
Proof.
  intros Hp s H. apply holds_attempt.
  eapply holds_mono; [ | | apply Hp, H ]; cbv beta; auto.
Qed.

Lemma keepsP_await {A} (p : Prog A) : keepsP I p -> keepsP I (awaitP p).
Proof.
  intros Hp s H. apply holds_await.
  eapply holds_mono; [ | | apply Hp, H ]; cbv beta; auto.
Qed.

Lemma keepsP_forEach {A} (l : list A) body :
  (forall x, keepsP I (body x)) -> keepsP I (forEachP l body).
Proof.
  intros Hb. induction l as [| x r IH]; cbn [forEachP].
  - apply keepsP_ret.
  - apply keepsP_bind; [ apply Hb | intros _; exact IH ].
Qed.

Lemma keepsP_awaitIo : keepsP I awaitIoP.
Proof.
  intros s H. unfold awaitIoP. cbn [holds]. split; [ exact H | ].
  intros [e |] s' H'; exact H'.
Qed.

Lemma keepsP_awaitPick {A} (k : Thrown + Device -> Prog A) :
  (forall r, keepsP I (k r)) -> keepsP I (PAwaitPick k).
Proof. intros Hk s H. cbn [holds]. split; [ exact H | ]. intros r s' H'. apply Hk, H'. Qed.

(** A call that keeps [I], taken turn by turn. *)
Lemma holds_advance (p : Prog unit) :
  forall s,
    holds I p (fun _ => I) (fun _ => I) s ->
    stuck (fst (advance p s)) = false ->
    I (snd (advance p s)) /\ Forall (parked I) (suspended (fst (advance p s))).
Proof.
  induction p as [a | e | | k IH | g k IH | k IH | k IH | k IH]; intros s H Hs;
    cbn [advance holds suspended fst snd stuck] in *; auto.
  - discriminate.
  - destruct H as [Hi Hk]. split; [ exact Hi | ]. constructor; [ exact Hk | constructor ].
  - destruct H as [Hi Hk]. split; [ exact Hi | ]. constructor; [ exact Hk | constructor ].
  - destruct H as [Hi Hk]. split; [ exact Hi | ]. constructor; [ exact Hk | constructor ].
Qed.

Hypothesis I_tick : tickFree I.

Lemma parked_resume host (p : Prog unit) s :
  parked I p -> I s ->
  stuck (fst (resume host p s)) = false ->
  I (snd (resume host p s)) /\ Forall (parked I) (suspended (fst (resume host p s))).
Proof.
  intros Hp Hi Hs.
  destruct p as [a | e | | k | g k | k | k | k]; cbn [resume parked] in *;
    apply holds_advance; try assumption; try (apply Hp; assumption).
  - apply Hp, I_tick, Hi.
  - apply Hp, I_tick, Hi.
Qed.

Hypothesis I_initial : I initial.
Hypothesis I_blocks : forall host extra a, keepsP I (progOf host extra a).

(** What every stretch without [await] keeps holds whenever a turn has
    ended, and every suspended call will keep it. *)
Theorem reach_keeps host c :
  reach host c -> I (fst c) /\ Forall (parked I) (snd c).
Proof.
  induction 1 as [| s pool extra a Hr [IHs IHp] Hs | s before p later Hr [IHs IHp] Hs];
    cbn [fst snd] in *.
  - split; [ exact I_initial | constructor ].
  - destruct (holds_advance (progOf host extra a) s (I_blocks host extra a s IHs) Hs)
      as [H1 H2].
    split; [ exact H1 | ]. apply Forall_app. split; assumption.
  - apply Forall_app in IHp. destruct IHp as [Hb Hl].
    apply Forall_cons_iff in Hl. destruct Hl as [Hp Hl].
    destruct (parked_resume host p s Hp IHs Hs) as [H1 H2].
    split; [ exact H1 | ].
    apply Forall_app. split; [ exact Hb | ]. apply Forall_app. split; assumption.
Qed.

End Keeps.

(** *** The bookkeeping is sound whatever overlaps *)

(** Settles [keepsP Sound p] along the structure of [p]. *)
Ltac keep_step :=
  lazymatch goal with
  | |- forall _, _ => intro
  | |- keepsP _ (bindP _ _) => apply keepsP_bind
  | |- keepsP _ (tryCatchP _ _) => apply keepsP_catch
  | |- keepsP _ (tryFinallyP _ _) => apply keepsP_finally
  | |- keepsP _ (attemptP _) => apply keepsP_attempt
  | |- keepsP _ (awaitP _) => apply keepsP_await
  | |- keepsP _ (liftP _) => apply keepsP_lift
  | |- keepsP _ (getsP _) => apply keepsP_gets
  | |- keepsP _ (modifyP _) => apply keepsP_modify
  | |- keepsP _ (recordP _) => unfold recordP
  | |- keepsP _ (PRet _) => apply keepsP_ret
  | |- keepsP _ (PThrow _) => apply keepsP_throw
  | |- keepsP _ (PAwaitPick _) => apply keepsP_awaitPick
  | |- keepsP _ (forEachP _ _) => apply keepsP_forEach
  | |- keepsP _ (whenP _ _) => unfold whenP
  | |- keepsP _ awaitIoP => apply keepsP_awaitIo
  | |- keepsP _ (if ?b then _ else _) => destruct b
  | |- keepsP _ (match ?x with _ => _ end) => destruct x
  | |- keepsP _ _ => solve [ auto with sounddb ]
  | |- keeps Sound _ =>
    first [ solve [ auto with sounddb ]
          | let s := fresh "s" in let H := fresh "H" in intros s H; solve [ wp_every Sound ] ]
  | |- Sound _ => solve [ sound ]
  end.

Ltac keep_go := repeat keep_step.

Section Overlap.

Variable host : Host.
Variable extra : nat.

Lemma writeValueP_Sound ch data : keepsP Sound (writeValueP ch data).
Proof. unfold writeValueP. keep_go. Qed.

Hint Resolve writeValueP_Sound : sounddb.

Lemma sendAsciiP_Sound str : keepsP Sound (sendAsciiP str).
Proof. unfold sendAsciiP. keep_go. Qed.

Hint Resolve sendAsciiP_Sound : sounddb.

Lemma readStateP_Sound : keepsP Sound readStateP.
Proof. unfold readStateP. keep_go. Qed.

Hint Resolve readStateP_Sound : sounddb.

(** The loop of [onConnected]: each turn takes the head off the queue. *)
Lemma drainP_Sound fuel : keepsP Sound (drainP fuel).
Proof.
  induction fuel as [| fuel IH]; intros s H; [ exact Logic.I | ].
  cbn [drainP]. cbn [bindP getsP holds].
  destruct (sendQueue s) as [| tok rest] eqn:Eq; [ exact H | ].
  destruct (connected s) eqn:Ec; [ | exact H ].
  cbn [bindP modifyP holds].
  assert (K : keepsP Sound
                (bindP (attemptP (awaitP (sendAsciiP tok)))
                   (fun r => match r with
                             | inr _ => drainP fuel
                             | inl e => liftP (setError e)
                             end))) by keep_go.
  apply K. sound_open. rewrite Eq in *. cbn in *. sound_fin.
Qed.

Hint Resolve drainP_Sound : sounddb.

Lemma onConnectedP_Sound : keepsP Sound (onConnectedP extra).
Proof. unfold onConnectedP. keep_go. Qed.

Lemma setupGattP_Sound : keepsP Sound setupGattP.
Proof. unfold setupGattP. keep_go. Qed.

Hint Resolve onConnectedP_Sound setupGattP_Sound : sounddb.

Lemma openLinkP_Sound d : keepsP Sound (openLinkP extra d).
Proof. unfold openLinkP, gattConnectSettleP. keep_go. Qed.

Hint Resolve openLinkP_Sound : sounddb.

Lemma requestAndConnectP_Sound : keepsP Sound (requestAndConnectP extra).
Proof. unfold requestAndConnectP, requestDeviceP. keep_go. Qed.

Lemma reconnectP_Sound : keepsP Sound (reconnectP extra).
Proof. unfold reconnectP. keep_go. Qed.

Hint Resolve requestAndConnectP_Sound reconnectP_Sound : sounddb.

Lemma reconnectTimerFiredP_Sound : keepsP Sound (reconnectTimerFiredP extra).
Proof. unfold reconnectTimerFiredP. keep_go. Qed.

Lemma pollTickP_Sound : keepsP Sound pollTickP.
Proof. unfold pollTickP. keep_go. Qed.

Lemma connectSendByIdP_Sound id action : keepsP Sound (connectSendByIdP extra id action).
Proof. unfold connectSendByIdP, resolveAndOpenP, applyActionP. keep_go. Qed.

Hint Resolve reconnectTimerFiredP_Sound pollTickP_Sound connectSendByIdP_Sound : sounddb.

Lemma btnConnectP_Sound : keepsP Sound (btnConnectP extra).
Proof. unfold btnConnectP. keep_go. Qed.

Lemma connectByIdP_Sound argId : keepsP Sound (connectByIdP extra argId).
Proof. unfold connectByIdP, retryByScanP. cbv zeta. keep_go. Qed.

Lemma forgetByIdP_Sound argId : keepsP Sound (forgetByIdP argId).
Proof. unfold forgetByIdP, forgetCurrentP. cbv zeta. keep_go. Qed.

Lemma forgetAllP_Sound : keepsP Sound forgetAllP.
Proof. unfold forgetAllP. keep_go. Qed.

Lemma rethrowingP_Sound p : keepsP Sound p -> keepsP Sound (rethrowingP p).
Proof. intros H. unfold rethrowingP. keep_go. Qed.

Lemma bulkCsvP_Sound argCsv argAct : keepsP Sound (bulkCsvP host extra argCsv argAct).
Proof. unfold bulkCsvP, bulkStepP. cbv zeta. keep_go. Qed.

(** Every block and every event keeps the bookkeeping sound at each of
    its [await]s and at its end, whatever the other calls do while it is
    suspended. *)
Lemma progOf_Sound a : keepsP Sound (progOf host extra a).
Proof.
  destruct a; cbn [progOf];
    try (apply rethrowingP_Sound; auto with sounddb).
  - apply btnConnectP_Sound.
  - apply connectByIdP_Sound.
  - unfold disconnectP. keep_go.
  - unfold forgetCurrentP. keep_go.
  - apply forgetByIdP_Sound.
  - apply forgetAllP_Sound.
  - keep_go.
  - keep_go.
  - keep_go.
  - apply bulkCsvP_Sound.
  - keep_go.
  - keep_go.
  - keep_go.
  - keep_go.
  - keep_go.
  - keep_go.
  - keep_go.
  - keep_go.
  - keep_go.
  - keep_go.
Qed.

End Overlap.

(** In every state the extension gets into, calls overlapping as they
    may, the bookkeeping is sound. *)
Lemma reachable_Sound host s : reachable host s -> Sound s.
Proof.
  intros [pool Hr].
  exact (proj1 (reach_keeps Sound Sound_tickFree initial_Sound progOf_Sound host _ Hr)).
Qed.

Lemma reachable_bounded host s : reachable host s -> queueBounded s.
Proof. intros Hr. exact (proj1 (reachable_Sound host s Hr)). Qed.

(* ================================================================== *)
(** ** State tracker: edges of the reported state *)

Module Edges.

Ltac by_cases s v :=
  unfold updateStateFromText, decoded, rose, fell; cbn;
  destruct ((v =? "on") || (v =? "1"))%string; cbn;
  [ | destruct ((v =? "off") || (v =? "0"))%string; cbn ];
  destruct (lastStateNum s =? 0) eqn:E0; cbn;
  destruct (lastStateNum s =? 1) eqn:E1; cbn;
  rewrite ?E0, ?E1, ?orb_true_r, ?orb_false_r; cbn;
  try reflexivity;
  apply Z.eqb_eq in E0; apply Z.eqb_eq in E1; congruence.

Lemma lastStateNum_update v s :
  lastStateNum (updateStateFromText v s) = decoded v (lastStateNum s).
Proof. by_cases s v. Qed.

Lemma edgeOn_update v s :
  edgeOn (updateStateFromText v s)
  = edgeOn s || rose (lastStateNum s) (decoded v (lastStateNum s)).
Proof. by_cases s v. Qed.

Lemma edgeOff_update v s :
  edgeOff (updateStateFromText v s)
  = edgeOff s || fell (lastStateNum s) (decoded v (lastStateNum s)).
Proof. by_cases s v. Qed.

Lemma consumed_flags s :
  edgeOn (consumed s) = false /\ edgeOff (consumed s) = false
  /\ lastStateNum (consumed s) = lastStateNum s.
Proof.
  unfold consumed, whenOn, whenOff, bind, gets, modify, ret. cbn.
  destruct (edgeOn s) eqn:E1; cbn; destruct (edgeOff s) eqn:E2; cbn; auto.
Qed.

Lemma rose_iff a b : rose a b = true <-> a = 0 /\ b = 1.
Proof. unfold rose. rewrite andb_true_iff, !Z.eqb_eq. tauto. Qed.

Lemma fell_iff a b : fell a b = true <-> a = 1 /\ b = 0.
Proof. unfold fell. rewrite andb_true_iff, !Z.eqb_eq. tauto. Qed.

Lemma unchanged_no_edge n : rose n n = false /\ fell n n = false.
Proof.
  unfold rose, fell. split.
  - destruct (n =? 0) eqn:E; [ apply Z.eqb_eq in E; subst; reflexivity | reflexivity ].
  - destruct (n =? 1) eqn:E; [ apply Z.eqb_eq in E; subst; reflexivity | reflexivity ].
Qed.

(** C1.  [updateStateFromText] raises [edgeOn] exactly when the value
    stored just before the notification is 0 and the decoded value is 1,
    and [edgeOff] exactly when it goes from 1 to 0: a flag that was clear
    is set iff its transition happened, a flag never gets cleared here.
    Along any sequence of notifications the flags read after each one are
    those transitions.  A notification whose decoded value equals the
    stored value, a repeated one or an unrecognised one among them, sets
    neither flag. *)
Theorem edges_follow_transitions :
  (forall v s,
      let before := lastStateNum s in
      let after := lastStateNum (updateStateFromText v s) in
      after = decoded v before
      /\ edgeOn (updateStateFromText v s) = edgeOn s || rose before after
      /\ edgeOff (updateStateFromText v s) = edgeOff s || fell before after
      /\ (rose before after = true <-> before = 0 /\ after = 1)
      /\ (fell before after = true <-> before = 1 /\ after = 0)
      /\ prevStateNum (updateStateFromText v s) = after)
  /\ (forall vs s, observed vs s = expected vs (lastStateNum s))
  /\ (forall v s,
        decoded v (lastStateNum s) = lastStateNum s ->
        edgeOn (updateStateFromText v s) = edgeOn s
        /\ edgeOff (updateStateFromText v s) = edgeOff s)
  /\ (forall v s,
        decoded v (lastStateNum s) = lastStateNum s ->
        edgeOn (updateStateFromText v (updateStateFromText v s)) = edgeOn s
        /\ edgeOff (updateStateFromText v (updateStateFromText v s)) = edgeOff s)
  /\ (forall v n,
        (v =? "on")%string = false -> (v =? "1")%string = false ->
        (v =? "off")%string = false -> (v =? "0")%string = false ->
        decoded v n = n).
Proof.
  split; [ | split; [ | split; [ | split ] ] ].
  - intros v s before after. subst before after.
    rewrite lastStateNum_update, edgeOn_update, edgeOff_update.
    split; [ reflexivity | split; [ reflexivity | split; [ reflexivity | ] ] ].
    split; [ apply rose_iff | split; [ apply fell_iff | ] ].
    rewrite <- lastStateNum_update. reflexivity.
  - induction vs as [| v r IH]; intros s; [ reflexivity | ].
    cbn [observed expected].
    destruct (consumed_flags s) as (E1 & E2 & E3).
    rewrite IH, lastStateNum_update, edgeOn_update, edgeOff_update, E1, E2, E3.
    reflexivity.
  - intros v s H. rewrite edgeOn_update, edgeOff_update, H.
    destruct (unchanged_no_edge (lastStateNum s)) as [-> ->].
    rewrite !orb_false_r. split; reflexivity.
  - intros v s H.
    repeat rewrite ?edgeOn_update, ?edgeOff_update, ?lastStateNum_update, ?H.
    destruct (unchanged_no_edge (lastStateNum s)) as [-> ->].
    rewrite !orb_false_r. split; reflexivity.
  - intros v n H1 H2 H3 H4. unfold decoded. rewrite H1, H2, H3, H4. reflexivity.
Qed.

(** The scenario of the specification: the device reports "off", then
    "on"; and an unrecognised text between two equal reports. *)
Lemma edges_follow_transitions_witness :
  observed ["off"; "on"; "on"; "?"; "off"] initial
  = [(false, false); (true, false); (false, false); (false, false); (false, true)]
  /\ edgeOn (updateStateFromText "?" initial) = edgeOn initial
  /\ edgeOff (updateStateFromText "?" initial) = edgeOff initial.
Proof.
  split.
  - rewrite (proj1 (proj2 edges_follow_transitions)). reflexivity.
  - apply (proj1 (proj2 (proj2 edges_follow_transitions)) "?" initial). reflexivity.
Defined.

End Edges.

(* ================================================================== *)
(** ** Draining the queue on connection *)

Module Drain.

Lemma scheduleReconnect_run s :
  exists s',
    scheduleReconnect s = (Ret tt, s')
    /\ sendQueue s' = sendQueue s /\ connected s' = connected s
    /\ wantReconnect s' = wantReconnect s /\ rxChar s' = rxChar s
    /\ log s' = log s /\ lastError s' = lastError s /\ backoffMs s' = backoffMs s.
Proof.
  unfold scheduleReconnect, bind, gets, modify, ret. cbn.
  destruct (negb (wantReconnect s)); [ | destruct (reconnectTimer s) ];
    eexists; (split; [ reflexivity | cbn; repeat split ]).
Qed.

Section Draining.

Variable host : Host.

(** One turn of the loop. *)
Lemma drain_turn fuel s ch tok rest :
  connected s = true -> rxChar s = Some ch -> sendQueue s = tok :: rest ->
  drain host (S fuel) s =
  match ioReply host (tick s) with
  | None => drain host fuel (written ch tok rest s)
  | Some e => (Ret tt, set_lastError (errorText e) (written ch tok rest s))
  end.
Proof.
  intros Hc Hr Hq. cbn [drain].
  unfold bind at 1. unfold gets at 1. cbv beta iota.
  unfold bind at 1. unfold gets at 1. cbv beta iota.
  rewrite Hq, Hc.
  unfold bind at 1. unfold modify at 1. cbv beta iota.
  unfold bind at 1. unfold attempt.
  rewrite (sendAscii_write host tok _ ch) by (cbn; assumption).
  unfold writeValue, record, bind, modify, awaitIo. cbn.
  destruct (ioReply host (tick s)); reflexivity.
Qed.

Lemma drain_empty fuel s : sendQueue s = [] -> drain host (S fuel) s = (Ret tt, s).
Proof.
  intros Hq. cbn [drain]. unfold bind, gets. cbv beta iota. rewrite Hq. reflexivity.
Qed.

(** Every write succeeds: the whole queue is written in order. *)
Lemma drain_all ch q :
  forall fuel s,
    connected s = true -> rxChar s = Some ch -> sendQueue s = q ->
    (length q < fuel)%nat ->
    (forall i, (i < length q)%nat -> ioReply host (tick s + i) = None) ->
    exists s',
      drain host fuel s = (Ret tt, s')
      /\ sendQueue s' = []
      /\ log s' = (log s ++ map (TWrite ch) q)%list
      /\ lastError s' = lastError s
      /\ backoffMs s' = backoffMs s.
Proof.
  induction q as [| tok rest IH]; intros fuel s Hc Hr Hq Hf Hio.
  - destruct fuel as [| fuel]; [ cbn in Hf; lia | ].
    exists s. rewrite drain_empty by exact Hq. cbn. rewrite app_nil_r. auto.
  - destruct fuel as [| fuel]; [ cbn in Hf; lia | ].
    rewrite (drain_turn fuel s ch tok rest Hc Hr Hq).
    pose proof (Hio 0%nat ltac:(cbn; lia)) as H0. rewrite Nat.add_0_r in H0. rewrite H0.
    destruct (IH fuel (written ch tok rest s)) as (s' & E & Q & L & Er & B).
    + exact Hc.
    + exact Hr.
    + reflexivity.
    + cbn in Hf. lia.
    + intros i Hi. cbn [written tick set_tick].
      replace (S (tick s) + i)%nat with (tick s + S i)%nat by lia.
      apply Hio. cbn. lia.
    + exists s'. rewrite E, Q, L, Er, B. cbn. rewrite <- app_assoc. auto.
Qed.


(** *** The bound on the loop *)

Lemma drain_idle fuel s :
  sendQueue s = [] \/ connected s = false -> drain host (S fuel) s = (Ret tt, s).
Proof.
  intros H. cbn [drain]. unfold bind, gets. cbv beta iota.
  destruct (sendQueue s); [ reflexivity | ].
  destruct H as [H | H]; [ discriminate | rewrite H; reflexivity ].
Qed.

(** No write characteristic and no reconnect wanted: [sendAscii] throws
    and the loop breaks. *)
Lemma drain_turn_throw fuel s tok rest :
  connected s = true -> rxChar s = None -> wantReconnect s = false ->
  sendQueue s = tok :: rest ->
  drain host (S fuel) s
  = (Ret tt, set_lastError (errorText notConnected) (set_sendQueue rest s)).
Proof.
  intros Hc Hr Hw Hq. cbn [drain].
  unfold bind at 1. unfold gets at 1. cbv beta iota.
  unfold bind at 1. unfold gets at 1. cbv beta iota.
  rewrite Hq, Hc.
  unfold bind at 1. unfold modify at 1. cbv beta iota.
  unfold bind at 1. unfold attempt.
  rewrite (sendAscii_throw host tok) by (cbn; auto).
  reflexivity.
Qed.

(** No write characteristic and a reconnect wanted: the token goes back
    to the end of the queue and the loop goes on. *)
Lemma drain_turn_requeue fuel s tok rest :
  connected s = true -> rxChar s = None -> wantReconnect s = true ->
  sendQueue s = tok :: rest ->
  exists s',
    drain host (S fuel) s = drain host fuel s'
    /\ connected s' = true /\ rxChar s' = None /\ wantReconnect s' = true
    /\ backoffMs s' = backoffMs s
    /\ sendQueue s' <> [].
Proof.
  intros Hc Hr Hw Hq. cbn [drain].
  unfold bind at 1. unfold gets at 1. cbv beta iota.
  unfold bind at 1. unfold gets at 1. cbv beta iota.
  rewrite Hq, Hc.
  unfold bind at 1. unfold modify at 1. cbv beta iota.
  unfold bind at 1. unfold attempt.
  rewrite (sendAscii_queue host tok) by (cbn; auto).
  rewrite enqueue_run.
  destruct (scheduleReconnect_run
              (set_sendQueue
                 ((if (QUEUE_MAX <=? length (sendQueue (set_sendQueue rest s)))%nat
                   then tl (sendQueue (set_sendQueue rest s))
                   else sendQueue (set_sendQueue rest s)) ++ [tok])
                 (set_sendQueue rest s)))
    as (s' & E & Q & C & W & R & _ & _ & B).
  rewrite E. exists s'. split; [ reflexivity | ].
  rewrite Q, C, W, R, B. cbn. repeat split; auto.
  destruct (QUEUE_MAX <=? length rest)%nat; intros Hn;
    apply app_eq_nil in Hn; destruct Hn; discriminate.
Qed.

Lemma drain_forever fuel :
  forall s,
    connected s = true -> rxChar s = None -> wantReconnect s = true ->
    sendQueue s <> [] ->
    fst (drain host fuel s) = Hang.
Proof.
  induction fuel as [| fuel IH]; intros s Hc Hr Hw Hq; [ reflexivity | ].
  destruct (sendQueue s) as [| tok rest] eqn:Eq; [ contradiction | ].
  destruct (drain_turn_requeue fuel s tok rest Hc Hr Hw Eq)
    as (s' & E & C & R & W & _ & Q).
  rewrite E. apply IH; assumption.
Qed.

Lemma drain_writes_any_bound ch q :
  forall n m s,
    connected s = true -> rxChar s = Some ch -> sendQueue s = q ->
    (length q < n)%nat -> (length q < m)%nat ->
    drain host n s = drain host m s.
Proof.
  induction q as [| tok rest IH]; intros n m s Hc Hr Hq Hn Hm;
    (destruct n as [| n]; [ cbn in Hn; lia | ]);
    (destruct m as [| m]; [ cbn in Hm; lia | ]).
  - rewrite !drain_idle by (left; exact Hq). reflexivity.
  - rewrite !(drain_turn _ s ch tok rest Hc Hr Hq).
    destruct (ioReply host (tick s)); [ reflexivity | ].
    apply IH; try assumption; try reflexivity; cbn in Hn, Hm; lia.
Qed.

Lemma drain_writes_ends ch q :
  forall n s,
    connected s = true -> rxChar s = Some ch -> sendQueue s = q ->
    (length q < n)%nat ->
    fst (drain host n s) <> Hang.
Proof.
  induction q as [| tok rest IH]; intros n s Hc Hr Hq Hn;
    (destruct n as [| n]; [ cbn in Hn; lia | ]).
  - rewrite drain_idle by (left; exact Hq). discriminate.
  - rewrite (drain_turn _ s ch tok rest Hc Hr Hq).
    destruct (ioReply host (tick s)); [ discriminate | ].
    apply IH; try assumption; try reflexivity; cbn in Hn; lia.
Qed.

(** The bound [onConnected] gives its loop is exact: if the loop comes
    to an end at all it does so within that bound and any larger bound
    gives the same result, and if it does not, no bound is enough. *)
Lemma drain_bound_exact s n :
  (S (length (sendQueue s)) <= n)%nat ->
  (fst (drain host (S (length (sendQueue s))) s) <> Hang ->
   drain host n s = drain host (S (length (sendQueue s))) s)
  /\ (fst (drain host (S (length (sendQueue s))) s) = Hang ->
      forall m, fst (drain host m s) = Hang).
Proof.
  intros Hn. destruct n as [| n]; [ lia | ].
  destruct (sendQueue s) as [| tok rest] eqn:Eq.
  { rewrite !drain_idle by (left; exact Eq). split; [ reflexivity | discriminate ]. }
  destruct (connected s) eqn:Ec.
  2: { rewrite !drain_idle by (right; exact Ec). split; [ reflexivity | discriminate ]. }
  destruct (rxChar s) as [ch |] eqn:Er.
  { split.
    - intros _. apply (drain_writes_any_bound ch (tok :: rest)); auto; cbn in *; lia.
    - intros Hh. exfalso.
      apply (drain_writes_ends ch (tok :: rest) (S (length (tok :: rest))) s); auto. }
  destruct (wantReconnect s) eqn:Ew.
  - split.
    + intros Hh. exfalso. apply Hh. apply drain_forever; auto. rewrite Eq. discriminate.
    + intros _ m. apply drain_forever; auto. rewrite Eq. discriminate.
  - rewrite !(drain_turn_throw _ s tok rest Ec Er Ew Eq).
    split; [ reflexivity | discriminate ].
Qed.

Lemma drain_backoff fuel :
  forall s, backoffMs (snd (drain host fuel s)) = backoffMs s.
Proof.
  induction fuel as [| fuel IH]; intros s; [ reflexivity | ].
  destruct (sendQueue s) as [| tok rest] eqn:Eq;
    [ rewrite drain_idle by (left; exact Eq); reflexivity | ].
  destruct (connected s) eqn:Ec;
    [ | rewrite drain_idle by (right; exact Ec); reflexivity ].
  destruct (rxChar s) as [ch |] eqn:Er.
  - rewrite (drain_turn fuel s ch tok rest Ec Er Eq).
    destruct (ioReply host (tick s)); [ reflexivity | ].
    rewrite IH. reflexivity.
  - destruct (wantReconnect s) eqn:Ew.
    + destruct (drain_turn_requeue fuel s tok rest Ec Er Ew Eq)
        as (s' & E & _ & _ & _ & B & _).
      rewrite E, IH. exact B.
    + rewrite (drain_turn_throw fuel s tok rest Ec Er Ew Eq). reflexivity.
Qed.

(** *** [onConnected] *)

Lemma markConnected_run s :
  exists s',
    markConnected s = (Ret tt, s')
    /\ connected s' = true /\ rxChar s' = rxChar s /\ sendQueue s' = sendQueue s
    /\ log s' = log s /\ tick s' = tick s /\ lastError s' = EmptyString
    /\ backoffMs s' = 1000.
Proof.
  unfold markConnected, clearError, startPolling, stopPolling, when, bind, gets, modify, ret.
  cbn.
  destruct (negb (prevConnected s)); cbn;
    destruct (pollTimer s); cbn;
    destruct (0 <? pollIntervalMs s); cbn;
    eexists; (split; [ reflexivity | cbn; repeat split ]).
Qed.

(** What was in [lastError] before makes no difference. *)
Lemma markConnected_forgets x s : markConnected (set_lastError x s) = markConnected s.
Proof.
  unfold markConnected, clearError, startPolling, stopPolling, when, bind, gets, modify, ret.
  cbn.
  destruct (negb (prevConnected s)); cbn;
    destruct (pollTimer s); cbn;
    destruct (0 <? pollIntervalMs s); cbn; reflexivity.
Qed.

Lemma onConnected_run s s' :
  markConnected s = (Ret tt, s') ->
  onConnected host s = drain host (S (length (sendQueue s'))) s'.
Proof.
  intros E. unfold onConnected. unfold bind at 1. rewrite E.
  unfold bind, gets. reflexivity.
Qed.



End Draining.




End Drain.

(* ================================================================== *)
(** ** Send queue *)

Module Queue.

Import Drain.

Section Sending.

Variable host : Host.

Lemma sendAscii_offline tok s :
  connected s = false \/ rxChar s = None -> wantReconnect s = true ->
  exists s',
    sendAscii host tok s = (Ret tt, s')
    /\ (Ret tt, s') = scheduleReconnect (set_sendQueue (pushed (sendQueue s) tok) s)
    /\ sendQueue s' = pushed (sendQueue s) tok
    /\ connected s' = connected s /\ wantReconnect s' = true
    /\ log s' = log s.
Proof.
  intros Hc Hw.
  rewrite (sendAscii_queue host tok s Hc Hw), enqueue_run.
  fold (pushed (sendQueue s) tok).
  destruct (scheduleReconnect_run (set_sendQueue (pushed (sendQueue s) tok) s))
    as (s' & E & Q & C & W & _ & L & _ & _).
  exists s'. cbn in Q, C, W, L. rewrite E, Q, C, W, L. repeat split; assumption.
Qed.

Lemma sendAll_offline toks :
  forall s,
    connected s = false -> wantReconnect s = true ->
    sendQueue (sendAll host toks s) = fold_left pushed toks (sendQueue s)
    /\ connected (sendAll host toks s) = false
    /\ wantReconnect (sendAll host toks s) = true.
Proof.
  induction toks as [| t r IH]; intros s Hc Hw; [ cbn; auto | ].
  cbn [sendAll fold_left].
  destruct (sendAscii_offline t s (or_introl Hc) Hw) as (s' & E & _ & Q & C & W & _).
  rewrite E. cbn [snd]. fold (sendAll host r s'). rewrite Hc in C.
  destruct (IH s' C W) as (Q' & C' & W'). rewrite Q', Q. auto.
Qed.

End Sending.

Lemma pushed_length q tok :
  (length q <= QUEUE_MAX)%nat -> (length (pushed q tok) <= QUEUE_MAX)%nat.
Proof. apply push_bounded. Qed.

Lemma lastn_all {A} n (l : list A) : (length l <= n)%nat -> lastn n l = l.
Proof. intros H. unfold lastn. replace (length l - n)%nat with 0%nat by lia. reflexivity. Qed.

Lemma pushed_lastn q tok :
  (length q <= QUEUE_MAX)%nat -> pushed q tok = lastn QUEUE_MAX (q ++ [tok]).
Proof.
  intros H. unfold pushed, lastn. rewrite length_app. cbn [length].
  destruct (QUEUE_MAX <=? length q)%nat eqn:E.
  - apply Nat.leb_le in E. replace (length q + 1 - QUEUE_MAX)%nat with 1%nat by lia.
    destruct q; [ cbn in E; unfold QUEUE_MAX in E; lia | reflexivity ].
  - apply Nat.leb_gt in E. replace (length q + 1 - QUEUE_MAX)%nat with 0%nat by lia.
    reflexivity.
Qed.

Lemma lastn_app_lastn {A} n (l r : list A) :
  lastn n (lastn n l ++ r) = lastn n (l ++ r).
Proof.
  unfold lastn. rewrite !length_app, length_skipn.
  destruct (Nat.le_gt_cases (length l) n) as [H | H].
  - replace (length l - n)%nat with 0%nat by lia. cbn [skipn].
    rewrite Nat.sub_0_r. reflexivity.
  - replace (length l - (length l - n) + length r - n)%nat with (length r) by lia.
    replace (length l + length r - n)%nat with ((length l - n) + length r)%nat by lia.
    rewrite !skipn_app, length_skipn.
    replace (length r - (length l - (length l - n)))%nat with (length r - n)%nat by lia.
    replace (length l - n + length r - length l)%nat with (length r - n)%nat by lia.
    rewrite skipn_skipn.
    replace (length r + (length l - n))%nat with (length l - n + length r)%nat by lia.
    reflexivity.
Qed.

Lemma fold_pushed toks :
  forall q, (length q <= QUEUE_MAX)%nat ->
            fold_left pushed toks q = lastn QUEUE_MAX (q ++ toks).
Proof.
  induction toks as [| t r IH]; intros q H.
  - cbn. rewrite app_nil_r. symmetry. apply lastn_all. exact H.
  - cbn [fold_left]. rewrite IH by (apply pushed_length; exact H).
    rewrite pushed_lastn by exact H. rewrite lastn_app_lastn.
    rewrite <- app_assoc. reflexivity.
Qed.

Lemma wanting_reachable : reachable steadyHost wanting.
Proof.
  change wanting with (snd (run steadyHost (SetReconnect "オン") initial)).
  apply reach_step; [ apply reach_initial | vm_compute; discriminate ].
Qed.

Lemma linked_reachable : reachable steadyHost linked.
Proof.
  change linked with (snd (run steadyHost BtnConnect initial)).
  apply reach_step; [ apply reach_initial | vm_compute; discriminate ].
Qed.

(** C2.  From any state the extension gets into, not connected and with
    [wantReconnect] set, sending [QUEUE_MAX + k] tokens ([k >= 1]) leaves
    in the queue exactly the last [QUEUE_MAX] of them in their order; the
    queue is never longer than [QUEUE_MAX = 20], neither on the way nor in
    any state the extension gets into; and a token sent to a full queue
    takes the place of the oldest one. *)
Theorem queue_keeps_most_recent host s toks k :
  reachable host s ->
  connected s = false -> wantReconnect s = true ->
  (1 <= k)%nat -> length toks = (QUEUE_MAX + k)%nat ->
  sendQueue (sendAll host toks s) = skipn k toks
  /\ length (sendQueue (sendAll host toks s)) = QUEUE_MAX
  /\ (forall n, (length (sendQueue (sendAll host (firstn n toks) s)) <= QUEUE_MAX)%nat)
  /\ (forall st, reachable host st -> (length (sendQueue st) <= QUEUE_MAX)%nat)
  /\ (forall st tok,
        connected st = false -> wantReconnect st = true ->
        length (sendQueue st) = QUEUE_MAX ->
        sendQueue (snd (sendAscii host tok st)) = (tl (sendQueue st) ++ [tok])%list)
  /\ QUEUE_MAX = 20%nat.
Proof.
  intros Hr Hc Hw Hk Hlen.
  pose proof (reachable_bounded host s Hr) as Hq. unfold queueBounded in Hq.
  assert (E : sendQueue (sendAll host toks s) = skipn k toks).
  { destruct (sendAll_offline host toks s Hc Hw) as (Q & _ & _).
    rewrite Q, fold_pushed by exact Hq. unfold lastn.
    rewrite length_app, Hlen.
    replace (length (sendQueue s) + (QUEUE_MAX + k) - QUEUE_MAX)%nat
      with (length (sendQueue s) + k)%nat by lia.
    rewrite skipn_app, skipn_all2 by lia.
    replace (length (sendQueue s) + k - length (sendQueue s))%nat with k by lia.
    reflexivity. }
  split; [ exact E | ].
  split; [ rewrite E, length_skipn; lia | ].
  split; [ | split; [ | split; [ | reflexivity ] ] ].
  - intros n.
    destruct (sendAll_offline host (firstn n toks) s Hc Hw) as (Q & _ & _).
    rewrite Q. clear Q. generalize (firstn n toks) as l.
    intros l. revert Hq. generalize (sendQueue s) as q.
    induction l as [| t r IH]; intros q Hq; [ exact Hq | ].
    cbn [fold_left]. apply IH, pushed_length, Hq.
  - intros st Hst. exact (reachable_bounded host st Hst).
  - intros st tok Hc' Hw' Hfull.
    destruct (sendAscii_offline host tok st (or_introl Hc') Hw') as (s' & E' & _ & Q & _).
    rewrite E'. cbn [snd]. rewrite Q. unfold pushed. rewrite Hfull, Nat.leb_refl.
    reflexivity.
Qed.

(** Twenty-one tokens sent while a reconnect is wanted: the first is gone. *)
Lemma queue_keeps_most_recent_witness :
  sendQueue (sendAll steadyHost tokens21 wanting) = skipn 1 tokens21.
Proof.
  exact (proj1 (queue_keeps_most_recent steadyHost wanting tokens21 1
                  wanting_reachable eq_refl eq_refl (le_n 1) eq_refl)).
Defined.




End Queue.

(* ================================================================== *)
(** ** Reconnecting *)

Module Reconnect.

Import Drain.

Lemma connectCalls_app l r : connectCalls (l ++ r) = (connectCalls l + connectCalls r)%nat.
Proof. unfold connectCalls. rewrite filter_app, length_app. reflexivity. Qed.

Section Reconnecting.

Variable host : Host.

(** The loop changes neither the backoff nor [connected] and asks for
    no connection. *)
Lemma drain_quiet ch q :
  forall fuel s,
    connected s = true -> rxChar s = Some ch -> sendQueue s = q ->
    (length q < fuel)%nat ->
    exists s',
      drain host fuel s = (Ret tt, s')
      /\ backoffMs s' = backoffMs s /\ connected s' = true
      /\ rxChar s' = Some ch
      /\ connectCalls (log s') = connectCalls (log s).
Proof.
  induction q as [| tok rest IH]; intros fuel s Hc Hr Hq Hf;
    (destruct fuel as [| fuel]; [ cbn in Hf; lia | ]).
  - rewrite drain_idle by (left; exact Hq). exists s. auto.
  - rewrite (drain_turn host fuel s ch tok rest Hc Hr Hq).
    assert (Hcc : connectCalls (log (written ch tok rest s)) = connectCalls (log s)).
    { change (log (written ch tok rest s)) with (log s ++ [TWrite ch tok])%list.
      rewrite connectCalls_app. unfold connectCalls. cbn. lia. }
    destruct (ioReply host (tick s)) as [e |].
    + eexists. split; [ reflexivity | ].
      cbn [connected backoffMs rxChar log set_lastError].
      rewrite Hcc. cbn. auto.
    + destruct (IH fuel (written ch tok rest s)) as (s' & E & B & C & R & L); auto.
      { cbn in Hf. lia. }
      exists s'. rewrite E, B, C, R, L, Hcc. cbn. auto.
Qed.

Lemma onConnected_quiet s ch :
  rxChar s = Some ch ->
  exists s',
    onConnected host s = (Ret tt, s')
    /\ backoffMs s' = 1000 /\ connected s' = true
    /\ rxChar s' = Some ch
    /\ connectCalls (log s') = connectCalls (log s).
Proof.
  intros Hr.
  destruct (markConnected_run s) as (s1 & E1 & C1 & R1 & Q1 & L1 & T1 & Er1 & B1).
  rewrite (onConnected_run host s s1 E1). rewrite Hr in R1.
  destruct (drain_quiet ch (sendQueue s1) (S (length (sendQueue s1))) s1)
    as (s' & E & B & C & R & L); auto.
  exists s'. rewrite E, B, C, R, L, B1, L1. auto.
Qed.

(** What [openLink] leaves behind: on success the link is up on the
    device's write characteristic and the backoff is at its floor; on
    failure the backoff is untouched and the value thrown is the
    transport's; either way no connection has been asked for. *)
Lemma openLink_effect d s :
  wp (openLink host d)
     (fun _ s' =>
        backoffMs s' = 1000 /\ connected s' = true
        /\ rxChar s' = Some {| ch_device := dev_id d; ch_uuid := NUS_RX_CHAR |}
        /\ connectCalls (log s') = connectCalls (log s))
     (fun e s' =>
        backoffMs s' = backoffMs s
        /\ connectCalls (log s') = connectCalls (log s)
        /\ fromTransport host e)
     s.
Proof.
  unfold openLink, gattConnectSettle, setupGatt, record.
  repeat (first [ wp_step; cbv beta
                | apply awaitIo_wp; [ intros _ | intros e He ] ]).
  all: try solve [ cbn; rewrite ?connectCalls_app; unfold connectCalls; cbn;
                   repeat split; try lia; left; eexists; eassumption ].
  all: try discriminate.
  match goal with
  | H : server _ = Some _ |- _ => cbn in H; injection H as <-
  end.
  unfold wp.
  match goal with
  | |- context [onConnected host ?x] =>
    edestruct (onConnected_quiet x) as (s' & E & B & C & R & L); [ reflexivity | ]
  end.
  rewrite E, B, C, R, L. cbn. rewrite !connectCalls_app. unfold connectCalls. cbn.
  repeat split; lia.
Qed.

(** The first turn of [reconnect] past its guard: the call sets
    [connecting], asks the transport to connect and is suspended. *)
Lemma reconnect_first_turn extra s d :
  device s = Some d -> connecting s = false -> isLive d s = false ->
  exists k,
    advance (reconnectP extra) s
    = (Suspended (PAwaitIo k), snd (gattConnectCall d (set_connecting true s))).
Proof.
  intros Hd Hc Hl. unfold reconnectP.
  cbn [advance bindP getsP]. rewrite Hd. cbn [advance bindP getsP]. rewrite Hc, Hl.
  cbn [orb]. unfold openLinkP, gattConnectSettleP, awaitIoP, gattConnectCall, record, modify.
  cbn [advance bindP modifyP tryFinallyP liftP snd]. eexists. reflexivity.
Qed.

Lemma reconnectPending_eq s d :
  device s = Some d -> connecting s = false -> isLive d s = false ->
  reconnectPending s = snd (gattConnectCall d (set_connecting true s)).
Proof.
  intros Hd Hc Hl. unfold reconnectPending.
  destruct (reconnect_first_turn 0 s d Hd Hc Hl) as [k ->]. reflexivity.
Qed.

(** The first turn of [reconnect] stopped by its guard: the call is over
    and nothing has changed. *)
Lemma reconnect_guarded_turn extra s d :
  device s = Some d -> connecting s = true \/ isLive d s = true ->
  advance (reconnectP extra) s = (Over (inr tt), s).
Proof.
  intros Hd Hg. unfold reconnectP. cbn [advance bindP getsP]. rewrite Hd.
  cbn [advance bindP getsP].
  destruct Hg as [-> | ->]; [ reflexivity | ]. rewrite orb_true_r. reflexivity.
Qed.

Lemma reconnect_nothing_turn extra s :
  device s = None -> advance (reconnectP extra) s = (Over (inl noRememberedDevice), s).
Proof.
  intros Hd. unfold reconnectP. cbn [advance bindP getsP]. rewrite Hd. reflexivity.
Qed.

(** [reconnect] past its guard, run in one go. *)
Lemma reconnect_opens s d :
  device s = Some d -> connecting s = false -> isLive d s = false ->
  reconnect host s
  = tryFinally (openLink host d) (set_connecting false) (reconnectPending s).
Proof.
  intros Hd Hc Hl. rewrite (reconnectPending_eq s d Hd Hc Hl).
  unfold reconnect, gattConnected, gattConnectCall, record.
  unfold bind at 1. unfold gets at 1. cbv beta iota. rewrite Hd.
  unfold bind at 1. unfold gets at 1. cbv beta iota. rewrite Hc.
  unfold bind at 1. unfold gets at 1. cbv beta iota. rewrite Hl.
  cbn [orb]. unfold bind at 1. unfold modify at 1. cbv beta iota.
  unfold tryFinally, bind at 1, modify at 1. cbv beta iota.
  reflexivity.
Qed.

Lemma reconnect_guarded s d :
  device s = Some d -> connecting s = true \/ isLive d s = true ->
  reconnect host s = (Ret tt, s).
Proof.
  intros Hd Hg. unfold reconnect, gattConnected, bind, gets. cbv beta iota.
  rewrite Hd. destruct Hg as [-> | ->]; [ reflexivity | ].
  rewrite orb_true_r. reflexivity.
Qed.

Lemma reconnect_nothing_remembered s :
  device s = None -> reconnect host s = (Throw noRememberedDevice, s).
Proof.
  intros Hd. unfold reconnect, bind, gets. cbv beta iota. rewrite Hd. reflexivity.
Qed.

(** [reconnect] as a whole: when it throws the backoff is as it was and
    the value is the transport's or says that nothing is remembered;
    it asks for at most one connection. *)
Lemma reconnect_effect s :
  wp (reconnect host)
     (fun _ s' =>
        (connectCalls (log s') <= S (connectCalls (log s)))%nat)
     (fun e s' =>
        backoffMs s' = backoffMs s
        /\ (connectCalls (log s') <= S (connectCalls (log s)))%nat
        /\ (e = noRememberedDevice \/ fromTransport host e))
     s.
Proof.
  destruct (device s) as [d |] eqn:Hd.
  2: { unfold wp. rewrite (reconnect_nothing_remembered s Hd). auto. }
  destruct (connecting s) eqn:Hc.
  { unfold wp. rewrite (reconnect_guarded s d Hd (or_introl Hc)). lia. }
  destruct (isLive d s) eqn:Hl.
  { unfold wp. rewrite (reconnect_guarded s d Hd (or_intror Hl)). lia. }
  unfold wp. rewrite (reconnect_opens s d Hd Hc Hl).
  fold (wp (tryFinally (openLink host d) (set_connecting false))
          (fun _ s' => (connectCalls (log s') <= S (connectCalls (log s)))%nat)
          (fun e s' =>
             backoffMs s' = backoffMs s
             /\ (connectCalls (log s') <= S (connectCalls (log s)))%nat
             /\ (e = noRememberedDevice \/ fromTransport host e))
          (reconnectPending s)).
  apply wp_finally.
  eapply wp_mono; [ apply openLink_effect | | ]; cbv beta.
  - intros _ s' (_ & _ & _ & L). cbn [log set_connecting]. rewrite L.
    rewrite (reconnectPending_eq s d Hd Hc Hl).
    unfold gattConnectCall, record, modify. cbn [snd log set_log].
    rewrite connectCalls_app. unfold connectCalls. cbn. lia.
  - intros e s' (B & L & F). cbn [log backoffMs set_connecting]. rewrite L, B.
    rewrite (reconnectPending_eq s d Hd Hc Hl).
    unfold gattConnectCall, record, modify.
    cbn [snd log set_log backoffMs set_connecting].
    rewrite connectCalls_app. unfold connectCalls. cbn.
    repeat split; auto; lia.
Qed.

Lemma pending_calls s d :
  device s = Some d -> connecting s = false -> isLive d s = false ->
  connectCalls (log (reconnectPending s)) = S (connectCalls (log s)).
Proof.
  intros Hd Hc Hl. rewrite (reconnectPending_eq s d Hd Hc Hl).
  unfold gattConnectCall, record, modify. cbn [snd log set_log set_connecting].
  rewrite connectCalls_app. unfold connectCalls. cbn. lia.
Qed.

(** C5.  With no device active [reconnect] throws the error that says
    nothing is remembered.  Called while the device's session is live,
    or while [connecting] is set, it is over in its first turn and
    changes nothing.  Called otherwise, its first turn sets [connecting],
    asks the transport to connect once and leaves the call suspended at
    the [await] of that connect; [reconnectPending] is the state this
    first turn of the code leaves.  A second call started there is over
    in its first turn and leaves that state as it is: it asks for no
    connection, so the two calls in a row have asked the transport to
    connect exactly once.  What is left of the first call asks for none:
    run to its end with nothing in between, where it is the computation
    [reconnect], the call has asked for one connection in all. *)
Theorem reconnect_idempotent_in_flight s :
  (device s = None ->
     reconnect host s = (Throw noRememberedDevice, s)
     /\ forall extra, advance (reconnectP extra) s = (Over (inl noRememberedDevice), s))
  /\ (forall d,
        device s = Some d -> connecting s = true \/ isLive d s = true ->
        reconnect host s = (Ret tt, s)
        /\ forall extra, advance (reconnectP extra) s = (Over (inr tt), s))
  /\ (forall d,
        device s = Some d -> connecting s = false -> isLive d s = false ->
        let p := reconnectPending s in
        (forall extra, exists k, advance (reconnectP extra) s = (Suspended (PAwaitIo k), p))
        /\ connecting p = true
        /\ connectCalls (log p) = S (connectCalls (log s))
        /\ (forall extra, advance (reconnectP extra) p = (Over (inr tt), p))
        /\ reconnect host p = (Ret tt, p)
        /\ reconnect host s = tryFinally (openLink host d) (set_connecting false) p
        /\ connectCalls (log (snd (reconnect host s))) = S (connectCalls (log s)))
  /\ (forall st, atomic host (reconnectP 0) st = reconnect host st)
  /\ noRememberedDevice = ErrObj "Error" "以前に接続したデバイスがありません".
Proof.
  split.
  { intros Hd. split; [ apply reconnect_nothing_remembered, Hd | ].
    intros extra. apply reconnect_nothing_turn, Hd. }
  split.
  { intros d Hd Hg. split; [ apply (reconnect_guarded s d Hd Hg) | ].
    intros extra. apply (reconnect_guarded_turn extra s d Hd Hg). }
  split; [ | split; [ apply refines_reconnect | reflexivity ] ].
  intros d Hd Hc Hl p.
  assert (Ep : p = snd (gattConnectCall d (set_connecting true s)))
    by apply (reconnectPending_eq s d Hd Hc Hl).
  assert (Hdp : device p = Some d) by (rewrite Ep; exact Hd).
  assert (Hcp : connecting p = true) by (rewrite Ep; reflexivity).
  split.
  { intros extra. destruct (reconnect_first_turn extra s d Hd Hc Hl) as [k E].
    exists k. rewrite E, Ep. reflexivity. }
  split; [ exact Hcp | ].
  split; [ apply (pending_calls s d Hd Hc Hl) | ].
  split; [ intros extra; apply (reconnect_guarded_turn extra p d Hdp (or_introl Hcp)) | ].
  split; [ apply (reconnect_guarded p d Hdp (or_introl Hcp)) | ].
  split; [ apply reconnect_opens; assumption | ].
  rewrite (reconnect_opens s d Hd Hc Hl). fold p.
  pose proof (wp_run _ _ _ _ (openLink_effect d p)) as W.
  unfold tryFinally.
  destruct (openLink host d p) as [[u | e |] s1]; cbn [fst snd] in W |- *.
  - destruct W as (_ & _ & _ & L). cbn [log set_connecting]. rewrite L.
    apply (pending_calls s d Hd Hc Hl).
  - destruct W as (_ & L & _). cbn [log set_connecting]. rewrite L.
    apply (pending_calls s d Hd Hc Hl).
  - contradiction.
Qed.

(** *** Backoff *)

Lemma onConnected_backoff s : backoffMs (snd (onConnected host s)) = 1000.
Proof.
  destruct (markConnected_run s) as (s1 & E1 & _ & _ & _ & _ & _ & _ & B1).
  rewrite (onConnected_run host s s1 E1), drain_backoff. exact B1.
Qed.

Lemma timer_failure s e s1 :
  reconnect host (set_reconnectTimer None s) = (Throw e, s1) ->
  backoffMs (snd (reconnectTimerFired host s)) = Z.min (backoffMs s * 2) backoffMax.
Proof.
  intros E.
  pose proof (wp_run _ _ _ _ (reconnect_effect (set_reconnectTimer None s))) as W.
  rewrite E in W. cbn [fst snd] in W. destruct W as (B & _).
  unfold reconnectTimerFired. unfold bind at 1. unfold modify at 1. cbv beta iota.
  unfold tryCatch. rewrite E.
  unfold setError, bind, modify. cbn [fst snd].
  destruct (scheduleReconnect_run
              (set_backoffMs (Z.min (backoffMs (set_lastError (errorText e) s1) * 2) backoffMax)
                 (set_lastError (errorText e) s1)))
    as (s' & Es & _ & _ & _ & _ & _ & _ & Bs).
  rewrite Es. cbn [snd]. rewrite Bs. cbn. rewrite B. reflexivity.
Qed.

Lemma timer_success s d :
  device s = Some d -> connecting s = false -> isLive d s = false ->
  fst (reconnect host (set_reconnectTimer None s)) = Ret tt ->
  backoffMs (snd (reconnectTimerFired host s)) = 1000.
Proof.
  intros Hd Hc Hl Hr.
  unfold reconnectTimerFired. unfold bind at 1. unfold modify at 1. cbv beta iota.
  unfold tryCatch.
  assert (Ho := reconnect_opens (set_reconnectTimer None s) d Hd Hc Hl).
  rewrite Ho in Hr |- *.
  pose proof (wp_run _ _ _ _
                (openLink_effect d (reconnectPending (set_reconnectTimer None s)))) as W.
  unfold tryFinally in Hr |- *.
  destruct (openLink host d (reconnectPending (set_reconnectTimer None s)))
    as [[u | e |] s1]; cbn [fst snd] in W, Hr |- *.
  - destruct W as (B & _). exact B.
  - discriminate.
  - contradiction.
Qed.

End Reconnecting.

(** The link is lost; [reconnect] is called and, while it is pending,
    called again. *)
Lemma reconnect_idempotent_in_flight_witness :
  (exists k, advance (reconnectP 0) lost = (Suspended (PAwaitIo k), reconnectPending lost))
  /\ connecting (reconnectPending lost) = true
  /\ connectCalls (log (reconnectPending lost)) = S (connectCalls (log lost))
  /\ advance (reconnectP 0) (reconnectPending lost)
     = (Over (inr tt), reconnectPending lost)
  /\ connectCalls (log (snd (reconnect steadyHost lost))) = S (connectCalls (log lost))
  /\ reconnect steadyHost initial = (Throw noRememberedDevice, initial).
Proof.
  pose proof (reconnect_idempotent_in_flight steadyHost lost) as (_ & _ & H & _).
  assert (E1 : device lost = Some relayA) by (vm_compute; reflexivity).
  assert (E2 : connecting lost = false) by (vm_compute; reflexivity).
  assert (E3 : isLive relayA lost = false) by (vm_compute; reflexivity).
  destruct (H relayA E1 E2 E3) as (H1 & H2 & H3 & H4 & _ & _ & H5).
  split; [ exact (H1 0%nat) | ].
  split; [ exact H2 | ].
  split; [ exact H3 | ].
  split; [ exact (H4 0%nat) | ].
  split; [ exact H5 | ].
  exact (proj1 (proj1 (reconnect_idempotent_in_flight steadyHost initial) eq_refl)).
Defined.

Lemma capped_doubling b n :
  0 <= n ->
  Z.min (Z.min (b * 2) backoffMax * 2 ^ n) backoffMax = Z.min (b * 2 ^ (n + 1)) backoffMax.
Proof.
  intros Hn. unfold backoffMax.
  assert (P : 1 <= 2 ^ n) by (apply Z.pow_pos_nonneg with (a := 2) in Hn; lia).
  rewrite Z.pow_add_r by lia. change (2 ^ 1) with 2.
  destruct (Z.le_gt_cases (b * 2) 15000) as [H | H].
  - rewrite (Z.min_l (b * 2)) by lia. f_equal. ring.
  - rewrite (Z.min_r (b * 2)) by lia.
    rewrite Z.min_r by nia. rewrite Z.min_r by nia. reflexivity.
Qed.

(** C6.  A failed attempt of the reconnect timer leaves
    [min (2 * backoffMs) 15000] in [backoffMs]; after [n] failed attempts
    in a row it holds [min (2 ^ n * backoffMs) 15000]; [onConnected] puts
    it back to 1000, and so does an attempt of the timer that connects. *)
Theorem backoff_doubles_until_success host :
  (forall s e s1,
      reconnect host (set_reconnectTimer None s) = (Throw e, s1) ->
      backoffMs (snd (reconnectTimerFired host s)) = Z.min (backoffMs s * 2) backoffMax)
  /\ (forall n s s',
        failedAttempts host (S n) s s' ->
        backoffMs s' = Z.min (backoffMs s * 2 ^ Z.of_nat (S n)) backoffMax)
  /\ (forall s, backoffMs (snd (onConnected host s)) = 1000)
  /\ (forall s d,
        device s = Some d -> connecting s = false -> isLive d s = false ->
        fst (reconnect host (set_reconnectTimer None s)) = Ret tt ->
        backoffMs (snd (reconnectTimerFired host s)) = 1000)
  /\ backoffMax = 15000.
Proof.
  split; [ exact (timer_failure host) | ].
  split; [ | split; [ exact (onConnected_backoff host) | split;
                      [ exact (timer_success host) | reflexivity ] ] ].
  induction n as [| n IH]; intros s s' H.
  - inversion H as [| n0 s0 e s1 s0' E F]; subst.
    inversion F; subst.
    rewrite (timer_failure host s e s1 E). change (2 ^ Z.of_nat 1) with 2. reflexivity.
  - inversion H as [| n0 s0 e s1 s0' E F]; subst.
    rewrite (IH _ _ F), (timer_failure host s e s1 E).
    rewrite capped_doubling by lia. f_equal. f_equal. f_equal. lia.
Qed.

Lemma attempt_fails s :
  fst (reconnect (failingFrom 6) (set_reconnectTimer None s)) = Throw gattFailure ->
  reconnect (failingFrom 6) (set_reconnectTimer None s)
  = (Throw gattFailure, snd (reconnect (failingFrom 6) (set_reconnectTimer None s))).
Proof.
  intros H. destruct (reconnect (failingFrom 6) (set_reconnectTimer None s)) as [r s'].
  cbn [fst snd] in *. rewrite H. reflexivity.
Qed.

(** Failed attempts after the link was lost: 1000, 2000, 4000, 8000,
    15000, 15000; and a connection puts the delay back to 1000. *)
Lemma backoff_doubles_until_success_witness :
  backoffMs (fired (failingFrom 6) lost) = 2000
  /\ backoffMs
       (fired (failingFrom 6) (fired (failingFrom 6) (fired (failingFrom 6)
          (fired (failingFrom 6) (fired (failingFrom 6) lost)))))
     = 15000
  /\ backoffMs (fired steadyHost (fired (failingFrom 6) lost)) = 1000.
Proof.
  pose proof (backoff_doubles_until_success (failingFrom 6)) as (H1 & H2 & _).
  pose proof (backoff_doubles_until_success steadyHost) as (_ & _ & _ & H4 & _).
  split; [ | split ].
  - assert (F : fst (reconnect (failingFrom 6) (set_reconnectTimer None lost))
                = Throw gattFailure) by (vm_compute; reflexivity).
    unfold fired. rewrite (H1 lost gattFailure _ (attempt_fails lost F)).
    vm_compute. reflexivity.
  - assert (F : failedAttempts (failingFrom 6) 5 lost
                  (fired (failingFrom 6) (fired (failingFrom 6) (fired (failingFrom 6)
                     (fired (failingFrom 6) (fired (failingFrom 6) lost)))))).
    { unfold fired.
      repeat (eapply failed_more; [ apply attempt_fails; vm_compute; reflexivity | ]).
      apply failed_none. }
    rewrite (H2 4%nat lost _ F). vm_compute. reflexivity.
  - unfold fired at 1.
    apply (H4 (fired (failingFrom 6) lost) relayA); vm_compute; reflexivity.
Defined.

End Reconnect.

(* ================================================================== *)
(** ** Connecting by id *)

Module Connect.

Import Drain Reconnect.

Section Connecting.

Variable host : Host.

Lemma declareIntent_run s :
  exists s', declareIntent s = (Ret tt, s') /\ known s' = known s.
Proof.
  unfold declareIntent, clearError, stopReconnectTimer, bind, gets, modify, ret. cbn.
  destruct (reconnectTimer s); eexists; split; reflexivity.
Qed.

(** A scan-and-connect throws nothing but what the transport gave it. *)
Lemma requestAndConnect_effect s :
  wp (requestAndConnect host) (fun _ _ => True) (fun e _ => fromTransport host e) s.
Proof.
  unfold requestAndConnect, attachDevice, setActive, rememberDevice, gattConnectCall, record.
  apply wp_bind, wp_catch.
  apply requestDevice_wp; cbv beta.
  - intros d _. wp_go.
    eapply wp_mono; [ apply openLink_effect | auto | ].
    cbv beta. intros e s' (_ & _ & F). exact F.
  - intros e0 _.
    apply requestDevice_wp; cbv beta.
    + intros d _. wp_go.
      eapply wp_mono; [ apply openLink_effect | auto | ].
      cbv beta. intros e s' (_ & _ & F). exact F.
    + intros e He. right. eexists. exact He.
Qed.

Lemma retryByScan_effect e s :
  wp (retryByScan host e) (fun _ _ => True) (fun e' _ => fromTransport host e') s.
Proof.
  unfold retryByScan, setError. wp_go.
  eapply wp_mono; [ apply requestAndConnect_effect | auto | ].
  cbv beta. intros ee s'' F. wp_go. exact F.
Qed.

Lemma scanWithRetry_effect s :
  wp (scanWithRetry host) (fun _ _ => True) (fun e _ => fromTransport host e) s.
Proof.
  unfold scanWithRetry. apply wp_catch.
  eapply wp_mono; [ apply requestAndConnect_effect | auto | ].
  cbv beta. intros e s' _. apply retryByScan_effect.
Qed.


Lemma connectById_known argId s dev :
  findById (Js.trim argId) s = Some dev ->
  connectById host argId s
  = (declareIntent ;;
     tryCatch (setActive dev ;; reconnect host) (retryByScan host)) s.
Proof.
  intros Hf.
  destruct (declareIntent_run s) as (s' & E & K).
  assert (Hf' : findById (Js.trim argId) s' = Some dev).
  { unfold findById in *. rewrite K. exact Hf. }
  unfold connectById. rewrite !(bind_run declareIntent _ s tt s' E).
  unfold tryCatch. unfold bind at 1. unfold gets. rewrite Hf'. reflexivity.
Qed.



End Connecting.


End Connect.

(* ================================================================== *)
(** ** Bulk dispatch *)

Module Bulk.

Import Drain Reconnect.

Lemma forEach_ext {A} (l : list A) (f g : A -> M unit) :
  (forall x s, f x s = g x s) -> forall s, forEach l f s = forEach l g s.
Proof.
  intros H. induction l as [| x r IH]; intros s; [ reflexivity | ].
  cbn [forEach]. unfold bind. rewrite H.
  destruct (g x s) as [[u | e |] s']; [ apply IH | reflexivity | reflexivity ].
Qed.

Lemma isPrefix_app p r : Js.isPrefix p (p ++ r) = true.
Proof.
  induction p as [| a p IH]; [ reflexivity | ].
  cbn. rewrite Ascii.eqb_refl. exact IH.
Qed.

Lemma includes_app a p r : Js.includes (a ++ p ++ r) p = true.
Proof.
  induction a as [| c a IH].
  - cbn [append]. destruct (p ++ r) eqn:E; cbn [Js.includes];
      rewrite <- E, isPrefix_app; reflexivity.
  - cbn [append Js.includes]. rewrite IH. apply orb_true_r.
Qed.

Section Dispatch.

Variable host : Host.

Lemma sendAscii_total tok s :
  wp (sendAscii host tok) (fun _ _ => True) (fun _ _ => True) s.
Proof.
  unfold sendAscii, enqueue, scheduleReconnect, writeValue, record.
  repeat (first [ wp_step; cbv beta | apply awaitIo_wp; intros ]); exact I.
Qed.

Lemma applyAction_total act s :
  wp (applyAction host act) (fun _ _ => True) (fun _ _ => True) s.
Proof.
  unfold applyAction, readState.
  repeat match goal with |- context [if ?b then _ else _] => destruct b end;
    apply sendAscii_total.
Qed.

Lemma resolveAndOpen_total id s :
  wp (resolveAndOpen host id) (fun _ _ => True) (fun _ _ => True) s.
Proof.
  unfold resolveAndOpen, setActive, gattConnected, gattConnectCall, record.
  wp_go; try exact I.
  all: eapply wp_mono; [ apply openLink_effect | auto | auto ].
Qed.

Lemma connectSendById_total id act s :
  wp (connectSendById host id act) (fun _ _ => True) (fun _ _ => True) s.
Proof.
  unfold connectSendById. apply wp_bind.
  eapply wp_mono; [ apply resolveAndOpen_total | | auto ].
  cbv beta. intros _ s' _. apply applyAction_total.
Qed.

(** A turn of the loop always returns. *)
Lemma bulkStep_returns act id s :
  wp (bulkStep host act id) (fun _ _ => True) (fun _ _ => False) s.
Proof.
  unfold bulkStep, setError. apply wp_catch.
  eapply wp_mono; [ apply connectSendById_total | auto | ].
  cbv beta. intros e s' _. wp_go. exact I.
Qed.

Lemma bulkCsv_returns argCsv argAct s : fst (bulkCsv host argCsv argAct s) = Ret tt.
Proof.
  assert (W : wp (bulkCsv host argCsv argAct) (fun _ _ => True) (fun _ _ => False) s).
  { unfold bulkCsv, bulkApply, clearError. wp_go; [ exact I | ].
    apply (wp_forEach (fun _ => True)); [ | exact I ].
    intros id s' _. apply bulkStep_returns. }
  apply wp_run in W.
  destruct (fst (bulkCsv host argCsv argAct s)) as [[] | e |];
    [ reflexivity | contradiction | contradiction ].
Qed.

Lemma bulkStep_caught act id s e s' :
  connectSendById host id act s = (Throw e, s') ->
  bulkStep host act id s
  = (Ret tt, set_lastError ("ID " ++ id ++ ": " ++ errorText e) s').
Proof.
  intros E. unfold bulkStep, tryCatch. rewrite E. reflexivity.
Qed.

Lemma connectSendById_unknown act id s :
  findById id s = None -> connectSendById host id act s = (Throw (unknownId id), s).
Proof.
  intros Hf. unfold connectSendById, resolveAndOpen, bind, gets. rewrite Hf. reflexivity.
Qed.

Lemma applyAction_other act :
  (act =? "ON")%string = false -> (act =? "OFF")%string = false ->
  (act =? "TOGGLE")%string = false ->
  applyAction host act = sendAscii host "s".
Proof. intros H1 H2 H3. unfold applyAction. rewrite H1, H2, H3. reflexivity. Qed.

Lemma carries_gets {A} (f : Sys -> A) s :
  (forall x, f (set_lastError x s) = f s) -> carriesAt (gets f) s.
Proof. intros H x. unfold gets. rewrite H. reflexivity. Qed.

Lemma carries_modify (f : Sys -> Sys) s :
  (forall x, f (set_lastError x s) = set_lastError x (f s)) -> carriesAt (modify f) s.
Proof. intros H x. unfold modify. rewrite H. reflexivity. Qed.

Lemma carries_ret {A} (a : A) s : carriesAt (ret a) s.
Proof. intros x. reflexivity. Qed.

Lemma carries_awaitIo s : carriesAt (awaitIo host) s.
Proof.
  intros x. unfold awaitIo. cbn [tick set_lastError].
  destruct (ioReply host (tick s)); reflexivity.
Qed.

Lemma carries_bind {A B} (m : M A) (k : A -> M B) s :
  carriesAt m s ->
  (forall a s', m s = (Ret a, s') -> carriesAt (k a) s') ->
  carriesAt (bind m k) s.
Proof.
  intros Hm Hk x. unfold bind. rewrite Hm.
  destruct (m s) as [[a | e |] s'] eqn:E; cbn [fst snd]; try reflexivity.
  apply (Hk a s' eq_refl).
Qed.

Lemma settles_after {A B} (m : M A) (k : A -> M B) s :
  carriesAt m s ->
  (forall a s', m s = (Ret a, s') -> settlesAt (k a) s') ->
  settlesAt (bind m k) s.
Proof.
  intros Hm Hk x.
  assert (Eb : bind m k (set_lastError x s)
               = match fst (m s) with
                 | Ret a => k a (set_lastError x (snd (m s)))
                 | Throw e => (Throw e, set_lastError x (snd (m s)))
                 | Hang => (Hang, set_lastError x (snd (m s)))
                 end).
  { unfold bind. rewrite Hm. reflexivity. }
  rewrite Eb. clear Eb. unfold bind.
  destruct (m s) as [[a | e |] s'] eqn:E; cbn [fst snd].
  - apply (Hk a s' eq_refl).
  - right. left. exists e. split; reflexivity.
  - right. right. reflexivity.
Qed.

Lemma settles_then {A B} (m : M A) (k : A -> M B) s :
  settlesAt m s -> settlesAt (bind m k) s.
Proof.
  intros Hm x. destruct (Hm x) as [E | [(e & E1 & E2) | E]].
  - left. unfold bind. rewrite E. reflexivity.
  - right. left. exists e.
    assert (Eb : bind m k (set_lastError x s)
                 = (Throw e, set_lastError x (snd (m s)))).
    { unfold bind. rewrite E2. reflexivity. }
    rewrite Eb. clear Eb E2. unfold bind.
    destruct (m s) as [[a | e' |] s']; cbn [fst snd] in *; try discriminate.
    injection E1 as ->. split; reflexivity.
  - right. right. unfold bind.
    destruct (m s) as [[a | e' |] s']; cbn [fst] in *; try discriminate. reflexivity.
Qed.

Ltac carry :=
  repeat first
    [ apply carries_ret
    | apply carries_awaitIo
    | apply carries_gets; intros; reflexivity
    | apply carries_modify; intros; reflexivity
    | apply carries_bind; [ | intros ? ? _ ]
    | match goal with
      | |- carriesAt (match ?v with _ => _ end) _ => destruct v
      end ].

Lemma carries_setupGatt s : carriesAt (setupGatt host) s.
Proof.
  unfold setupGatt, record.
  apply carries_bind; [ carry | intros a s' _ ].
  destruct a; [ carry | intros x; reflexivity ].
Qed.

Lemma settles_onConnected s : settlesAt (onConnected host) s.
Proof.
  unfold onConnected. apply settles_then.
  intros x. left. apply markConnected_forgets.
Qed.

Lemma settles_openLink d s : settlesAt (openLink host d) s.
Proof.
  unfold openLink, gattConnectSettle.
  apply settles_after; [ carry | intros a s1 _ ].
  apply settles_after; [ carry | intros u s2 _ ].
  apply settles_after; [ apply carries_setupGatt | intros v s3 _ ].
  apply settles_onConnected.
Qed.

Lemma settles_resolveAndOpen id dev s :
  findById id s = Some dev -> isLive dev s = false ->
  settlesAt (resolveAndOpen host id) s.
Proof.
  intros Hf Hl. unfold resolveAndOpen, gattConnected.
  apply settles_after; [ carry | intros found s1 E ].
  injection E as <- <-. rewrite Hf.
  apply settles_after; [ carry | intros cur s1 E ].
  injection E as <- <-.
  assert (Hd : forall d s2,
             (match device s with
              | Some d0 =>
                if negb (dev_id d0 =? dev_id dev)%string then setActive dev ;; ret dev
                else ret d0
              | None => setActive dev ;; ret dev
              end) s = (Ret d, s2) ->
             dev_id d = dev_id dev /\ live s2 = live s).
  { intros d s2. unfold setActive, bind, modify, ret.
    destruct (device s) as [d0 |]; [ destruct (dev_id d0 =? dev_id dev)%string eqn:Ed | ];
      cbn; intros E; injection E as <- <-; split; try reflexivity.
    apply String.eqb_eq. exact Ed. }
  apply settles_after.
  { unfold setActive. destruct (device s) as [d0 |];
      [ destruct (negb (dev_id d0 =? dev_id dev)%string) | ]; carry. }
  intros d s2 E. destruct (Hd d s2 E) as (Hid & Hlive).
  apply settles_after; [ carry | intros l s3 E3 ].
  injection E3 as <- <-.
  assert (Hl2 : isLive d s2 = false).
  { unfold isLive in *. rewrite Hid, Hlive. exact Hl. }
  rewrite Hl2. cbn [negb when].
  apply settles_after; [ unfold gattConnectCall, record; carry | intros u s4 _ ].
  apply settles_openLink.
Qed.

(** When the device of an id has to be connected, what the turn leaves
    does not depend on what [lastError] held before: the connection
    succeeds and [onConnected] clears the slot, or it fails and the
    failure is written over it. *)
Lemma bulkStep_forgets act id dev s x :
  findById id s = Some dev -> isLive dev s = false ->
  bulkStep host act id (set_lastError x s) = bulkStep host act id s.
Proof.
  intros Hf Hl.
  assert (S : settlesAt (connectSendById host id act) s).
  { unfold connectSendById. apply settles_then.
    apply (settles_resolveAndOpen id dev); assumption. }
  pose proof (wp_run _ _ _ _ (connectSendById_total id act s)) as T.
  unfold bulkStep, tryCatch.
  destruct (S x) as [E | [(e & E1 & E2) | E]].
  - rewrite E. reflexivity.
  - rewrite E2.
    destruct (connectSendById host id act s) as [[u | e' |] s']; cbn [fst snd] in *;
      try discriminate.
    injection E1 as ->. reflexivity.
  - rewrite E in T. contradiction.
Qed.

(** A turn that has to connect the device of its id ends, if the
    connection succeeds, with the link up on that device's write
    characteristic. *)
Lemma resolveAndOpen_connects id dev s :
  findById id s = Some dev -> isLive dev s = false ->
  wp (resolveAndOpen host id)
     (fun _ s' =>
        connected s' = true
        /\ rxChar s' = Some {| ch_device := dev_id dev; ch_uuid := NUS_RX_CHAR |})
     (fun _ _ => True) s.
Proof.
  intros Hf Hl. unfold resolveAndOpen, gattConnected.
  apply wp_bind, wp_gets. rewrite Hf.
  apply wp_bind, wp_gets, wp_bind.
  assert (Hgo : forall d s2,
             dev_id d = dev_id dev -> live s2 = live s ->
             wp (l <- gets (isLive d) ;; when (negb l) (gattConnectCall d ;; openLink host d))
                (fun _ s' =>
                   connected s' = true
                   /\ rxChar s' = Some {| ch_device := dev_id dev; ch_uuid := NUS_RX_CHAR |})
                (fun _ _ => True) s2).
  { intros d s2 Hid Hlive. apply wp_bind, wp_gets.
    assert (Hl2 : isLive d s2 = false).
    { unfold isLive in *. rewrite Hid, Hlive. exact Hl. }
    rewrite Hl2. cbn [negb when]. unfold gattConnectCall, record.
    apply wp_bind, wp_modify.
    eapply wp_mono; [ apply openLink_effect | | auto ].
    cbv beta. intros _ s' (_ & C & R & _). rewrite Hid in R. auto. }
  unfold setActive.
  destruct (device s) as [d0 |]; [ destruct (dev_id d0 =? dev_id dev)%string eqn:Ed | ];
    cbn [negb].
  - apply wp_ret. apply Hgo; [ apply String.eqb_eq; exact Ed | reflexivity ].
  - apply wp_bind, wp_modify, wp_ret. apply Hgo; reflexivity.
  - apply wp_bind, wp_modify, wp_ret. apply Hgo; reflexivity.
Qed.

(** Such a turn writes its token to the device of its id. *)
Lemma connectSendById_writes id dev act tok s :
  findById id s = Some dev -> isLive dev s = false ->
  applyAction host act = sendAscii host tok ->
  wp (connectSendById host id act)
     (fun _ s' =>
        exists l,
          log s' = (l ++ [TWrite {| ch_device := dev_id dev; ch_uuid := NUS_RX_CHAR |} tok])%list)
     (fun _ _ => True) s.
Proof.
  intros Hf Hl Ha. unfold connectSendById. rewrite Ha. apply wp_bind.
  eapply wp_mono; [ apply (resolveAndOpen_connects id dev); assumption | | auto ].
  cbv beta. intros _ s' (C & R).
  unfold wp. rewrite (sendAscii_write host tok s' _ C R).
  unfold writeValue, record, bind, modify, awaitIo. cbn.
  destruct (ioReply host (tick s')); [ exact I | ].
  eexists. reflexivity.
Qed.

Lemma bulkApply_loop csv act s :
  bulkApply host csv act s = forEach (csvIds csv) (bulkStep host act) s.
Proof. unfold bulkApply. destruct csv; reflexivity. Qed.

Lemma bulkCsv_loop argCsv argAct s :
  bulkCsv host argCsv argAct s
  = (clearError ;;
     forEach (csvIds (Js.trim argCsv))
             (bulkStep host (toUpperCase host (Js.orElse argAct "ON")))) s.
Proof. unfold bulkCsv, bind, clearError, modify. apply bulkApply_loop. Qed.

Lemma bulkStep_other act id s :
  (act =? "ON")%string = false -> (act =? "OFF")%string = false ->
  (act =? "TOGGLE")%string = false ->
  bulkStep host act id s = bulkStep host "READ" id s.
Proof.
  intros H1 H2 H3. unfold bulkStep, connectSendById.
  rewrite (applyAction_other act H1 H2 H3). reflexivity.
Qed.

End Dispatch.

(** C8, as the code has it.  [bulkCsv] clears the error slot and then
    takes the trimmed, non-empty ids of the list one after the other, in
    their order.  A turn never throws, so a failure does not keep the
    ids behind it from being processed and the block always returns.
    What the turn of an id catches is written to [lastError] as a text
    that names the id; for an unknown id that is the unknown-id error.
    The text stays until a later failure writes over it or a later id's
    device has to be connected: such a turn ends the same whatever the
    slot held, and the token it writes goes to the device it connected.
    So with [a] and [c] remembered but not connected, [b]
    unknown and the transport working, ["a,b,c"] with ["OFF"] sends "0"
    to [a] and to [c] and leaves [lastError] empty. *)
Theorem bulk_isolates_failures host argCsv argAct s :
  let act := toUpperCase host (Js.orElse argAct "ON") in
  bulkCsv host argCsv argAct s
  = (clearError ;; forEach (csvIds (Js.trim argCsv)) (bulkStep host act)) s
  /\ fst (bulkCsv host argCsv argAct s) = Ret tt
  /\ (forall id st, fst (bulkStep host act id st) = Ret tt)
  /\ (forall id st e st',
        connectSendById host id act st = (Throw e, st') ->
        bulkStep host act id st
        = (Ret tt, set_lastError ("ID " ++ id ++ ": " ++ errorText e) st')
        /\ Js.includes (getError (snd (bulkStep host act id st))) id = true)
  /\ (forall id st,
        findById id st = None ->
        bulkStep host act id st
        = (Ret tt, set_lastError ("ID " ++ id ++ ": 未知のID: " ++ id) st))
  /\ (forall id dev st x,
        findById id st = Some dev -> isLive dev st = false ->
        bulkStep host act id (set_lastError x st) = bulkStep host act id st)
  /\ (forall id dev st tok,
        findById id st = Some dev -> isLive dev st = false ->
        applyAction host act = sendAscii host tok ->
        wp (connectSendById host id act)
           (fun _ st' =>
              exists l,
                log st'
                = (l ++ [TWrite {| ch_device := dev_id dev; ch_uuid := NUS_RX_CHAR |}
                           tok])%list)
           (fun _ _ => True) st)
  /\ (findById "a" remembered = Some relayA /\ findById "c" remembered = Some relayC
      /\ findById "b" remembered = None
      /\ writesOf (log (snd (bulkCsv twoRelays "a,b,c" "OFF" remembered)))
         = (writesOf (log remembered) ++ [("a", "0"); ("c", "0")])%list
      /\ getError (snd (bulkCsv twoRelays "a,b,c" "OFF" remembered)) = EmptyString).
Proof.
  intros act.
  split; [ apply bulkCsv_loop | ].
  split; [ apply bulkCsv_returns | ].
  split.
  { intros id st. pose proof (wp_run _ _ _ _ (bulkStep_returns host act id st)) as W.
    destruct (fst (bulkStep host act id st)) as [[] | e |];
      [ reflexivity | contradiction | contradiction ]. }
  split.
  { intros id st e st' E. rewrite (bulkStep_caught host act id st e st' E).
    split; [ reflexivity | ].
    cbn [snd getError lastError set_lastError]. apply includes_app. }
  split.
  { intros id st Hf.
    rewrite (bulkStep_caught host act id st _ st (connectSendById_unknown host act id st Hf)).
    reflexivity. }
  split; [ intros id dev st x; apply bulkStep_forgets | ].
  split; [ intros id dev st tok; apply connectSendById_writes | ].
  vm_compute. repeat split.
Qed.

(** An unknown id in the middle of a list, on a transport that works. *)
Lemma bulk_isolates_failures_witness :
  bulkStep twoRelays "OFF" "b" remembered
  = (Ret tt, set_lastError "ID b: 未知のID: b" remembered)
  /\ bulkStep twoRelays "OFF" "c" (set_lastError "ID b: 未知のID: b" remembered)
     = bulkStep twoRelays "OFF" "c" remembered.
Proof.
  split.
  - apply (proj1 (proj2 (proj2 (proj2 (proj2
             (bulk_isolates_failures twoRelays "a,b,c" "OFF" remembered))))) "b" remembered).
    reflexivity.
  - apply (proj1 (proj2 (proj2 (proj2 (proj2 (proj2
             (bulk_isolates_failures twoRelays "a,b,c" "OFF" remembered)))))) "c" relayC);
      reflexivity.
Defined.

(** C8 as it is stated fails: only [b] is unknown, [a] and [c] are each
    sent "0", and the last error in the end does not mention [b]. *)
Lemma bulk_last_error_not_about_b :
  findById "a" remembered <> None /\ findById "c" remembered <> None
  /\ findById "b" remembered = None
  /\ writesOf (log (snd (bulkCsv twoRelays "a,b,c" "OFF" remembered)))
     = (writesOf (log remembered) ++ [("a", "0"); ("c", "0")])%list
  /\ Js.includes (getError (snd (bulkCsv twoRelays "a,b,c" "OFF" remembered))) "b" = false.
Proof. vm_compute. repeat split; discriminate. Qed.

(** C10, as the code has it.  [bulkCsv] takes ["ON"] for an empty action
    argument and puts the action in upper case; when the result is none
    of ["ON"], ["OFF"] and ["TOGGLE"], whatever else it is, every id is
    handled as for ["READ"]: its device is resolved and connected as for
    any action, and then the token "s" is sent with [sendAscii]; when the
    turn had to connect the device and the write is made, it is made on
    that device's write characteristic. *)
Theorem bulk_unlisted_action_reads host argCsv argAct s :
  let act := toUpperCase host (Js.orElse argAct "ON") in
  (argAct = EmptyString -> act = toUpperCase host "ON")
  /\ ((act =? "ON")%string = false -> (act =? "OFF")%string = false ->
      (act =? "TOGGLE")%string = false ->
      applyAction host act = sendAscii host "s"
      /\ applyAction host "READ" = sendAscii host "s"
      /\ (forall id st,
            connectSendById host id act st
            = (resolveAndOpen host id ;; sendAscii host "s") st)
      /\ (forall id dev st,
            findById id st = Some dev -> isLive dev st = false ->
            wp (connectSendById host id act)
               (fun _ st' =>
                  exists l,
                    log st'
                    = (l ++ [TWrite {| ch_device := dev_id dev; ch_uuid := NUS_RX_CHAR |}
                               "s"])%list)
               (fun _ _ => True) st)
      /\ bulkCsv host argCsv argAct s
         = (clearError ;; forEach (csvIds (Js.trim argCsv)) (bulkStep host "READ")) s).
Proof.
  intros act. split.
  - intros ->. reflexivity.
  - intros H1 H2 H3.
    split; [ apply applyAction_other; assumption | ].
    split; [ reflexivity | ].
    split; [ | split ].
    + intros id st. unfold connectSendById.
      rewrite (applyAction_other host act H1 H2 H3). reflexivity.
    + intros id dev st Hf Hl.
      apply (connectSendById_writes host id dev act "s" st Hf Hl).
      apply applyAction_other; assumption.
    + rewrite bulkCsv_loop. fold act. unfold bind.
      destruct (clearError s) as [[u | e |] s']; try reflexivity.
      apply forEach_ext. intros id st. apply bulkStep_other; assumption.
Qed.

(** A junk action: with the relay connected "s" is written, and from the
    state in which both relays are remembered but not connected the turn
    of [c] connects it and writes "s" on its characteristic. *)
Lemma bulk_unlisted_action_reads_witness :
  bulkCsv twoRelays "a" "blink" linked
  = (clearError ;; forEach (csvIds (Js.trim "a")) (bulkStep twoRelays "READ")) linked
  /\ writesOf (log (snd (bulkCsv twoRelays "a" "blink" linked))) = [("a", "s")]
  /\ wp (connectSendById twoRelays "c" "BLINK")
        (fun _ st' => exists l, log st' = (l ++ [TWrite rxC "s"])%list)
        (fun _ _ => True) remembered.
Proof.
  pose proof (proj2 (bulk_unlisted_action_reads twoRelays "a" "blink" linked)
                eq_refl eq_refl eq_refl) as (_ & _ & _ & H4 & H5).
  split; [ exact H5 | split; [ vm_compute; reflexivity | ] ].
  apply (H4 "c" relayC remembered); vm_compute; reflexivity.
Defined.

(** C10 as it is stated fails: the empty action is none of the three
    names, and it is dispatched as ON: "1" is written, not "s". *)
Lemma bulk_empty_action_is_on :
  EmptyString <> "ON" /\ EmptyString <> "OFF" /\ EmptyString <> "TOGGLE"
  /\ (Js.asciiUpper EmptyString =? "ON")%string = false
  /\ writesOf (log (snd (bulkCsv twoRelays "a" EmptyString linked))) = [("a", "1")].
Proof. vm_compute. repeat split; discriminate. Qed.

(** Both relays connected, [c] last: the turn of [a] finds its session
    live, connects nothing, and its token is written on the write
    characteristic at hand, which is the one of [c]. *)
Lemma bulk_token_on_the_characteristic_at_hand :
  let both := after twoRelays [BtnConnect; BtnConnect] initial in
  findById "a" both = Some relayA
  /\ isLive relayA both = true
  /\ rxChar both = Some rxC
  /\ writesOf (log (snd (bulkCsv twoRelays "a" "READ" both))) = [("c", "s")].
Proof. vm_compute. repeat split. Qed.

End Bulk.

(* ================================================================== *)
(** ** What a computation leaves alone *)

Section Leaves.

Context {X : Type} (f : Sys -> X).

Lemma leaves_ret {A} (a : A) : leaves f (ret a).
Proof. intros s. reflexivity. Qed.

Lemma leaves_throw {A} e : leaves f (@throw A e).
Proof. intros s. reflexivity. Qed.

Lemma leaves_hang {A} : leaves f (@hang A).
Proof. intros s. reflexivity. Qed.

Lemma leaves_gets {A} (g : Sys -> A) : leaves f (gets g).
Proof. intros s. reflexivity. Qed.

Lemma leaves_modify g : (forall s, f (g s) = f s) -> leaves f (modify g).
Proof. intros H s. apply H. Qed.

Lemma leaves_bind {A B} (m : M A) (k : A -> M B) :
  leaves f m -> (forall a, leaves f (k a)) -> leaves f (bind m k).
Proof.
  intros Hm Hk s. unfold bind. specialize (Hm s).
  destruct (m s) as [[a | e |] s']; cbn in *; [ | exact Hm | exact Hm ].
  rewrite Hk. exact Hm.
Qed.

Lemma leaves_catch {A} (m : M A) h :
  leaves f m -> (forall e, leaves f (h e)) -> leaves f (tryCatch m h).
Proof.
  intros Hm Hh s. unfold tryCatch. specialize (Hm s).
  destruct (m s) as [[a | e |] s']; cbn in *; [ exact Hm | | exact Hm ].
  rewrite Hh. exact Hm.
Qed.

Lemma leaves_finally {A} (m : M A) fin :
  leaves f m -> (forall s, f (fin s) = f s) -> leaves f (tryFinally m fin).
Proof.
  intros Hm Hf s. unfold tryFinally. specialize (Hm s).
  destruct (m s) as [[a | e |] s']; cbn in *; rewrite ?Hf; exact Hm.
Qed.

Lemma leaves_attempt {A} (m : M A) : leaves f m -> leaves f (attempt m).
Proof.
  intros Hm s. unfold attempt. specialize (Hm s).
  destruct (m s) as [[a | e |] s']; exact Hm.
Qed.

Lemma leaves_when b m : leaves f m -> leaves f (when b m).
Proof. intros Hm. destruct b; [ exact Hm | apply leaves_ret ]. Qed.

Lemma leaves_forEach {A} (l : list A) body :
  (forall x, leaves f (body x)) -> leaves f (forEach l body).
Proof.
  intros Hb. induction l as [| x r IH]; cbn [forEach].
  - apply leaves_ret.
  - apply leaves_bind; [ apply Hb | intros _; exact IH ].
Qed.

Variable host : Host.
Hypothesis f_off : offTransport f.

Lemma leaves_awaitIo : leaves f (awaitIo host).
Proof.
  intros s. unfold awaitIo. destruct (ioReply host (tick s)); cbn; apply f_off.
Qed.

Lemma leaves_record c : leaves f (record c).
Proof. apply leaves_modify. intros s. apply f_off. Qed.

Lemma leaves_requestDevice acceptAll : leaves f (requestDevice host acceptAll).
Proof.
  unfold requestDevice. apply leaves_bind; [ apply leaves_record | intros _ ].
  intros s. destruct (pickReply host (tick s)); cbn; apply f_off.
Qed.

Lemma leaves_gattConnectSettle d : leaves f (gattConnectSettle host d).
Proof.
  unfold gattConnectSettle.
  apply leaves_bind; [ apply leaves_awaitIo | intros _ ].
  apply leaves_bind; [ apply leaves_modify; intros s; apply f_off | intros _ ].
  apply leaves_ret.
Qed.

Lemma leaves_gattDisconnect d : leaves f (gattDisconnect d).
Proof.
  unfold gattDisconnect.
  apply leaves_bind; [ apply leaves_record | intros _ ].
  apply leaves_modify. intros s. apply f_off.
Qed.

Lemma leaves_writeValue ch data : leaves f (writeValue host ch data).
Proof.
  unfold writeValue. apply leaves_bind; [ apply leaves_record | intros _ ].
  apply leaves_awaitIo.
Qed.

(** The drain loop leaves what sending and the two assignments of the
    loop leave. *)
Lemma leaves_drain :
  (forall q s, f (set_sendQueue q s) = f s) ->
  (forall x s, f (set_lastError x s) = f s) ->
  (forall tok, leaves f (sendAscii host tok)) ->
  forall fuel, leaves f (drain host fuel).
Proof.
  intros Hq He Hs. induction fuel as [| fuel IH]; cbn [drain]; [ apply leaves_hang | ].
  apply leaves_bind; [ apply leaves_gets | intros q ].
  apply leaves_bind; [ apply leaves_gets | intros c ].
  destruct q as [| tok rest]; [ apply leaves_ret | ].
  destruct c; [ | apply leaves_ret ].
  apply leaves_bind; [ apply leaves_modify; intros s; apply Hq | intros _ ].
  apply leaves_bind; [ apply leaves_attempt, Hs | intros r ].
  destruct r; [ apply leaves_modify; intros s; apply He | exact IH ].
Qed.

End Leaves.

(** Settles [leaves f m] for a variable [f] and a computation built from
    the combinators, unfolding the script's functions on the way. *)
Ltac leave_off := repeat split; intros; reflexivity.

Ltac leave_field :=
  unfold updateStateFromText; cbn;
  repeat match goal with
         | |- context [if ?b then _ else _] => destruct b; cbn
         end;
  reflexivity.

Ltac leave_step host :=
  lazymatch goal with
  | |- leaves _ (bind _ _) => apply leaves_bind; [ | intro ]
  | |- leaves _ (ret _) => apply leaves_ret
  | |- leaves _ (throw _) => apply leaves_throw
  | |- leaves _ (gets _) => apply leaves_gets
  | |- leaves _ (modify _) => apply leaves_modify; intro; leave_field
  | |- leaves _ (tryCatch _ _) => apply leaves_catch; [ | intro ]
  | |- leaves _ (tryFinally _ _) => apply leaves_finally; [ | intro; cbn; reflexivity ]
  | |- leaves _ (attempt _) => apply leaves_attempt
  | |- leaves _ (when true _) => unfold when
  | |- leaves _ (when false _) => unfold when
  | |- leaves _ (when _ _) => apply leaves_when
  | |- leaves _ (forEach _ _) => apply leaves_forEach; intro
  | |- leaves _ (awaitIo _) => apply leaves_awaitIo; leave_off
  | |- leaves _ (record _) => apply leaves_record; leave_off
  | |- leaves _ (requestDevice _ _) => apply leaves_requestDevice; leave_off
  | |- leaves _ (gattConnectSettle _ _) => apply leaves_gattConnectSettle; leave_off
  | |- leaves _ (gattConnectCall _) => apply leaves_record; leave_off
  | |- leaves _ (gattDisconnect _) => apply leaves_gattDisconnect; leave_off
  | |- leaves _ (writeValue _ _ _) => apply leaves_writeValue; leave_off
  | |- leaves _ (drain _ _) =>
    apply leaves_drain; [ intros; reflexivity | intros; reflexivity | intro ]
  | |- leaves _ (if true then _ else _) => cbv iota
  | |- leaves _ (if false then _ else _) => cbv iota
  | |- leaves _ (if ?b then _ else _) => destruct b
  | |- leaves _ (match ?x with _ => _ end) => destruct x
  | |- leaves _ (let _ := _ in _) => cbv zeta
  | |- leaves _ ?m =>
    let h := lazymatch m with
             | ?h _ _ _ => h
             | ?h _ _ => h
             | ?h _ => h
             | ?h => h
             end in
    unfold h
  end.

Ltac leave host := repeat leave_step host.

(* ================================================================== *)
(** ** Runs of blocks and events *)

(** Reading a [wp] off as a statement about the run. *)
Lemma wp_state {A} (m : M A) (P : Sys -> Prop) s :
  wp m (fun _ => P) (fun _ => P) s -> P (snd (m s)).
Proof. unfold wp. destruct (m s) as [[a | e |] s']; [ auto | auto | contradiction ]. Qed.

Lemma wp_returns {A} (m : M A) (N : A -> Sys -> Prop) s :
  wp m N (fun _ _ => False) s -> exists a s', m s = (Ret a, s') /\ N a s'.
Proof.
  unfold wp. destruct (m s) as [[a | e |] s']; [ eauto | contradiction | contradiction ].
Qed.

Lemma wp_with {A} (m : M A) N E (P : Sys -> Prop) s :
  wp m N E s -> P (snd (m s)) ->
  wp m (fun a s' => N a s' /\ P s') (fun e s' => E e s' /\ P s') s.
Proof. unfold wp. destruct (m s) as [[a | e |] s']; cbn; auto. Qed.

Lemma run_first {A B} (m : M A) (k : A -> M B) s a s1 :
  m s = (Ret a, s1) -> snd (bind m k s) = snd (k a s1).
Proof. intros E. unfold bind. rewrite E. reflexivity. Qed.

(** Settles what is left after symbolic execution when the goal speaks of
    single variables of the state. *)
Ltac fields :=
  cbn in *;
  repeat match goal with
         | H : _ /\ _ |- _ => destruct H
         | H : negb ?b = _ |- _ => destruct b eqn:?; cbn in H; try discriminate H; clear H
         | H : (_ && _)%bool = true |- _ => apply andb_prop in H
         | H : (_ && _)%bool = false |- _ => apply andb_false_iff in H
         | H1 : ?x = Some ?a, H2 : ?x = Some ?b |- _ =>
           rewrite H1 in H2; inversion H2; subst; clear H2
         end;
  repeat split;
  repeat match goal with
         | H : ?x = _ |- context [?x] => rewrite H
         end;
  cbn; try reflexivity; try congruence; try (intuition congruence).

Lemma after_reachable host acts :
  forall s, reachable host s -> allReturn host acts s = true ->
            reachable host (after host acts s).
Proof.
  induction acts as [| a r IH]; intros s Hr Ha; [ exact Hr | ].
  cbn [allReturn] in Ha. unfold after. cbn [fold_left]. apply IH.
  - apply reach_step; [ exact Hr | ].
    destruct (fst (run host a s)); [ discriminate | discriminate | discriminate ].
  - destruct (fst (run host a s)); [ exact Ha | exact Ha | discriminate ].
Qed.

Lemma lost_reachable : reachable steadyHost lost.
Proof. apply after_reachable; [ apply reach_initial | vm_compute; reflexivity ]. Qed.

Lemma backlog_reachable : reachable steadyHost backlog.
Proof. apply after_reachable; [ apply reach_initial | vm_compute; reflexivity ]. Qed.

Lemma remembered_reachable : reachable twoRelays remembered.
Proof. apply after_reachable; [ apply reach_initial | vm_compute; reflexivity ]. Qed.

(* ================================================================== *)
(** ** HAT blocks *)

Module Hats.

Lemma whenOn_run s :
  whenOn s = if edgeOn s then (Ret true, set_edgeOn false s) else (Ret false, s).
Proof. unfold whenOn, bind, gets. destruct (edgeOn s); reflexivity. Qed.

Lemma whenOff_run s :
  whenOff s = if edgeOff s then (Ret true, set_edgeOff false s) else (Ret false, s).
Proof. unfold whenOff, bind, gets. destruct (edgeOff s); reflexivity. Qed.

Lemma whenConnected_run s :
  whenConnected s
  = if edgeConnected s then (Ret true, set_edgeConnected false s) else (Ret false, s).
Proof. unfold whenConnected, bind, gets. destruct (edgeConnected s); reflexivity. Qed.

Lemma whenDisconnected_run s :
  whenDisconnected s
  = if edgeDisconnected s then (Ret true, set_edgeDisconnected false s) else (Ret false, s).
Proof. unfold whenDisconnected, bind, gets. destruct (edgeDisconnected s); reflexivity. Qed.

(** A HAT block whose flag is down keeps returning [false]. *)
Lemma polled_quiet (hat : M bool) (flag : Sys -> bool) n :
  (forall s, flag s = false -> hat s = (Ret false, s)) ->
  forall s, flag s = false -> polled hat n s = repeat (Ret false) n.
Proof.
  intros Hh. induction n as [| n IH]; intros s H; [ reflexivity | ].
  cbn [polled repeat]. rewrite (Hh s H). cbn [fst snd]. rewrite IH; [ reflexivity | exact H ].
Qed.

(** X1.  An edge is handed to the project once: evaluated any number of
    times in a row with no event in between, each of the four HAT blocks
    returns the value of its flag the first time and [false] every time
    after that. *)
Theorem hats_fire_once n s :
  polled whenOn (S n) s = Ret (edgeOn s) :: repeat (Ret false) n
  /\ polled whenOff (S n) s = Ret (edgeOff s) :: repeat (Ret false) n
  /\ polled whenConnected (S n) s = Ret (edgeConnected s) :: repeat (Ret false) n
  /\ polled whenDisconnected (S n) s = Ret (edgeDisconnected s) :: repeat (Ret false) n.
Proof.
  assert (Q1 : forall t, edgeOn t = false -> whenOn t = (Ret false, t)).
  { intros t E. rewrite whenOn_run, E. reflexivity. }
  assert (Q2 : forall t, edgeOff t = false -> whenOff t = (Ret false, t)).
  { intros t E. rewrite whenOff_run, E. reflexivity. }
  assert (Q3 : forall t, edgeConnected t = false -> whenConnected t = (Ret false, t)).
  { intros t E. rewrite whenConnected_run, E. reflexivity. }
  assert (Q4 : forall t, edgeDisconnected t = false -> whenDisconnected t = (Ret false, t)).
  { intros t E. rewrite whenDisconnected_run, E. reflexivity. }
  cbn [polled]. repeat split.
  - rewrite whenOn_run. destruct (edgeOn s) eqn:E; cbn [fst snd].
    + rewrite (polled_quiet whenOn edgeOn n Q1); reflexivity.
    + rewrite (polled_quiet whenOn edgeOn n Q1); [ reflexivity | exact E ].
  - rewrite whenOff_run. destruct (edgeOff s) eqn:E; cbn [fst snd].
    + rewrite (polled_quiet whenOff edgeOff n Q2); reflexivity.
    + rewrite (polled_quiet whenOff edgeOff n Q2); [ reflexivity | exact E ].
  - rewrite whenConnected_run. destruct (edgeConnected s) eqn:E; cbn [fst snd].
    + rewrite (polled_quiet whenConnected edgeConnected n Q3); reflexivity.
    + rewrite (polled_quiet whenConnected edgeConnected n Q3); [ reflexivity | exact E ].
  - rewrite whenDisconnected_run. destruct (edgeDisconnected s) eqn:E; cbn [fst snd].
    + rewrite (polled_quiet whenDisconnected edgeDisconnected n Q4); reflexivity.
    + rewrite (polled_quiet whenDisconnected edgeDisconnected n Q4);
        [ reflexivity | exact E ].
Qed.

End Hats.

(* ================================================================== *)
(** ** The registry of devices and the active device *)

Module Known.

Lemma In_get k e m : NoDup (KnownMap.keys m) -> In (k, e) m -> KnownMap.get k m = Some e.
Proof.
  induction m as [| [k' e'] r IH]; cbn; [ intros _ [] | ].
  intros Hn [H | H].
  - injection H as -> ->. rewrite String.eqb_refl. reflexivity.
  - inversion Hn as [| x l Hx Hl]; subst.
    destruct (String.eqb k' k) eqn:E.
    + apply String.eqb_eq in E. subst k'. exfalso. apply Hx.
      apply in_map_iff. exists (k, e). auto.
    + apply IH; assumption.
Qed.

Lemma get_keys k e m : KnownMap.get k m = Some e -> In k (KnownMap.keys m).
Proof.
  intros H. apply Registry.get_In in H. apply in_map_iff. exists (k, e). auto.
Qed.

Lemma keys_get k m : In k (KnownMap.keys m) -> exists e, KnownMap.get k m = Some e.
Proof.
  induction m as [| [k' e'] r IH]; cbn; [ intros [] | ].
  intros [H | H]; destruct (String.eqb k' k) eqn:E; eauto.
  subst. rewrite String.eqb_refl in E. discriminate.
Qed.

Lemma names_by_id m :
  knownOk m ->
  map ent_name (KnownMap.values m)
  = map (fun id => match option_map ent_device (KnownMap.get id m) with
                   | Some d => dev_name d
                   | None => EmptyString
                   end) (KnownMap.keys m).
Proof.
  intros [Hn Hw]. unfold KnownMap.values, KnownMap.keys. rewrite !map_map.
  apply map_ext_in. intros [k e] Hin. cbn.
  rewrite (In_get k e m Hn Hin). cbn. apply (Hw k e Hin).
Qed.

(** X2.  Registering and looking up: after [rememberDevice d] the id of
    [d] finds [d] and every other id finds what it found before; the list
    of ids keeps its order, the id of [d] going to the end if it is new
    and staying where it is if it is not. *)
Theorem rememberDevice_then_findById d id s :
  findById id (snd (rememberDevice d s))
  = (if String.eqb (dev_id d) id then Some d else findById id s)
  /\ listIds (snd (rememberDevice d s))
     = (if existsb (String.eqb (dev_id d)) (listIds s) then listIds s
        else listIds s ++ [dev_id d])%list.
Proof.
  unfold rememberDevice, modify, findById, listIds. cbn. split.
  - destruct (String.eqb (dev_id d) id) eqn:E.
    + apply String.eqb_eq in E. subst id. rewrite Registry.get_set_same. reflexivity.
    + rewrite Registry.get_set_other; [ reflexivity | ].
      intros ->. rewrite String.eqb_refl in E. discriminate.
  - apply Registry.keys_set.
Qed.

(** X3.  In every state the extension gets into the registry is
    consistent: no id is listed twice, an id finds a device exactly when
    it is listed, the device found under an id has that id, and the list
    of names gives, position by position, the names of the devices
    listed. *)
Theorem registry_consistent host s :
  reachable host s ->
  NoDup (listIds s)
  /\ (forall id, In id (listIds s) <-> exists d, findById id s = Some d)
  /\ (forall id d, findById id s = Some d -> dev_id d = id)
  /\ listNames s
     = map (fun id => match findById id s with
                      | Some d => dev_name d
                      | None => EmptyString
                      end) (listIds s).
Proof.
  intros Hr. destruct (reachable_Sound host s Hr) as (_ & Hk & _).
  unfold listIds, listNames, findById. repeat split.
  - apply Hk.
  - intros H. destruct (keys_get _ _ H) as [e He]. exists (ent_device e).
    rewrite He. reflexivity.
  - intros [d H]. destruct (KnownMap.get id (known s)) as [e |] eqn:G; [ | discriminate ].
    exact (get_keys _ _ _ G).
  - intros id d H. destruct (KnownMap.get id (known s)) as [e |] eqn:G; [ | discriminate ].
    injection H as <-. apply (Registry.knownOk_get id _ e Hk G).
  - apply names_by_id. exact Hk.
Qed.

Lemma registry_consistent_witness :
  NoDup (listIds remembered)
  /\ (forall id, In id (listIds remembered) <-> exists d, findById id remembered = Some d)
  /\ (forall id d, findById id remembered = Some d -> dev_id d = id)
  /\ listNames remembered
     = map (fun id => match findById id remembered with
                      | Some d => dev_name d
                      | None => EmptyString
                      end) (listIds remembered).
Proof. exact (registry_consistent twoRelays remembered remembered_reachable). Defined.

(** X4.  In every state the extension gets into, calls overlapping as
    they may, what the id and name reporters show is the active device:
    while there is one, the id and the name shown are its own; while
    there is none, both are empty. *)
Theorem active_device_shown host s :
  reachable host s ->
  match device s with
  | Some d => getId s = dev_id d /\ getName s = dev_name d
  | None => getId s = EmptyString /\ getName s = EmptyString
  end.
Proof.
  intros Hr. destruct (reachable_Sound host s Hr) as (_ & _ & _ & _ & _ & Ha).
  unfold getId, getName. exact Ha.
Qed.

Lemma active_device_shown_witness :
  match device linked with
  | Some d => getId linked = dev_id d /\ getName linked = dev_name d
  | None => getId linked = EmptyString /\ getName linked = EmptyString
  end.
Proof. exact (active_device_shown steadyHost linked Queue.linked_reachable). Defined.

End Known.

(* ================================================================== *)
(** ** The reconnect timer and the poll timer *)

Module Timers.

Lemma polling_reachable : reachable steadyHost polling.
Proof. apply after_reachable; [ apply reach_initial | vm_compute; reflexivity ]. Qed.

(** X5.  A reconnect is never pending against the user's wish: in every
    state the extension gets into, a pending reconnect timer means that
    [wantReconnect] is set.  So after [disconnect], a forget, "off" on
    [setReconnect] or leaving the page, no attempt is waiting. *)
Theorem reconnect_pending_only_if_wanted host s ms :
  reachable host s -> reconnectTimer s = Some ms -> wantReconnect s = true.
Proof.
  intros Hr Ht. destruct (reachable_Sound host s Hr) as (_ & _ & Hs & _).
  destruct Hs as (_ & Hrt & _). apply (Hrt ms Ht).
Qed.

Lemma reconnect_pending_only_if_wanted_witness : wantReconnect lost = true.
Proof.
  assert (E : reconnectTimer lost = Some 1000) by (vm_compute; reflexivity).
  exact (reconnect_pending_only_if_wanted steadyHost lost 1000 lost_reachable E).
Defined.

(** X6.  The backoff never leaves its range: in every state the extension
    gets into [backoffMs] lies between 1000 and [backoffMax], and so does
    the delay of a pending reconnect timer. *)
Theorem backoff_within_range host s :
  reachable host s ->
  1000 <= backoffMs s <= backoffMax
  /\ match reconnectTimer s with
     | Some ms => 1000 <= ms <= backoffMax
     | None => True
     end.
Proof.
  intros Hr. destruct (reachable_Sound host s Hr) as (_ & _ & Hs & _).
  destruct Hs as (Hb & Hrt & _). split; [ exact Hb | ].
  destruct (reconnectTimer s) as [ms |] eqn:E; [ | exact I ].
  apply (Hrt ms eq_refl).
Qed.

Lemma backoff_within_range_witness :
  1000 <= backoffMs lost <= backoffMax
  /\ match reconnectTimer lost with
     | Some ms => 1000 <= ms <= backoffMax
     | None => True
     end.
Proof. exact (backoff_within_range steadyHost lost lost_reachable). Defined.

(** X7.  Polling goes with the link: in every state the extension gets
    into, a pending poll timer means that the extension is connected, and
    its period is the configured interval, which is then positive. *)
Theorem polling_only_while_connected host s ms :
  reachable host s -> pollTimer s = Some ms ->
  connected s = true /\ ms = pollIntervalMs s /\ 0 < ms.
Proof.
  intros Hr Ht. destruct (reachable_Sound host s Hr) as (_ & _ & Hs & _).
  destruct Hs as (_ & _ & _ & Hp). destruct (Hp ms Ht) as (H1 & H2 & H3). auto.
Qed.

Lemma polling_only_while_connected_witness :
  connected polling = true /\ 500 = pollIntervalMs polling /\ 0 < 500.
Proof.
  assert (E : pollTimer polling = Some 500) by (vm_compute; reflexivity).
  exact (polling_only_while_connected steadyHost polling 500 polling_reachable E).
Defined.

Lemma setPoll_run ms s :
  setPoll ms s
  = (Ret tt,
     let s1 := set_pollIntervalMs (Z.max 0 ms) s in
     if connected s then
       let s2 := match pollTimer s with Some _ => set_pollTimer None s1 | None => s1 end in
       if 0 <? Z.max 0 ms then set_pollTimer (Some (Z.max 0 ms)) s2 else s2
     else s1).
Proof.
  unfold setPoll, startPolling, stopPolling, when, bind, modify, gets, ret. cbn.
  destruct (connected s) eqn:Ec; [ | reflexivity ].
  cbn. destruct (pollTimer s) eqn:Et; cbn; rewrite ?Ec; cbn;
    destruct (0 <? Z.max 0 ms); cbn; rewrite ?Ec; reflexivity.
Qed.

(** X8.  [setPoll] in every state the extension gets into, for an
    argument whose value [Math.floor(Number(args.ms) || 0)] is the
    integer [ms], which is then one that a JavaScript number holds
    exactly: the interval becomes [ms], a negative one counting as 0;
    afterwards the poll timer is pending, with that period, exactly when
    the extension is connected and the interval is positive; the link
    and the queue are as before. *)
Theorem setPoll_restarts_polling host ms s :
  reachable host s -> Js.isNumber ms = true ->
  fst (setPoll ms s) = Ret tt
  /\ pollIntervalMs (snd (setPoll ms s)) = Z.max 0 ms
  /\ pollTimer (snd (setPoll ms s))
     = (if connected s && (0 <? ms) then Some ms else None)
  /\ connected (snd (setPoll ms s)) = connected s
  /\ sendQueue (snd (setPoll ms s)) = sendQueue s.
Proof.
  intros Hr _. destruct (reachable_Sound host s Hr) as (_ & _ & Hs & _).
  destruct Hs as (_ & _ & _ & Hp).
  rewrite setPoll_run. cbn [fst snd].
  destruct (connected s) eqn:Ec; cbn.
  - destruct (0 <? ms) eqn:E.
    + apply Z.ltb_lt in E. replace (Z.max 0 ms) with ms by lia.
      replace (0 <? ms) with true by (symmetry; apply Z.ltb_lt; lia).
      destruct (pollTimer s) eqn:Et; cbn; rewrite ?Ec, ?Et; auto.
    + apply Z.ltb_ge in E. replace (Z.max 0 ms) with 0 by lia. cbn.
      destruct (pollTimer s) eqn:Et; cbn; rewrite ?Ec, ?Et; auto.
  - repeat split; auto.
    destruct (pollTimer s) as [t |] eqn:Et; [ | reflexivity ].
    destruct (Hp t eq_refl) as [Hc _]. congruence.
Qed.

Lemma setPoll_restarts_polling_witness :
  fst (setPoll (-5) polling) = Ret tt
  /\ pollIntervalMs (snd (setPoll (-5) polling)) = Z.max 0 (-5)
  /\ pollTimer (snd (setPoll (-5) polling))
     = (if connected polling && (0 <? -5) then Some (-5) else None)
  /\ connected (snd (setPoll (-5) polling)) = connected polling
  /\ sendQueue (snd (setPoll (-5) polling)) = sendQueue polling.
Proof.
  assert (N : Js.isNumber (-5) = true) by (vm_compute; reflexivity).
  exact (setPoll_restarts_polling steadyHost (-5) polling polling_reachable N).
Defined.

(** X9.  Hiding the page suspends polling and showing it again resumes
    it: in every state the extension gets into, after the page is hidden
    no poll timer is pending; after it is shown again the timer is pending
    exactly when the extension is connected with a positive interval, so
    a timer that was pending is back with its period.  The interval and
    the reconnect timer are not touched. *)
Theorem visibility_suspends_polling host s :
  reachable host s ->
  let hidden := snd (onVisibilityChange true s) in
  let shown := snd (onVisibilityChange false hidden) in
  pollTimer hidden = None
  /\ pollTimer shown
     = (if connected s && (0 <? pollIntervalMs s) then Some (pollIntervalMs s) else None)
  /\ (pollTimer s <> None -> pollTimer shown = pollTimer s)
  /\ pollIntervalMs shown = pollIntervalMs s
  /\ reconnectTimer shown = reconnectTimer s.
Proof.
  intros Hr. destruct (reachable_Sound host s Hr) as (_ & _ & Hs & _).
  destruct Hs as (_ & _ & _ & Hp).
  unfold onVisibilityChange, startPolling, stopPolling, when, bind, modify, gets, ret.
  cbn zeta.
  destruct (pollTimer s) as [t |] eqn:Et; cbn; rewrite ?Et; cbn.
  - destruct (Hp t eq_refl) as (Hc & Hi & Hpos).
    rewrite Hc, Hi. replace (0 <? t) with true by (symmetry; apply Z.ltb_lt; lia).
    cbn. repeat split; auto.
  - destruct (0 <? pollIntervalMs s); destruct (connected s); cbn;
      repeat split; auto; congruence.
Qed.

Lemma visibility_suspends_polling_witness :
  let hidden := snd (onVisibilityChange true polling) in
  let shown := snd (onVisibilityChange false hidden) in
  pollTimer hidden = None
  /\ pollTimer shown
     = (if connected polling && (0 <? pollIntervalMs polling)
        then Some (pollIntervalMs polling) else None)
  /\ (pollTimer polling <> None -> pollTimer shown = pollTimer polling)
  /\ pollIntervalMs shown = pollIntervalMs polling
  /\ reconnectTimer shown = reconnectTimer polling.
Proof. exact (visibility_suspends_polling steadyHost polling polling_reachable). Defined.

(** X10.  [setReconnect] reads its argument strictly: only the menu value
    for "on" switches auto-reconnect on, any other text switches it off.
    Switching it off cancels a pending reconnect timer; switching it on
    while not connected arms one with the current backoff unless one is
    pending; switching it on while connected arms none.  The call
    returns. *)
Theorem setReconnect_switches state s :
  fst (setReconnect state s) = Ret tt
  /\ wantReconnect (snd (setReconnect state s)) = (state =? "オン")%string
  /\ reconnectTimer (snd (setReconnect state s))
     = (if (state =? "オン")%string then
          if connected s then reconnectTimer s
          else match reconnectTimer s with
               | Some t => Some t
               | None => Some (backoffMs s)
               end
        else None)
  /\ backoffMs (snd (setReconnect state s)) = backoffMs s.
Proof.
  unfold setReconnect, scheduleReconnect, stopReconnectTimer, when, bind, modify, gets, ret.
  cbn zeta.
  destruct (state =? "オン")%string; cbn;
    destruct (connected s); cbn; destruct (reconnectTimer s) eqn:E; cbn;
    rewrite ?E; cbn; auto.
Qed.

Lemma pollTick_offline host s :
  connected s = false \/ rxChar s = None ->
  fst (pollTick host s) = Ret tt
  /\ log (snd (pollTick host s)) = log s
  /\ sendQueue (snd (pollTick host s))
     = (if wantReconnect s then pushed (sendQueue s) "s" else sendQueue s)
  /\ lastError (snd (pollTick host s))
     = (if wantReconnect s then lastError s else errorText notConnected).
Proof.
  intros Hoff. unfold pollTick, readState, tryCatch. destruct (wantReconnect s) eqn:Hw.
  - rewrite (sendAscii_queue host "s" s Hoff Hw), enqueue_run.
    fold (pushed (sendQueue s) "s").
    destruct (Drain.scheduleReconnect_run (set_sendQueue (pushed (sendQueue s) "s") s))
      as (s' & E & Q & _ & _ & _ & L & Er & _).
    rewrite E. cbn [fst snd]. rewrite Q, L, Er. auto.
  - rewrite (sendAscii_throw host "s" s Hoff Hw). cbn. auto.
Qed.

(** X11.  A tick of the poll timer while the timer is pending, its
    callback run with nothing in between: the callback returns, whatever
    the state.  Connected with a write characteristic at hand, it has
    asked the transport for exactly one write, that of the status query
    "s" on that characteristic, and the queue is not touched; if the
    write is rejected, [getError] shows why and nothing is thrown.
    Otherwise nothing is written: when a reconnect is wanted the query
    joins the queue, and when none is wanted [getError] shows the
    not-connected error. *)
Theorem poll_tick_sends_one_query host s ms :
  pollTimer s = Some ms ->
  fst (run host PollTimer s) = Ret tt
  /\ match connected s, rxChar s with
     | true, Some ch =>
       log (snd (run host PollTimer s)) = (log s ++ [TWrite ch "s"])%list
       /\ sendQueue (snd (run host PollTimer s)) = sendQueue s
       /\ getError (snd (run host PollTimer s))
          = match ioReply host (tick s) with
            | Some e => errorText e
            | None => getError s
            end
     | _, _ =>
       log (snd (run host PollTimer s)) = log s
       /\ sendQueue (snd (run host PollTimer s))
          = (if wantReconnect s then pushed (sendQueue s) "s" else sendQueue s)
       /\ getError (snd (run host PollTimer s))
          = (if wantReconnect s then getError s else errorText notConnected)
     end.
Proof.
  intros Ht.
  assert (R : run host PollTimer s = pollTick host s).
  { cbn [run]. unfold bind at 1, gets at 1. rewrite Ht. reflexivity. }
  rewrite R. unfold getError.
  destruct (connected s) eqn:Hc; [ destruct (rxChar s) as [ch |] eqn:Er | ].
  - unfold pollTick, readState, tryCatch.
    rewrite (sendAscii_write host "s" s ch Hc Er).
    unfold writeValue, record, awaitIo, setError, bind, modify. cbn.
    destruct (ioReply host (tick s)); cbn; auto.
  - apply pollTick_offline. right. exact Er.
  - apply pollTick_offline. left. exact Hc.
Qed.

Lemma poll_tick_sends_one_query_witness :
  fst (run steadyHost PollTimer polling) = Ret tt
  /\ log (snd (run steadyHost PollTimer polling)) = (log polling ++ [TWrite rxA "s"])%list
  /\ sendQueue (snd (run steadyHost PollTimer polling)) = sendQueue polling
  /\ getError (snd (run steadyHost PollTimer polling)) = getError polling.
Proof.
  assert (E : pollTimer polling = Some 500) by (vm_compute; reflexivity).
  assert (C : connected polling = true) by (vm_compute; reflexivity).
  assert (X : rxChar polling = Some rxA) by (vm_compute; reflexivity).
  pose proof (poll_tick_sends_one_query steadyHost polling 500 E) as [H1 H2].
  rewrite C, X in H2. exact (conj H1 H2).
Defined.

End Timers.

(* ================================================================== *)
(** ** The reported state and the connection edges *)

Module Tracker.

Lemma markConnected_edges s :
  exists s1,
    markConnected s = (Ret tt, s1)
    /\ connected s1 = true /\ prevConnected s1 = true
    /\ edgeConnected s1 = edgeConnected s || negb (prevConnected s)
    /\ edgeDisconnected s1 = edgeDisconnected s.
Proof.
  destruct (wp_returns markConnected
              (fun _ s1 => connected s1 = true /\ prevConnected s1 = true
                           /\ edgeConnected s1 = edgeConnected s || negb (prevConnected s)
                           /\ edgeDisconnected s1 = edgeDisconnected s) s)
    as ([] & s1 & E & H); [ | exists s1; split; [ exact E | exact H ] ].
  unfold markConnected, clearError, startPolling, stopPolling. wp_go.
  all: fields; rewrite ?orb_false_r, ?orb_true_r; reflexivity.
Qed.

(** X12.  In every state the extension gets into the two trackers are in
    step: the value kept for edge detection is the reported value, the
    reported value is 0 or 1, so [stateNum] shows "0" or "1", and the
    link state kept for edge detection is [connected]. *)
Theorem trackers_in_step host s :
  reachable host s ->
  prevStateNum s = lastStateNum s
  /\ (lastStateNum s = 0 \/ lastStateNum s = 1)
  /\ (stateNum s = "0" \/ stateNum s = "1")
  /\ prevConnected s = connected s.
Proof.
  intros Hr. destruct (reachable_Sound host s Hr) as (_ & _ & _ & Ht & Ha).
  destruct Ht as [H1 H2]. destruct Ha as [H3 _].
  repeat split; [ exact H1 | exact H2 | | exact H3 ].
  unfold stateNum. destruct H2 as [-> | ->]; [ left | right ]; vm_compute; reflexivity.
Qed.

Lemma trackers_in_step_witness :
  prevStateNum linked = lastStateNum linked
  /\ (lastStateNum linked = 0 \/ lastStateNum linked = 1)
  /\ (stateNum linked = "0" \/ stateNum linked = "1")
  /\ prevConnected linked = connected linked.
Proof. exact (trackers_in_step steadyHost linked Queue.linked_reachable). Defined.

(** X13.  Only the device changes the reported state: no block and no
    event other than a notification or a forget changes the reported
    value, the reported text or the value kept for edge detection.  A
    relay command, in particular, does not update them on its own. *)
Theorem commands_leave_reported_state host a :
  match a with
  | Notified _ | ForgetCurrent | ForgetById _ | ForgetAll => True
  | _ =>
    leaves lastStateNum (run host a)
    /\ leaves lastStateText (run host a)
    /\ leaves prevStateNum (run host a)
  end.
Proof.
  destruct a; try exact I; cbn [run]; repeat split; leave host.
Qed.

(** X14.  Connection edges follow the link: from a state in which the link
    state kept for edge detection is [connected], as it is in every state
    the extension gets into, [onConnected] raises the connected edge
    exactly if the extension was not connected, [handleDisconnected]
    raises the disconnected edge exactly if it was, and neither touches
    the other flag. *)
Theorem connection_edges_follow_link host s :
  prevConnected s = connected s ->
  (connected (snd (onConnected host s)) = true
   /\ edgeConnected (snd (onConnected host s)) = edgeConnected s || negb (connected s)
   /\ edgeDisconnected (snd (onConnected host s)) = edgeDisconnected s)
  /\ (connected (snd (handleDisconnected s)) = false
      /\ edgeDisconnected (snd (handleDisconnected s)) = edgeDisconnected s || connected s
      /\ edgeConnected (snd (handleDisconnected s)) = edgeConnected s).
Proof.
  intros Hp. split.
  - destruct (markConnected_edges s) as (s1 & E & Hc & _ & He & Hd).
    unfold onConnected. rewrite (run_first _ _ s tt s1 E).
    assert (L : forall X (f : Sys -> X),
                (forall q t, f (set_sendQueue q t) = f t) ->
                (forall x t, f (set_lastError x t) = f t) ->
                (forall tok, leaves f (sendAscii host tok)) ->
                f (snd ((q <- gets sendQueue ;; drain host (S (length q))) s1)) = f s1).
    { intros X f H1 H2 H3.
      apply (leaves_bind f); [ apply leaves_gets | intros q; apply leaves_drain; assumption ]. }
    rewrite !L; try (intros; reflexivity); try (intros tok; leave host).
    rewrite Hc, He, Hd, Hp. auto.
  - apply (wp_state handleDisconnected
             (fun s' => connected s' = false
                        /\ edgeDisconnected s' = edgeDisconnected s || connected s
                        /\ edgeConnected s' = edgeConnected s)).
    unfold handleDisconnected, stopPolling, scheduleReconnect. wp_go.
    all: fields; rewrite ?orb_false_r, ?orb_true_r; reflexivity.
Qed.

Lemma connection_edges_follow_link_witness :
  (connected (snd (onConnected steadyHost lost)) = true
   /\ edgeConnected (snd (onConnected steadyHost lost))
      = edgeConnected lost || negb (connected lost)
   /\ edgeDisconnected (snd (onConnected steadyHost lost)) = edgeDisconnected lost)
  /\ (connected (snd (handleDisconnected lost)) = false
      /\ edgeDisconnected (snd (handleDisconnected lost))
         = edgeDisconnected lost || connected lost
      /\ edgeConnected (snd (handleDisconnected lost)) = edgeConnected lost).
Proof.
  assert (E : prevConnected lost = connected lost) by (vm_compute; reflexivity).
  exact (connection_edges_follow_link steadyHost lost E).
Defined.

End Tracker.

(* ================================================================== *)
(** ** Disconnecting and forgetting *)

Module Teardown.

Arguments KnownMap.delete : simpl never.

Lemma dropped_not_live id l :
  existsb (String.eqb id) (filter (fun i => negb (String.eqb i id)) l) = false.
Proof.
  induction l as [| x r IH]; cbn; [ reflexivity | ].
  destruct (String.eqb x id) eqn:E; cbn; [ exact IH | ].
  rewrite String.eqb_sym, E. exact IH.
Qed.

(** What [disconnect] leaves of the link and of the timers. *)
Lemma disconnect_off s :
  exists s',
    disconnect s = (Ret tt, s')
    /\ connected s' = false /\ wantReconnect s' = false
    /\ reconnectTimer s' = None /\ pollTimer s' = None.
Proof.
  destruct (wp_returns disconnect
              (fun _ s' => connected s' = false /\ wantReconnect s' = false
                           /\ reconnectTimer s' = None /\ pollTimer s' = None) s)
    as ([] & s' & E & H); [ | exists s'; split; [ exact E | exact H ] ].
  unfold disconnect, stopReconnectTimer, disconnectInternal, gattConnected, gattDisconnect,
    record, stopPolling.
  wp_go. all: fields.
Qed.

(** X15.  [disconnect] from any state: it returns; afterwards the
    extension is not connected, auto-reconnect is off, neither timer is
    pending, the server and both characteristics are gone and the active
    device's session is closed; the disconnected edge is raised exactly if
    the extension was connected.  The active device, the registry, the
    queue and the reported state stay. *)
Theorem disconnect_tears_down s :
  fst (disconnect s) = Ret tt
  /\ (connected (snd (disconnect s)) = false
      /\ connecting (snd (disconnect s)) = false
      /\ wantReconnect (snd (disconnect s)) = false
      /\ reconnectTimer (snd (disconnect s)) = None
      /\ pollTimer (snd (disconnect s)) = None)
  /\ (server (snd (disconnect s)) = None
      /\ rxChar (snd (disconnect s)) = None
      /\ txChar (snd (disconnect s)) = None
      /\ match device s with
         | Some d => isLive d (snd (disconnect s)) = false
         | None => True
         end)
  /\ edgeDisconnected (snd (disconnect s)) = edgeDisconnected s || connected s
  /\ (device (snd (disconnect s)) = device s
      /\ known (snd (disconnect s)) = known s
      /\ sendQueue (snd (disconnect s)) = sendQueue s
      /\ lastStateNum (snd (disconnect s)) = lastStateNum s
      /\ lastStateText (snd (disconnect s)) = lastStateText s).
Proof.
  destruct (wp_returns disconnect
              (fun _ s' =>
                 (connected s' = false /\ connecting s' = false /\ wantReconnect s' = false
                  /\ reconnectTimer s' = None /\ pollTimer s' = None)
                 /\ (server s' = None /\ rxChar s' = None /\ txChar s' = None
                     /\ match device s with
                        | Some d => isLive d s' = false
                        | None => True
                        end)
                 /\ edgeDisconnected s' = edgeDisconnected s || connected s
                 /\ (device s' = device s /\ known s' = known s
                     /\ sendQueue s' = sendQueue s /\ lastStateNum s' = lastStateNum s
                     /\ lastStateText s' = lastStateText s)) s)
    as ([] & s' & E & H); [ | rewrite E; split; [ reflexivity | exact H ] ].
  unfold disconnect, stopReconnectTimer, disconnectInternal, gattConnected, gattDisconnect,
    record, stopPolling, isLive.
  wp_go.
  all: fields; rewrite ?orb_false_r, ?orb_true_r, ?dropped_not_live; auto.
Qed.

(** X16.  [disconnect] leaves nothing armed.  In the state it leaves, as
    long as no other call runs: a command is refused with the
    not-connected error instead of being queued, the two timer callbacks
    have nothing pending to run, and a link-loss event changes nothing.
    (A connection set-up that is suspended when [disconnect] runs is not
    one of the things it stops: see [pending_connect_outlives_disconnect]
    below.) *)
Theorem disconnect_leaves_nothing_armed host tok s :
  sendAscii host tok (snd (disconnect s)) = (Throw notConnected, snd (disconnect s))
  /\ run host ReconnectTimer (snd (disconnect s)) = (Ret tt, snd (disconnect s))
  /\ run host PollTimer (snd (disconnect s)) = (Ret tt, snd (disconnect s))
  /\ handleDisconnected (snd (disconnect s)) = (Ret tt, snd (disconnect s)).
Proof.
  destruct (disconnect_off s) as (s' & E & Hc & Hw & Hr & Hp). rewrite E. cbn [snd].
  repeat split.
  - apply sendAscii_throw; [ left; exact Hc | exact Hw ].
  - cbn [run]. unfold bind, gets. rewrite Hr. reflexivity.
  - cbn [run]. unfold bind, gets. rewrite Hp. reflexivity.
  - unfold handleDisconnected, stopPolling, when, bind, gets, ret.
    rewrite Hc. cbn. rewrite Hp. cbn. rewrite Hw. reflexivity.
Qed.


(** X17.  [forgetCurrent] with an active device: it returns; the device
    is no longer active nor found in the registry, the id and the name
    shown are empty, the reported state is back to 0 and the empty text,
    and the link is torn down as by [disconnect].  The other devices of
    the registry stay, and so do the queued commands. *)
Theorem forgetCurrent_forgets s d :
  device s = Some d ->
  fst (forgetCurrent s) = Ret tt
  /\ (device (snd (forgetCurrent s)) = None
      /\ getId (snd (forgetCurrent s)) = EmptyString
      /\ getName (snd (forgetCurrent s)) = EmptyString
      /\ findById (dev_id d) (snd (forgetCurrent s)) = None)
  /\ (forall id, id <> dev_id d ->
                 findById id (snd (forgetCurrent s)) = findById id s)
  /\ (lastStateNum (snd (forgetCurrent s)) = 0
      /\ prevStateNum (snd (forgetCurrent s)) = 0
      /\ lastStateText (snd (forgetCurrent s)) = EmptyString)
  /\ (connected (snd (forgetCurrent s)) = false
      /\ wantReconnect (snd (forgetCurrent s)) = false
      /\ reconnectTimer (snd (forgetCurrent s)) = None
      /\ pollTimer (snd (forgetCurrent s)) = None
      /\ rxChar (snd (forgetCurrent s)) = None)
  /\ sendQueue (snd (forgetCurrent s)) = sendQueue s.
Proof.
  intros Hd.
  destruct (wp_returns forgetCurrent
              (fun _ s' =>
                 (device s' = None /\ getId s' = EmptyString /\ getName s' = EmptyString
                  /\ findById (dev_id d) s' = None)
                 /\ (forall id, id <> dev_id d -> findById id s' = findById id s)
                 /\ (lastStateNum s' = 0 /\ prevStateNum s' = 0
                     /\ lastStateText s' = EmptyString)
                 /\ (connected s' = false /\ wantReconnect s' = false
                     /\ reconnectTimer s' = None /\ pollTimer s' = None
                     /\ rxChar s' = None)
                 /\ sendQueue s' = sendQueue s) s)
    as ([] & s' & E & H); [ | rewrite E; split; [ reflexivity | exact H ] ].
  unfold forgetCurrent, stopReconnectTimer, disconnectInternal, gattConnected, gattDisconnect,
    record, stopPolling, getId, getName, findById.
  wp_go.
  all: fields; rewrite ?Registry.get_delete_same; auto.
  all: intros; rewrite Registry.get_delete_other; auto.
Qed.

Lemma forgetCurrent_forgets_witness :
  fst (forgetCurrent linked) = Ret tt
  /\ (device (snd (forgetCurrent linked)) = None
      /\ getId (snd (forgetCurrent linked)) = EmptyString
      /\ getName (snd (forgetCurrent linked)) = EmptyString
      /\ findById (dev_id relayA) (snd (forgetCurrent linked)) = None)
  /\ (forall id, id <> dev_id relayA ->
                 findById id (snd (forgetCurrent linked)) = findById id linked)
  /\ (lastStateNum (snd (forgetCurrent linked)) = 0
      /\ prevStateNum (snd (forgetCurrent linked)) = 0
      /\ lastStateText (snd (forgetCurrent linked)) = EmptyString)
  /\ (connected (snd (forgetCurrent linked)) = false
      /\ wantReconnect (snd (forgetCurrent linked)) = false
      /\ reconnectTimer (snd (forgetCurrent linked)) = None
      /\ pollTimer (snd (forgetCurrent linked)) = None
      /\ rxChar (snd (forgetCurrent linked)) = None)
  /\ sendQueue (snd (forgetCurrent linked)) = sendQueue linked.
Proof.
  assert (E : device linked = Some relayA) by (vm_compute; reflexivity).
  exact (forgetCurrent_forgets linked relayA E).
Defined.

(** X18.  [forgetById]: it returns, and afterwards the id, trimmed, finds
    nothing while every other id finds what it found before.  If the id
    is the active device's, the call is [forgetCurrent]; if it is not,
    nothing but the registry changes, so a link that is up stays up. *)
Theorem forgetById_forgets argId s :
  fst (forgetById argId s) = Ret tt
  /\ findById (Js.trim argId) (snd (forgetById argId s)) = None
  /\ (forall id, id <> Js.trim argId ->
                 findById id (snd (forgetById argId s)) = findById id s)
  /\ match device s with
     | Some d =>
       if String.eqb (dev_id d) (Js.trim argId) then forgetById argId s = forgetCurrent s
       else snd (forgetById argId s)
            = set_known (KnownMap.delete (Js.trim argId) (known s)) s
     | None =>
       snd (forgetById argId s) = set_known (KnownMap.delete (Js.trim argId) (known s)) s
     end.
Proof.
  assert (Del : forall t,
             findById (Js.trim argId)
               (set_known (KnownMap.delete (Js.trim argId) (known t)) t) = None
             /\ (forall id, id <> Js.trim argId ->
                            findById id
                              (set_known (KnownMap.delete (Js.trim argId) (known t)) t)
                            = findById id t)).
  { intros t. unfold findById. cbn. split.
    - rewrite Registry.get_delete_same. reflexivity.
    - intros id Hn. rewrite Registry.get_delete_other; [ reflexivity | exact Hn ]. }
  unfold forgetById, bind, gets, modify. cbn zeta.
  destruct (device s) as [d |] eqn:Hd.
  - destruct (String.eqb (dev_id d) (Js.trim argId)) eqn:Eid.
    + apply String.eqb_eq in Eid.
      destruct (wp_returns forgetCurrent
                  (fun _ s' =>
                     findById (dev_id d) s' = None
                     /\ (forall id, id <> dev_id d -> findById id s' = findById id s)) s)
        as ([] & s' & E & H1 & H2).
      * unfold forgetCurrent, stopReconnectTimer, disconnectInternal, gattConnected,
          gattDisconnect, record, stopPolling, findById.
        wp_go.
        all: fields; rewrite ?Registry.get_delete_same; auto.
        all: intros; rewrite Registry.get_delete_other; auto.
      * rewrite E, <- Eid. cbn [fst snd]. auto.
    + cbn [fst snd]. destruct (Del s) as [D1 D2]. auto.
  - cbn [fst snd]. destruct (Del s) as [D1 D2]. auto.
Qed.

(** X19.  [forgetAll] from any state: it returns; afterwards the registry
    is empty, so no id finds a device and both lists are empty; there is
    no active device, the extension is not connected, auto-reconnect is
    off and neither timer is pending. *)
Theorem forgetAll_empties s :
  fst (forgetAll s) = Ret tt
  /\ (listIds (snd (forgetAll s)) = []
      /\ listNames (snd (forgetAll s)) = []
      /\ forall id, findById id (snd (forgetAll s)) = None)
  /\ (device (snd (forgetAll s)) = None
      /\ connected (snd (forgetAll s)) = false
      /\ wantReconnect (snd (forgetAll s)) = false
      /\ reconnectTimer (snd (forgetAll s)) = None
      /\ pollTimer (snd (forgetAll s)) = None).
Proof.
  destruct (wp_returns forgetAll
              (fun _ s' =>
                 (listIds s' = [] /\ listNames s' = []
                  /\ forall id, findById id s' = None)
                 /\ (device s' = None /\ connected s' = false /\ wantReconnect s' = false
                     /\ reconnectTimer s' = None /\ pollTimer s' = None)) s)
    as ([] & s' & E & H); [ | rewrite E; split; [ reflexivity | exact H ] ].
  unfold forgetAll, stopReconnectTimer, disconnectInternal, gattConnected, gattDisconnect,
    record, stopPolling, listIds, listNames, findById.
  wp_go.
  all: fields.
Qed.

(** X20.  Leaving the page: the listener returns; afterwards
    auto-reconnect is off, neither timer is pending and the active
    device's session is closed.  The registry, the queue and the
    [connected] flag are left as they are. *)
Theorem onBeforeUnload_stops_everything s :
  fst (onBeforeUnload s) = Ret tt
  /\ (wantReconnect (snd (onBeforeUnload s)) = false
      /\ reconnectTimer (snd (onBeforeUnload s)) = None
      /\ pollTimer (snd (onBeforeUnload s)) = None
      /\ match device s with
         | Some d => isLive d (snd (onBeforeUnload s)) = false
         | None => True
         end)
  /\ (connected (snd (onBeforeUnload s)) = connected s
      /\ known (snd (onBeforeUnload s)) = known s
      /\ sendQueue (snd (onBeforeUnload s)) = sendQueue s).
Proof.
  destruct (wp_returns onBeforeUnload
              (fun _ s' =>
                 (wantReconnect s' = false /\ reconnectTimer s' = None
                  /\ pollTimer s' = None
                  /\ match device s with
                     | Some d => isLive d s' = false
                     | None => True
                     end)
                 /\ (connected s' = connected s /\ known s' = known s
                     /\ sendQueue s' = sendQueue s)) s)
    as ([] & s' & E & H); [ | rewrite E; split; [ reflexivity | exact H ] ].
  unfold onBeforeUnload, stopReconnectTimer, gattConnected, gattDisconnect, record,
    stopPolling, isLive.
  wp_go.
  all: fields; rewrite ?dropped_not_live; auto.
Qed.

End Teardown.

(* ================================================================== *)
(** ** Blocks: what they change and how they end *)

Module Blocks.

(** X21.  Settings and registry change only where the script says so: the
    poll interval is changed by [setPoll] alone; [wantReconnect] by the
    two connect blocks, [disconnect], the forget blocks, [setReconnect]
    and leaving the page, and by nothing else; the registry by the two
    connect blocks and the forget blocks, and by nothing else, so a bulk
    command or a reconnect never registers a device. *)
Theorem settings_change_by_their_blocks host a :
  match a with
  | SetPoll _ => True
  | _ => leaves pollIntervalMs (run host a)
  end
  /\ match a with
     | BtnConnect | ConnectById _ | Disconnect | ForgetCurrent | ForgetById _ | ForgetAll
     | SetReconnect _ | BeforeUnload => True
     | _ => leaves wantReconnect (run host a)
     end
  /\ match a with
     | BtnConnect | ConnectById _ | ForgetCurrent | ForgetById _ | ForgetAll => True
     | _ => leaves known (run host a)
     end.
Proof.
  repeat split; destruct a; try exact I; cbn [run]; leave host.
Qed.

(** X22.  What [getError] shows after a command block ([relayOn],
    [relayOff], [relayToggle], [readStateCmd], [sendText]): when the
    block throws, the text of what it threw; when it returns, what it
    showed before, since a command that succeeds does not clear an
    earlier error.  The block ends as the [sendAscii] of its token ends
    and never hangs. *)
Theorem command_blocks_record_what_they_throw host txt s :
  Forall (fun p : M unit * string =>
            fst (fst p s) = fst (sendAscii host (snd p) s)
            /\ match fst (fst p s) with
               | Ret _ => getError (snd (fst p s)) = getError s
               | Throw e => getError (snd (fst p s)) = errorText e
               | Hang => False
               end)
    [(relayOn host, "1"); (relayOff host, "0"); (relayToggle host, "t");
     (readStateCmd host, "s"); (sendText host txt, txt)].
Proof.
  assert (G : forall tok,
             fst (rethrowing (sendAscii host tok) s) = fst (sendAscii host tok s)
             /\ match fst (rethrowing (sendAscii host tok) s) with
                | Ret _ => getError (snd (rethrowing (sendAscii host tok) s)) = getError s
                | Throw e => getError (snd (rethrowing (sendAscii host tok) s)) = errorText e
                | Hang => False
                end).
  { intros tok.
    pose proof (Bulk.sendAscii_total host tok s) as T.
    assert (L : leaves lastError (sendAscii host tok)) by leave host.
    specialize (L s). unfold wp in T.
    unfold rethrowing, tryCatch, setError, bind, modify, throw, getError.
    destruct (sendAscii host tok s) as [[[] | e |] s1]; cbn in *; auto. }
  repeat constructor; cbn [fst snd]; apply G.
Qed.

(** X23.  A block or an event that no other call overlaps ends, when it
    starts in a state in which connected means that a write
    characteristic is at hand and the queue is within its bound, as it
    is after blocks and events that have run one after the other
    ([after_Inv]): it does not hang, and only the two connect blocks and
    the command blocks can throw; every other block, the bulk command
    included, and every listener and timer callback returns.  (Connected
    with no write characteristic at hand, which calls that overlap can
    lead to, the loop of [onConnected] need not end:
    [Drain.drain_forever].) *)
Theorem only_connects_and_commands_throw host a s :
  Inv s ->
  fst (run host a s) <> Hang
  /\ (mayThrow a = false -> fst (run host a s) = Ret tt).
Proof.
  intros Hi. split.
  - pose proof (wp_run _ _ _ _ (run_Inv host a s Hi)) as W.
    intros E. rewrite E in W. exact W.
  - intros Hm.
    assert (W : wp (run host a) (fun _ _ => True) (fun _ _ => False) s).
    { destruct a; try discriminate Hm; cbn [run];
        unfold forgetById, forgetAll, forgetCurrent, disconnect, setReconnect, setPoll,
          clearQueue, whenOn, whenOff, whenConnected, whenDisconnected, onNotification,
          handleDisconnected, onVisibilityChange, onBeforeUnload, reconnectTimerFired,
          pollTick, disconnectInternal, startPolling, scheduleReconnect,
          stopReconnectTimer, stopPolling, gattConnected, gattDisconnect, record;
        wp_go; try exact I.
      - eapply wp_mono; [ apply bulkCsv_Inv; exact Hi | auto | auto ].
      - eapply (wp_keeps Inv); [ apply reconnect_Inv | frame | auto | ].
        intros e s' H'. cbv beta. unfold setError. wp_go; exact I.
      - eapply (wp_keeps Inv); [ apply readState_Inv | exact Hi | auto | ].
        intros e s' H'. cbv beta. unfold setError. wp_go; exact I. }
    destruct (wp_returns _ _ _ W) as ([] & s' & E & _). rewrite E. reflexivity.
Qed.

Lemma only_connects_and_commands_throw_witness :
  fst (run steadyHost ReconnectTimer lost) <> Hang
  /\ (mayThrow ReconnectTimer = false -> fst (run steadyHost ReconnectTimer lost) = Ret tt).
Proof.
  apply (only_connects_and_commands_throw steadyHost ReconnectTimer lost).
  split; [ vm_compute; discriminate | vm_compute; lia ].
Defined.

(** A scan-and-connect that succeeds leaves the chosen device active,
    registered and connected; however it ends, [wantReconnect] is as it
    was. *)
Lemma requestAndConnect_outcome host s :
  wp (requestAndConnect host)
     (fun _ s' =>
        exists d,
          (exists n, pickReply host n = inr d)
          /\ device s' = Some d /\ deviceId s' = dev_id d /\ deviceName s' = dev_name d
          /\ findById (dev_id d) s' = Some d
          /\ connected s' = true
          /\ rxChar s' = Some {| ch_device := dev_id d; ch_uuid := NUS_RX_CHAR |}
          /\ backoffMs s' = 1000
          /\ wantReconnect s' = wantReconnect s)
     (fun _ s' => wantReconnect s' = wantReconnect s)
     s.
Proof.
  assert (Go : forall d n t,
             pickReply host n = inr d -> wantReconnect t = wantReconnect s ->
             wp (attachDevice d ;; gattConnectCall d ;; openLink host d)
                (fun _ s' =>
                   exists d,
                     (exists n, pickReply host n = inr d)
                     /\ device s' = Some d /\ deviceId s' = dev_id d
                     /\ deviceName s' = dev_name d
                     /\ findById (dev_id d) s' = Some d
                     /\ connected s' = true
                     /\ rxChar s' = Some {| ch_device := dev_id d; ch_uuid := NUS_RX_CHAR |}
                     /\ backoffMs s' = 1000
                     /\ wantReconnect s' = wantReconnect s)
                (fun _ s' => wantReconnect s' = wantReconnect s) t).
  { intros d n t Hp Hw.
    assert (L1 : leaves device (openLink host d)) by leave host.
    assert (L2 : leaves known (openLink host d)) by leave host.
    assert (L3 : leaves deviceId (openLink host d)) by leave host.
    assert (L4 : leaves deviceName (openLink host d)) by leave host.
    assert (L5 : leaves wantReconnect (openLink host d)) by leave host.
    unfold attachDevice, setActive, rememberDevice, gattConnectCall, record. wp_go.
    match goal with
    | |- wp _ _ _ ?t0 =>
      eapply wp_mono;
        [ eapply wp_with
            with (P := fun s' => device s' = device t0 /\ known s' = known t0
                                 /\ deviceId s' = deviceId t0
                                 /\ deviceName s' = deviceName t0
                                 /\ wantReconnect s' = wantReconnect t0);
          [ apply Reconnect.openLink_effect | rewrite L1, L2, L3, L4, L5; auto ]
        | | ]
    end.
    - intros [] s' ((Hb & Hc & Hr & _) & (H1 & H2 & H3 & H4 & H5)). cbn in *.
      exists d. unfold findById. rewrite H1, H2, H3, H4, H5, Registry.get_set_same.
      repeat split; eauto.
    - intros e s' (_ & (_ & _ & _ & _ & H5)). cbn in *. congruence. }
  unfold requestAndConnect. wp_go.
  apply requestDevice_wp.
  - intros d Hp. eapply Go; [ exact Hp | reflexivity ].
  - intros e _. apply requestDevice_wp.
    + intros d Hp. eapply Go; [ exact Hp | reflexivity ].
    + intros e' _. reflexivity.
Qed.

(** X24.  [btnConnect] that fails: the value thrown comes from the
    transport and is handed on to the project; its text is what
    [getError] shows; auto-reconnect is on and a reconnect attempt is
    pending. *)
Theorem btnConnect_failure_schedules_retry host s e s' :
  btnConnect host s = (Throw e, s') ->
  fromTransport host e
  /\ getError s' = errorText e
  /\ wantReconnect s' = true
  /\ exists ms, reconnectTimer s' = Some ms.
Proof.
  intros H. unfold btnConnect in H.
  destruct (wp_returns declareIntent (fun _ s0 => wantReconnect s0 = true) s)
    as ([] & s0 & E0 & Hw).
  { unfold declareIntent, clearError, stopReconnectTimer. wp_go; reflexivity. }
  rewrite (bind_run declareIntent _ s tt s0 E0) in H.
  pose proof (requestAndConnect_outcome host s0) as W.
  pose proof (Connect.requestAndConnect_effect host s0) as T.
  unfold wp in W, T. unfold tryCatch in H.
  destruct (requestAndConnect host s0) as [[[] | e0 |] s1]; try discriminate H.
  rewrite Hw in W.
  assert (Hh : wp (A := unit) (setError e0 ;; scheduleReconnect ;; throw e0)
                 (fun _ _ => False)
                 (fun x t => x = e0 /\ lastError t = errorText e0
                             /\ wantReconnect t = true
                             /\ exists ms, reconnectTimer t = Some ms) s1).
  { unfold setError, scheduleReconnect. wp_go; fields; eauto. }
  unfold wp in Hh. rewrite H in Hh. destruct Hh as (-> & H1 & H2 & H3).
  unfold getError. auto.
Qed.

Lemma btnConnect_failure_schedules_retry_witness :
  fromTransport (failingAt 1) gattFailure
  /\ getError (snd (btnConnect (failingAt 1) initial)) = errorText gattFailure
  /\ wantReconnect (snd (btnConnect (failingAt 1) initial)) = true
  /\ exists ms, reconnectTimer (snd (btnConnect (failingAt 1) initial)) = Some ms.
Proof.
  assert (E : btnConnect (failingAt 1) initial
              = (Throw gattFailure, snd (btnConnect (failingAt 1) initial)))
    by (vm_compute; reflexivity).
  exact (btnConnect_failure_schedules_retry (failingAt 1) initial gattFailure _ E).
Defined.

(** X25.  [btnConnect] that returns: the device handed back by the
    chooser is the active one, it is registered under its id, the id and
    the name shown are its own, the extension is connected with that
    device's write characteristic at hand, auto-reconnect is on and the
    backoff is back to one second. *)
Theorem btnConnect_success_registers host s s' :
  btnConnect host s = (Ret tt, s') ->
  exists d,
    (exists n, pickReply host n = inr d)
    /\ (device s' = Some d /\ getId s' = dev_id d /\ getName s' = dev_name d
        /\ findById (dev_id d) s' = Some d)
    /\ (connected s' = true
        /\ rxChar s' = Some {| ch_device := dev_id d; ch_uuid := NUS_RX_CHAR |}
        /\ wantReconnect s' = true /\ backoffMs s' = 1000).
Proof.
  intros H. unfold btnConnect in H.
  destruct (wp_returns declareIntent (fun _ s0 => wantReconnect s0 = true) s)
    as ([] & s0 & E0 & Hw).
  { unfold declareIntent, clearError, stopReconnectTimer. wp_go; reflexivity. }
  rewrite (bind_run declareIntent _ s tt s0 E0) in H.
  pose proof (requestAndConnect_outcome host s0) as W.
  unfold wp in W. unfold tryCatch in H.
  destruct (requestAndConnect host s0) as [[[] | e0 |] s1] eqn:Er.
  - injection H as <-.
    destruct W as (d & Hp & H1 & H2 & H3 & H4 & H5 & H6 & H7 & H8).
    exists d. unfold getId, getName. repeat split; try assumption. congruence.
  - exfalso. unfold setError, scheduleReconnect, bind, modify, gets, throw in H. cbn in H.
    destruct (negb (wantReconnect s1)); cbn in H; [ discriminate | ].
    destruct (reconnectTimer s1); discriminate.
  - discriminate.
Qed.

Lemma btnConnect_success_registers_witness :
  exists d,
    (exists n, pickReply steadyHost n = inr d)
    /\ (device linked = Some d /\ getId linked = dev_id d /\ getName linked = dev_name d
        /\ findById (dev_id d) linked = Some d)
    /\ (connected linked = true
        /\ rxChar linked = Some {| ch_device := dev_id d; ch_uuid := NUS_RX_CHAR |}
        /\ wantReconnect linked = true /\ backoffMs linked = 1000).
Proof.
  assert (E : btnConnect steadyHost initial = (Ret tt, linked)) by (vm_compute; reflexivity).
  exact (btnConnect_success_registers steadyHost initial linked E).
Defined.

End Blocks.

(* ================================================================== *)
(** ** Connecting on a transport that does not fail *)

Module Steady.

Lemma writesOf_app l1 l2 : writesOf (l1 ++ l2) = (writesOf l1 ++ writesOf l2)%list.
Proof. unfold writesOf. apply flat_map_app. Qed.

Lemma writesOf_writes ch q :
  writesOf (map (TWrite ch) q) = map (fun tok => (ch_device ch, tok)) q.
Proof. induction q as [| tok r IH]; cbn; [ reflexivity | rewrite <- IH; reflexivity ]. Qed.

Section OnSteadyTransport.

Variable host : Host.
Hypothesis steady : forall n, ioReply host n = None.

Lemma awaitIo_steady s : awaitIo host s = (Ret tt, set_tick (S (tick s)) s).
Proof. unfold awaitIo. rewrite steady. reflexivity. Qed.

(** [onConnected] with a write characteristic at hand: every queued
    token is written, in order. *)
Lemma onConnected_steady ch s :
  rxChar s = Some ch ->
  exists s',
    onConnected host s = (Ret tt, s')
    /\ connected s' = true /\ sendQueue s' = []
    /\ log s' = (log s ++ map (TWrite ch) (sendQueue s))%list
    /\ lastError s' = EmptyString.
Proof.
  intros Hrx.
  destruct (Drain.markConnected_run s) as (s1 & E1 & Hc & Hr & Hq & Hl & Ht & He & _).
  rewrite (Drain.onConnected_run host s s1 E1).
  destruct (Drain.drain_all host ch (sendQueue s1) (S (length (sendQueue s1))) s1)
    as (s' & E & Hq' & Hl' & He' & _);
    [ exact Hc | congruence | reflexivity | lia | intros; apply steady | ].
  assert (L : leaves connected (drain host (S (length (sendQueue s1))))) by leave host.
  specialize (L s1). rewrite E in L. cbn [snd] in L.
  exists s'. repeat split; try assumption.
  - congruence.
  - rewrite Hl', Hl, Hq. reflexivity.
  - rewrite He', He. reflexivity.
Qed.

(** The link is opened as far as [onConnected]. *)
Lemma openLink_prefix d s :
  exists sb,
    openLink host d s = onConnected host sb
    /\ rxChar sb = Some {| ch_device := dev_id d; ch_uuid := NUS_RX_CHAR |}
    /\ sendQueue sb = sendQueue s
    /\ log sb
       = (log s ++ [TGetService (dev_id d) NUS_SERVICE; TGetChar (dev_id d) NUS_RX_CHAR;
                    TGetChar (dev_id d) NUS_TX_CHAR; TStartNotify (dev_id d)])%list.
Proof.
  unfold openLink, gattConnectSettle, setupGatt, writeValue, record.
  unfold bind, modify, gets, ret.
  repeat (rewrite awaitIo_steady; cbn).
  eexists. split; [ reflexivity | ]. cbn.
  repeat split. rewrite <- !app_assoc. reflexivity.
Qed.

Lemma openLink_steady d s :
  exists s',
    openLink host d s = (Ret tt, s')
    /\ (connected s' = true /\ sendQueue s' = []
        /\ rxChar s' = Some {| ch_device := dev_id d; ch_uuid := NUS_RX_CHAR |}
        /\ lastError s' = EmptyString)
    /\ log s'
       = (log s ++ [TGetService (dev_id d) NUS_SERVICE; TGetChar (dev_id d) NUS_RX_CHAR;
                    TGetChar (dev_id d) NUS_TX_CHAR; TStartNotify (dev_id d)]
            ++ map (TWrite {| ch_device := dev_id d; ch_uuid := NUS_RX_CHAR |})
                 (sendQueue s))%list
    /\ (device s' = device s /\ known s' = known s
        /\ wantReconnect s' = wantReconnect s
        /\ deviceId s' = deviceId s /\ deviceName s' = deviceName s).
Proof.
  destruct (openLink_prefix d s) as (sb & Eb & Hrx & Hq & Hl).
  destruct (onConnected_steady _ sb Hrx) as (s' & E & Hc & Hq' & Hl' & He).
  assert (Lr : leaves rxChar (onConnected host)) by leave host.
  specialize (Lr sb). rewrite E in Lr. cbn [snd] in Lr.
  assert (L1 : leaves device (openLink host d)) by leave host.
  assert (L2 : leaves known (openLink host d)) by leave host.
  assert (L3 : leaves wantReconnect (openLink host d)) by leave host.
  assert (L5 : leaves deviceId (openLink host d)) by leave host.
  assert (L6 : leaves deviceName (openLink host d)) by leave host.
  specialize (L1 s). specialize (L2 s). specialize (L3 s).
  specialize (L5 s). specialize (L6 s).
  rewrite Eb, E in L1, L2, L3, L5, L6. cbn [snd] in *.
  exists s'. rewrite Eb. repeat split; try assumption.
  - congruence.
  - rewrite Hl', Hl, Hq, <- app_assoc. reflexivity.
Qed.

Lemma reconnect_steady d s :
  device s = Some d -> connecting s = false -> isLive d s = false ->
  exists s',
    reconnect host s = (Ret tt, s')
    /\ (connected s' = true /\ sendQueue s' = []
        /\ rxChar s' = Some {| ch_device := dev_id d; ch_uuid := NUS_RX_CHAR |}
        /\ lastError s' = EmptyString)
    /\ log s'
       = (log s ++ [TConnect (dev_id d); TGetService (dev_id d) NUS_SERVICE;
                    TGetChar (dev_id d) NUS_RX_CHAR; TGetChar (dev_id d) NUS_TX_CHAR;
                    TStartNotify (dev_id d)]
            ++ map (TWrite {| ch_device := dev_id d; ch_uuid := NUS_RX_CHAR |})
                 (sendQueue s))%list
    /\ (device s' = Some d /\ known s' = known s
        /\ wantReconnect s' = wantReconnect s
        /\ deviceId s' = deviceId s /\ deviceName s' = deviceName s).
Proof.
  intros Hd Hc Hl.
  rewrite (Reconnect.reconnect_opens host s d Hd Hc Hl).
  rewrite (Reconnect.reconnectPending_eq s d Hd Hc Hl).
  destruct (openLink_steady d (snd (gattConnectCall d (set_connecting true s))))
    as (s0 & E & (H1 & H2 & H3 & H4) & H5 & (H6 & H7 & H8 & H9 & H10)).
  unfold tryFinally. rewrite E.
  exists (set_connecting false s0). cbn.
  unfold gattConnectCall, record, modify in *. cbn in *.
  repeat split; try assumption; try congruence.
  rewrite H5, <- app_assoc. reflexivity.
Qed.

(** Commands sent while the link is down leave everything but the queue
    and the reconnect timer as it is. *)
Lemma sendAll_offline_leaves {X} (f : Sys -> X) toks :
  (forall tok, leaves f (enqueue tok)) ->
  forall s, connected s = false -> wantReconnect s = true ->
            f (sendAll host toks s) = f s.
Proof.
  intros Hf. induction toks as [| tok r IH]; intros s Hc Hw; [ reflexivity | ].
  unfold sendAll in *. cbn [fold_left].
  rewrite (sendAscii_queue host tok s (or_introl Hc) Hw).
  assert (L1 : leaves connected (enqueue tok)) by leave host.
  assert (L2 : leaves wantReconnect (enqueue tok)) by leave host.
  rewrite IH; [ apply Hf | rewrite L1; exact Hc | rewrite L2; exact Hw ].
Qed.

(** X26.  Store and forward: on a transport that does not fail, from a
    state the extension gets into with the link to the active device
    lost and auto-reconnect on, the commands sent while the link is down
    write nothing; when the reconnect timer fires, the link is opened
    again and what is queued is written to that device in the order in
    which it was sent, the oldest entries having been dropped beyond
    [QUEUE_MAX]; the queue is then empty and no error is shown. *)
Theorem queued_commands_delivered_on_reconnect toks s d :
  reachable host s ->
  device s = Some d -> connected s = false -> wantReconnect s = true ->
  connecting s = false -> isLive d s = false ->
  fst (reconnectTimerFired host (sendAll host toks s)) = Ret tt
  /\ writesOf (log (sendAll host toks s)) = writesOf (log s)
  /\ writesOf (log (snd (reconnectTimerFired host (sendAll host toks s))))
     = (writesOf (log s)
          ++ map (fun tok => (dev_id d, tok)) (lastn QUEUE_MAX (sendQueue s ++ toks)))%list
  /\ sendQueue (snd (reconnectTimerFired host (sendAll host toks s))) = []
  /\ connected (snd (reconnectTimerFired host (sendAll host toks s))) = true
  /\ getError (snd (reconnectTimerFired host (sendAll host toks s))) = EmptyString.
Proof.
  intros Hr Hd Hc Hw Hg Hl.
  pose proof (reachable_bounded host s Hr) as Hb. unfold queueBounded in Hb.
  destruct (Queue.sendAll_offline host toks s Hc Hw) as (Q & _ & _).
  rewrite (Queue.fold_pushed toks _ Hb) in Q.
  assert (F1 : device (sendAll host toks s) = device s)
    by (apply sendAll_offline_leaves; [ intros; leave host | assumption | assumption ]).
  assert (F2 : connecting (sendAll host toks s) = connecting s)
    by (apply sendAll_offline_leaves; [ intros; leave host | assumption | assumption ]).
  assert (F3 : live (sendAll host toks s) = live s)
    by (apply sendAll_offline_leaves; [ intros; leave host | assumption | assumption ]).
  assert (F4 : log (sendAll host toks s) = log s)
    by (apply sendAll_offline_leaves; [ intros; leave host | assumption | assumption ]).
  destruct (reconnect_steady d (set_reconnectTimer None (sendAll host toks s)))
    as (s' & E & (H1 & H2 & H3 & H4) & H5 & _).
  { cbn. congruence. }
  { cbn. congruence. }
  { unfold isLive in *. cbn. rewrite F3. exact Hl. }
  assert (R : reconnectTimerFired host (sendAll host toks s) = (Ret tt, s')).
  { unfold reconnectTimerFired, bind, modify, tryCatch. rewrite E. reflexivity. }
  rewrite R. cbn [fst snd]. unfold getError.
  repeat split; try assumption.
  - rewrite F4. reflexivity.
  - rewrite H5. cbn [log set_reconnectTimer sendQueue]. rewrite F4, Q.
    rewrite !writesOf_app, writesOf_writes. cbn. reflexivity.
Qed.

Lemma declareIntent_steady s :
  exists s0,
    declareIntent s = (Ret tt, s0)
    /\ wantReconnect s0 = true /\ lastError s0 = EmptyString
    /\ connecting s0 = connecting s /\ live s0 = live s /\ log s0 = log s
    /\ sendQueue s0 = sendQueue s /\ known s0 = known s.
Proof.
  destruct (wp_returns declareIntent
              (fun _ s0 =>
                 wantReconnect s0 = true /\ lastError s0 = EmptyString
                 /\ connecting s0 = connecting s /\ live s0 = live s /\ log s0 = log s
                 /\ sendQueue s0 = sendQueue s /\ known s0 = known s) s)
    as ([] & s0 & E & H); [ | exists s0; split; [ exact E | exact H ] ].
  unfold declareIntent, clearError, stopReconnectTimer. wp_go; fields.
Qed.

(** X27.  [connectById] with a registered id, on a transport that does
    not fail: the id is trimmed and looked up, the device found becomes
    the active one and is connected without the chooser being shown: the
    transport is asked to connect to that device, to resolve the service
    and its two characteristics and to start notifications, and then what
    is queued is written to it.  The block returns with the extension
    connected, auto-reconnect on and no error shown. *)
Theorem connectById_registered_connects_directly argId dev s :
  findById (Js.trim argId) s = Some dev -> connecting s = false -> isLive dev s = false ->
  fst (connectById host argId s) = Ret tt
  /\ (device (snd (connectById host argId s)) = Some dev
      /\ getId (snd (connectById host argId s)) = dev_id dev
      /\ getName (snd (connectById host argId s)) = dev_name dev)
  /\ (connected (snd (connectById host argId s)) = true
      /\ rxChar (snd (connectById host argId s))
         = Some {| ch_device := dev_id dev; ch_uuid := NUS_RX_CHAR |}
      /\ wantReconnect (snd (connectById host argId s)) = true
      /\ getError (snd (connectById host argId s)) = EmptyString)
  /\ log (snd (connectById host argId s))
     = (log s ++ [TConnect (dev_id dev); TGetService (dev_id dev) NUS_SERVICE;
                  TGetChar (dev_id dev) NUS_RX_CHAR; TGetChar (dev_id dev) NUS_TX_CHAR;
                  TStartNotify (dev_id dev)]
          ++ map (TWrite {| ch_device := dev_id dev; ch_uuid := NUS_RX_CHAR |})
               (sendQueue s))%list
  /\ known (snd (connectById host argId s)) = known s.
Proof.
  intros Hf Hg Hl.
  rewrite (Connect.connectById_known host argId s dev Hf).
  destruct (declareIntent_steady s) as (s0 & E0 & Hw & He & Hc0 & Hl0 & Hlog & Hq & Hk).
  rewrite (bind_run declareIntent _ s tt s0 E0).
  set (sA := set_deviceId (dev_id dev) (set_deviceName (dev_name dev)
                                          (set_device (Some dev) s0))).
  destruct (reconnect_steady dev sA)
    as (s' & E & (H1 & H2 & H3 & H4) & H5 & (H6 & H7 & H8 & H9 & H10)).
  { reflexivity. }
  { cbn. congruence. }
  { unfold isLive in *. cbn. rewrite Hl0. exact Hl. }
  assert (R : tryCatch (setActive dev ;; reconnect host) (retryByScan host) s0 = (Ret tt, s')).
  { unfold tryCatch, bind, setActive, modify. fold sA. rewrite E. reflexivity. }
  rewrite R. cbn [fst snd]. unfold getId, getName, getError. cbn in *.
  repeat split; try assumption; try congruence.
Qed.

End OnSteadyTransport.

Lemma queued_commands_delivered_on_reconnect_witness :
  fst (reconnectTimerFired steadyHost (sendAll steadyHost ["1"; "0"; "t"] lost)) = Ret tt
  /\ writesOf (log (sendAll steadyHost ["1"; "0"; "t"] lost)) = writesOf (log lost)
  /\ writesOf (log (snd (reconnectTimerFired steadyHost
                           (sendAll steadyHost ["1"; "0"; "t"] lost))))
     = (writesOf (log lost)
          ++ map (fun tok => (dev_id relayA, tok))
               (lastn QUEUE_MAX (sendQueue lost ++ ["1"; "0"; "t"])))%list
  /\ sendQueue (snd (reconnectTimerFired steadyHost
                       (sendAll steadyHost ["1"; "0"; "t"] lost))) = []
  /\ connected (snd (reconnectTimerFired steadyHost
                       (sendAll steadyHost ["1"; "0"; "t"] lost))) = true
  /\ getError (snd (reconnectTimerFired steadyHost
                      (sendAll steadyHost ["1"; "0"; "t"] lost))) = EmptyString.
Proof.
  assert (H1 : device lost = Some relayA) by (vm_compute; reflexivity).
  assert (H2 : connected lost = false) by (vm_compute; reflexivity).
  assert (H3 : wantReconnect lost = true) by (vm_compute; reflexivity).
  assert (H4 : connecting lost = false) by (vm_compute; reflexivity).
  assert (H5 : isLive relayA lost = false) by (vm_compute; reflexivity).
  exact (queued_commands_delivered_on_reconnect steadyHost (fun _ => eq_refl)
           ["1"; "0"; "t"] lost relayA lost_reachable H1 H2 H3 H4 H5).
Defined.

Lemma connectById_registered_connects_directly_witness :
  fst (connectById twoRelays " c " remembered) = Ret tt
  /\ (device (snd (connectById twoRelays " c " remembered)) = Some relayC
      /\ getId (snd (connectById twoRelays " c " remembered)) = dev_id relayC
      /\ getName (snd (connectById twoRelays " c " remembered)) = dev_name relayC)
  /\ (connected (snd (connectById twoRelays " c " remembered)) = true
      /\ rxChar (snd (connectById twoRelays " c " remembered))
         = Some {| ch_device := dev_id relayC; ch_uuid := NUS_RX_CHAR |}
      /\ wantReconnect (snd (connectById twoRelays " c " remembered)) = true
      /\ getError (snd (connectById twoRelays " c " remembered)) = EmptyString)
  /\ log (snd (connectById twoRelays " c " remembered))
     = (log remembered
          ++ [TConnect (dev_id relayC); TGetService (dev_id relayC) NUS_SERVICE;
              TGetChar (dev_id relayC) NUS_RX_CHAR; TGetChar (dev_id relayC) NUS_TX_CHAR;
              TStartNotify (dev_id relayC)]
          ++ map (TWrite {| ch_device := dev_id relayC; ch_uuid := NUS_RX_CHAR |})
               (sendQueue remembered))%list
  /\ known (snd (connectById twoRelays " c " remembered)) = known remembered.
Proof.
  assert (H1 : findById (Js.trim " c ") remembered = Some relayC)
    by (vm_compute; reflexivity).
  assert (H2 : connecting remembered = false) by (vm_compute; reflexivity).
  assert (H3 : isLive relayC remembered = false) by (vm_compute; reflexivity).
  exact (connectById_registered_connects_directly twoRelays (fun _ => eq_refl)
           " c " relayC remembered H1 H2 H3).
Defined.

End Steady.

(* ================================================================== *)
(** ** The comma-separated list of ids *)

Module Csv.

Lemma plainChar_code c :
  plainChar c = true -> (33 <= Js.code c <= 126)%nat /\ Js.code c <> 44%nat.
Proof.
  unfold plainChar. cbv zeta. intros H.
  apply andb_prop in H. destruct H as [H H3]. apply andb_prop in H. destruct H as [H1 H2].
  apply Nat.leb_le in H1. apply Nat.leb_le in H2.
  apply negb_true_iff in H3. apply Nat.eqb_neq in H3. lia.
Qed.

Lemma plain_not_ws1 c : plainChar c = true -> Js.ws1 c = false.
Proof.
  intros H. destruct (plainChar_code c H) as [[H1 H2] _]. unfold Js.ws1. cbv zeta.
  replace (Js.code c <=? 13)%nat with false by (symmetry; apply Nat.leb_gt; lia).
  replace (Js.code c =? 32)%nat with false by (symmetry; apply Nat.eqb_neq; lia).
  rewrite andb_false_r. reflexivity.
Qed.

Lemma plain_not_ws2_first c b : plainChar c = true -> Js.ws2 c b = false.
Proof.
  intros H. destruct (plainChar_code c H) as [[H1 H2] _]. unfold Js.ws2.
  replace (Js.code c =? 194)%nat with false by (symmetry; apply Nat.eqb_neq; lia).
  reflexivity.
Qed.

Lemma plain_not_ws2_last c b : plainChar c = true -> Js.ws2 b c = false.
Proof.
  intros H. destruct (plainChar_code c H) as [[H1 H2] _]. unfold Js.ws2.
  replace (Js.code c =? 160)%nat with false by (symmetry; apply Nat.eqb_neq; lia).
  apply andb_false_r.
Qed.

Lemma plain_not_ws3_first c b d : plainChar c = true -> Js.ws3 c b d = false.
Proof.
  intros H. destruct (plainChar_code c H) as [[H1 H2] _]. unfold Js.ws3. cbv zeta.
  replace (Js.code c =? 225)%nat with false by (symmetry; apply Nat.eqb_neq; lia).
  replace (Js.code c =? 226)%nat with false by (symmetry; apply Nat.eqb_neq; lia).
  replace (Js.code c =? 227)%nat with false by (symmetry; apply Nat.eqb_neq; lia).
  replace (Js.code c =? 239)%nat with false by (symmetry; apply Nat.eqb_neq; lia).
  reflexivity.
Qed.

Lemma plain_not_ws3_last c b d : plainChar c = true -> Js.ws3 d b c = false.
Proof.
  intros H. destruct (plainChar_code c H) as [[H1 H2] _]. unfold Js.ws3. cbv zeta.
  replace (Js.code c =? 128)%nat with false by (symmetry; apply Nat.eqb_neq; lia).
  replace (128 <=? Js.code c)%nat with false by (symmetry; apply Nat.leb_gt; lia).
  replace (Js.code c =? 168)%nat with false by (symmetry; apply Nat.eqb_neq; lia).
  replace (Js.code c =? 169)%nat with false by (symmetry; apply Nat.eqb_neq; lia).
  replace (Js.code c =? 175)%nat with false by (symmetry; apply Nat.eqb_neq; lia).
  replace (Js.code c =? 159)%nat with false by (symmetry; apply Nat.eqb_neq; lia).
  replace (Js.code c =? 191)%nat with false by (symmetry; apply Nat.eqb_neq; lia).
  cbn. rewrite !andb_false_r. reflexivity.
Qed.

(** Nothing is stripped in front of a plain character. *)
Lemma strip_plain back c r : plainChar c = true -> Js.strip back (c :: r) = c :: r.
Proof.
  intros H. cbn [Js.strip]. rewrite (plain_not_ws1 c H).
  destruct r as [| b r2]; [ reflexivity | ].
  destruct back.
  - rewrite (plain_not_ws2_last c b H).
    destruct r2 as [| d r3]; [ reflexivity | ].
    rewrite (plain_not_ws3_last c b d H). reflexivity.
  - rewrite (plain_not_ws2_first c b H).
    destruct r2 as [| d r3]; [ reflexivity | ].
    rewrite (plain_not_ws3_first c b d H). reflexivity.
Qed.

Lemma ofChars_chars s : Js.ofChars (Js.chars s) = s.
Proof. induction s as [| c r IH]; cbn; [ reflexivity | rewrite IH; reflexivity ]. Qed.

Lemma chars_app a b : Js.chars (a ++ b) = (Js.chars a ++ Js.chars b)%list.
Proof. induction a as [| c r IH]; cbn; [ reflexivity | rewrite IH; reflexivity ]. Qed.

(** A string that begins and ends with a plain character is its own
    trim. *)
Lemma trim_plain_ends s a m z m' :
  Js.chars s = a :: m -> rev (Js.chars s) = z :: m' ->
  plainChar a = true -> plainChar z = true ->
  Js.trim s = s.
Proof.
  intros E1 E2 Ha Hz. unfold Js.trim.
  rewrite E1, (strip_plain false a m Ha), <- E1, E2, (strip_plain true z m' Hz), <- E2.
  rewrite rev_involutive. apply ofChars_chars.
Qed.

Lemma head_plain_app (l1 l2 : list ascii) :
  (exists c m, l1 = c :: m /\ plainChar c = true) ->
  exists c m, (l1 ++ l2)%list = c :: m /\ plainChar c = true.
Proof. intros (c & m & -> & H). exists c, (m ++ l2)%list. auto. Qed.

Lemma plainId_head id :
  plainId id = true -> exists c m, Js.chars id = c :: m /\ plainChar c = true.
Proof.
  unfold plainId. intros H. apply andb_prop in H. destruct H as [Ht Hf].
  destruct id as [| c r]; [ discriminate | ]. cbn in *.
  apply andb_prop in Hf. destruct Hf as [Hc _]. eauto.
Qed.

Lemma plainId_last id :
  plainId id = true -> exists c m, rev (Js.chars id) = c :: m /\ plainChar c = true.
Proof.
  unfold plainId. intros H. apply andb_prop in H. destruct H as [Ht Hf].
  destruct (rev (Js.chars id)) as [| c m] eqn:E.
  - destruct id; [ discriminate | ]. cbn in E. destruct (rev (Js.chars id)); discriminate.
  - exists c, m. split; [ reflexivity | ].
    rewrite forallb_forall in Hf. apply Hf. apply in_rev. rewrite E. left. reflexivity.
Qed.

Lemma plainId_trim id : plainId id = true -> Js.trim id = id.
Proof.
  intros H. destruct (plainId_head id H) as (a & m & E1 & Ha).
  destruct (plainId_last id H) as (z & m' & E2 & Hz).
  exact (trim_plain_ends id a m z m' E1 E2 Ha Hz).
Qed.

(** The joined ids begin and end with a plain character. *)
Lemma joined_ends id r :
  forallb plainId (id :: r) = true ->
  (exists c m, Js.chars (String.concat "," (id :: r)) = c :: m /\ plainChar c = true)
  /\ (exists c m, rev (Js.chars (String.concat "," (id :: r))) = c :: m
                  /\ plainChar c = true).
Proof.
  revert id. induction r as [| x r IH]; intros id H; cbn [forallb] in H;
    apply andb_prop in H; destruct H as [Hid Hr].
  - cbn [String.concat]. split; [ apply plainId_head | apply plainId_last ]; exact Hid.
  - destruct (IH x Hr) as [_ L].
    change (String.concat "," (id :: x :: r))
      with (id ++ "," ++ String.concat "," (x :: r)).
    rewrite !chars_app. split.
    + apply head_plain_app, plainId_head, Hid.
    + rewrite !rev_app_distr, <- app_assoc. apply head_plain_app. exact L.
Qed.

Lemma splitComma_cons s : exists p ps, Js.splitComma s = p :: ps.
Proof.
  induction s as [| c r (p & ps & IH)]; cbn; [ eauto | ].
  destruct (Ascii.eqb c ","); [ eauto | rewrite IH; eauto ].
Qed.

Lemma plainChar_not_comma c : plainChar c = true -> Ascii.eqb c "," = false.
Proof.
  intros H. destruct (plainChar_code c H) as [_ Hn].
  apply Ascii.eqb_neq. intros ->. apply Hn. reflexivity.
Qed.

(** A piece without comma stays in one piece. *)
Lemma splitComma_plain p s :
  forallb plainChar (Js.chars p) = true ->
  Js.splitComma (p ++ s)
  = match Js.splitComma s with
    | x :: xs => (p ++ x) :: xs
    | [] => [p]
    end.
Proof.
  induction p as [| c r IH]; cbn; intros H.
  - destruct (splitComma_cons s) as (x & xs & E). rewrite E. reflexivity.
  - apply andb_prop in H. destruct H as [Hc Hr].
    rewrite (plainChar_not_comma c Hc), (IH Hr).
    destruct (Js.splitComma s); reflexivity.
Qed.

Lemma append_empty s : s ++ EmptyString = s.
Proof. induction s as [| c r IH]; cbn; [ reflexivity | rewrite IH; reflexivity ]. Qed.

Lemma splitComma_joined id r :
  forallb plainId (id :: r) = true ->
  Js.splitComma (String.concat "," (id :: r)) = id :: r.
Proof.
  revert id. induction r as [| x r IH]; intros id H; cbn [forallb] in H;
    apply andb_prop in H; destruct H as [Hid Hr];
    unfold plainId in Hid; apply andb_prop in Hid; destruct Hid as [_ Hc].
  - cbn [String.concat]. rewrite <- (append_empty id) at 1.
    rewrite (splitComma_plain id EmptyString Hc). cbn. rewrite append_empty. reflexivity.
  - change (String.concat "," (id :: x :: r))
      with (id ++ String "," (String.concat "," (x :: r))).
    rewrite (splitComma_plain id _ Hc). cbn [Js.splitComma].
    change (Ascii.eqb "," ",") with true. cbv iota.
    rewrite (IH x Hr), append_empty. reflexivity.
Qed.

(** X28.  The list of known ids can be fed back to the bulk command: when
    the registered ids are plain (non-empty, printable ASCII without
    space or comma, as the ids handed out by the browser are), splitting
    what [getKnownIds] returns the way [bulkCsv] does gives back the
    registered ids, in order; so [bulkCsv] on that text clears the error
    and then runs its loop once for each registered device. *)
Theorem known_ids_round_trip host act s t :
  forallb plainId (listIds s) = true ->
  csvIds (Js.trim (getKnownIds s)) = listIds s
  /\ bulkCsv host (getKnownIds s) act t
     = (clearError ;;
        forEach (listIds s) (bulkStep host (toUpperCase host (Js.orElse act "ON")))) t.
Proof.
  intros H.
  assert (R : csvIds (Js.trim (getKnownIds s)) = listIds s).
  { unfold getKnownIds. destruct (listIds s) as [| id r] eqn:E; [ reflexivity | ].
    destruct (joined_ends id r H) as [(a & m & E1 & Ha) (z & m' & E2 & Hz)].
    rewrite (trim_plain_ends _ a m z m' E1 E2 Ha Hz).
    unfold csvIds. rewrite (splitComma_joined id r H).
    clear E E1 E2. revert H. generalize (id :: r). intros l.
    induction l as [| x l IH]; cbn; intros H; [ reflexivity | ].
    apply andb_prop in H. destruct H as [Hx Hl].
    rewrite (plainId_trim x Hx).
    unfold plainId in Hx. apply andb_prop in Hx. destruct Hx as [Hx _]. rewrite Hx.
    rewrite (IH Hl). reflexivity. }
  split; [ exact R | ].
  unfold bulkCsv, bulkApply. cbv zeta. rewrite R.
  unfold bind, clearError, modify.
  destruct (negb (Js.truthy (Js.trim (getKnownIds s)))) eqn:E; [ | reflexivity ].
  assert (N : listIds s = []).
  { rewrite <- R. unfold csvIds.
    destruct (Js.trim (getKnownIds s)); [ reflexivity | discriminate ]. }
  rewrite N. reflexivity.
Qed.

Lemma known_ids_round_trip_witness :
  csvIds (Js.trim (getKnownIds remembered)) = listIds remembered
  /\ bulkCsv twoRelays (getKnownIds remembered) "OFF" remembered
     = (clearError ;;
        forEach (listIds remembered)
          (bulkStep twoRelays (toUpperCase twoRelays (Js.orElse "OFF" "ON")))) remembered.
Proof.
  assert (H : forallb plainId (listIds remembered) = true) by (vm_compute; reflexivity).
  exact (known_ids_round_trip twoRelays "OFF" remembered remembered H).
Defined.

End Csv.

(* ================================================================== *)
(** ** A bulk command for a device whose session is live *)

Module Live.

Lemma applyAction_token host act :
  applyAction host act
  = sendAscii host
      (if (act =? "ON")%string then "1"
       else if (act =? "OFF")%string then "0"
       else if (act =? "TOGGLE")%string then "t"
       else "s").
Proof.
  unfold applyAction, readState.
  destruct (act =? "ON")%string; [ reflexivity | ].
  destruct (act =? "OFF")%string; [ reflexivity | ].
  destruct (act =? "TOGGLE")%string; reflexivity.
Qed.

(** With the session of the device live nothing is connected; the device
    becomes the active one. *)
Lemma resolveAndOpen_live host id dev s :
  findById id s = Some dev -> isLive dev s = true ->
  exists s',
    resolveAndOpen host id s = (Ret tt, s')
    /\ connected s' = connected s /\ rxChar s' = rxChar s /\ log s' = log s
    /\ tick s' = tick s /\ sendQueue s' = sendQueue s
    /\ exists d, device s' = Some d /\ dev_id d = dev_id dev.
Proof.
  intros Hf Hl.
  unfold resolveAndOpen, bind, gets. rewrite Hf. cbv beta iota.
  destruct (device s) as [d |] eqn:Hd.
  - destruct (negb (dev_id d =? dev_id dev)%string) eqn:Eb.
    + unfold setActive, modify, ret, bind, gattConnected, gets, when. cbn.
      unfold isLive in *. cbn. rewrite Hl. cbn.
      eexists. split; [ reflexivity | ]. cbn. repeat split; eauto.
    + apply negb_false_iff in Eb. apply String.eqb_eq in Eb.
      unfold ret, gattConnected, gets, when, isLive in *. rewrite Eb, Hl. cbn.
      eexists. split; [ reflexivity | ]. repeat split; eauto.
  - unfold setActive, modify, ret, bind, gattConnected, gets, when. cbn.
    unfold isLive in *. cbn. rewrite Hl. cbn.
    eexists. split; [ reflexivity | ]. cbn. repeat split; eauto.
Qed.

(** X29.  A bulk command for a registered device whose session is live,
    while the extension is connected: no connection is made, and the
    token of the action is written on the write characteristic at hand,
    whichever device that characteristic belongs to: the characteristic
    is not resolved again for the device addressed.  The command ends as
    that write ends. *)
Theorem command_to_live_device_uses_characteristic_at_hand host id dev act ch s :
  findById id s = Some dev -> isLive dev s = true ->
  connected s = true -> rxChar s = Some ch ->
  log (snd (connectSendById host id act s))
  = (log s ++ [TWrite ch (if (act =? "ON")%string then "1"
                          else if (act =? "OFF")%string then "0"
                          else if (act =? "TOGGLE")%string then "t"
                          else "s")])%list
  /\ rxChar (snd (connectSendById host id act s)) = Some ch
  /\ fst (connectSendById host id act s)
     = match ioReply host (tick s) with
       | Some e => Throw e
       | None => Ret tt
       end.
Proof.
  intros Hf Hl Hc Hr.
  destruct (resolveAndOpen_live host id dev s Hf Hl)
    as (s' & E & Hc' & Hr' & Hlog & Ht & _).
  unfold connectSendById. rewrite (bind_run _ _ s tt s' E).
  rewrite applyAction_token.
  rewrite (sendAscii_write host _ s' ch) by congruence.
  unfold writeValue, record, awaitIo, bind, modify. cbn. rewrite Ht, Hlog.
  destruct (ioReply host (tick s)); cbn; rewrite ?Hlog, ?Hr', ?Hr; auto.
Qed.

Lemma command_to_live_device_uses_characteristic_at_hand_witness :
  log (snd (connectSendById twoRelays "a" "READ"
              (after twoRelays [BtnConnect; BtnConnect] initial)))
  = (log (after twoRelays [BtnConnect; BtnConnect] initial)
       ++ [TWrite rxC (if ("READ" =? "ON")%string then "1"
                       else if ("READ" =? "OFF")%string then "0"
                       else if ("READ" =? "TOGGLE")%string then "t"
                       else "s")])%list
  /\ rxChar (snd (connectSendById twoRelays "a" "READ"
                    (after twoRelays [BtnConnect; BtnConnect] initial))) = Some rxC
  /\ fst (connectSendById twoRelays "a" "READ"
            (after twoRelays [BtnConnect; BtnConnect] initial))
     = match ioReply twoRelays (tick (after twoRelays [BtnConnect; BtnConnect] initial)) with
       | Some e => Throw e
       | None => Ret tt
       end.
Proof.
  assert (H1 : findById "a" (after twoRelays [BtnConnect; BtnConnect] initial) = Some relayA)
    by (vm_compute; reflexivity).
  assert (H2 : isLive relayA (after twoRelays [BtnConnect; BtnConnect] initial) = true)
    by (vm_compute; reflexivity).
  assert (H3 : connected (after twoRelays [BtnConnect; BtnConnect] initial) = true)
    by (vm_compute; reflexivity).
  assert (H4 : rxChar (after twoRelays [BtnConnect; BtnConnect] initial) = Some rxC)
    by (vm_compute; reflexivity).
  exact (command_to_live_device_uses_characteristic_at_hand twoRelays "a" relayA "READ" rxC
           _ H1 H2 H3 H4).
Defined.

End Live.
